(** * The remote media import pipeline of gifselector

    A shallow embedding of the handler of [POST /api/import], the last
    route of the router in [backend/src/auth.js] (lines 459 to 765), and of
    the helpers it relies on, together with the properties of the import
    pipeline stated in the specification.

    The handler is asynchronous JavaScript that talks to the outside world:
    the file system, two network fetches, four external programs, a random
    identifier generator, a clock and the gif database.  It is embedded as
    a computation in a small monad that threads the program state, raises
    and catches exceptions (the [message] of the JavaScript error) and logs
    every external action it performs.  The answers of the outside world
    come from an environment [Env] of oracles indexed by a counter of the
    calls made so far, so that every sequence of answers is covered.

    Besides the pipeline the file embeds the login throttle of [auth.js]
    with the [POST /api/login] route, the base path of [config.js] and of
    the development proxy of [vite.config], and the upload names, the share
    links and the deletion of [routes.js], each with its properties. *)

From Stdlib Require Import List String Ascii ZArith QArith Bool Arith Lia.
From Stdlib Require Import DecimalString.
Import ListNotations.

Set Warnings "-register-all".

Local Open Scope Z_scope.
Local Open Scope string_scope.
Local Open Scope list_scope.

(* ================================================================== *)
(** * JavaScript strings *)
(* ================================================================== *)

Module Js.

(** [String.prototype.toLowerCase], on the ASCII letters.  The only use of
    it compares the result with [".gif"], [".webp"] and [".mp4"], and no
    character outside ASCII lowers to one of the letters of these. *)
Definition lower_ascii (c : ascii) : ascii :=
  let n := nat_of_ascii c in
  if ((65 <=? n) && (n <=? 90))%nat then ascii_of_nat (n + 32) else c.

Fixpoint toLowerCase (s : string) : string :=
  match s with
  | EmptyString => EmptyString
  | String c s' => String (lower_ascii c) (toLowerCase s')
  end.

(** [s.startsWith(p)] *)
Fixpoint startsWith (s p : string) : bool :=
  match p, s with
  | EmptyString, _ => true
  | String _ _, EmptyString => false
  | String a p', String b s' => Ascii.eqb a b && startsWith s' p'
  end.

(** [s.includes(sub)] *)
Fixpoint includes (s sub : string) : bool :=
  startsWith s sub ||
  match s with
  | EmptyString => false
  | String _ s' => includes s' sub
  end.

(** [s.endsWith(suffix)]: some final segment of [s] is [suffix]. *)
Fixpoint endsWith (s suffix : string) : bool :=
  String.eqb s suffix ||
  match s with
  | EmptyString => false
  | String _ s' => endsWith s' suffix
  end.

(** [s.replace(/&amp;/g, "&")]: every occurrence, left to right. *)
Fixpoint replace_amp (s : string) : string :=
  match s with
  | String "&" (String "a" (String "m" (String "p" (String ";" s')))) =>
      String "&" (replace_amp s')
  | String c s' => String c (replace_amp s')
  | EmptyString => EmptyString
  end.

(** A template literal prints a number in decimal. *)
Definition string_of_Z (z : Z) : string :=
  NilZero.string_of_int (Z.to_int z).

(** JavaScript numbers, as far as a comparison with an integer needs them:
    a double is not-a-number, an infinity or a rational. *)
Inductive number : Type :=
| NaN
| Infinity (positive : bool)
| Finite (q : Q).

(** [x > n] *)
Definition number_gt (x : number) (n : Z) : bool :=
  match x with
  | NaN => false
  | Infinity positive => positive
  | Finite q => negb (Qle_bool q (inject_Z n))
  end.

(** The values a parsed JSON body is made of.  A number is kept as an
    integer: the handler never computes with the numbers of the body. *)
Inductive value : Type :=
| Undefined
| Null
| Bool (b : bool)
| Num (z : Z)
| Str (s : string)
| Arr (items : list value)
| Obj (fields : list (string * value)).

(** The own properties of an object, listed with the winning occurrence
    of a key first. *)
Fixpoint get_field (key : string) (fields : list (string * value)) : value :=
  match fields with
  | [] => Undefined
  | (k, v) :: rest => if String.eqb k key then v else get_field key rest
  end.

(** [v[key]] for a value that is neither [undefined] nor [null]: a value
    that is not an object has no property of the handler's interest. *)
Definition property (key : string) (v : value) : value :=
  match v with
  | Obj fields => get_field key fields
  | _ => Undefined
  end.

(** [Array.isArray(v)] *)
Definition isArray (v : value) : bool :=
  match v with
  | Arr _ => true
  | _ => false
  end.

End Js.

(* ================================================================== *)
(** * Paths: the [path] module of Node, POSIX flavour *)
(* ================================================================== *)

Module Path.

Definition slash : ascii := "/"%char.
Definition dot : ascii := "."%char.

Fixpoint chars (s : string) : list ascii :=
  match s with
  | EmptyString => []
  | String c s' => c :: chars s'
  end.

Fixpoint of_chars (l : list ascii) : string :=
  match l with
  | [] => EmptyString
  | c :: l' => String c (of_chars l')
  end.

Fixpoint skip_slashes (l : list ascii) : list ascii :=
  match l with
  | c :: l' => if Ascii.eqb c slash then skip_slashes l' else l
  | [] => []
  end.

Fixpoint until_slash (l : list ascii) : list ascii :=
  match l with
  | c :: l' => if Ascii.eqb c slash then [] else c :: until_slash l'
  | [] => []
  end.

(** The last portion of a path, read backwards: trailing slashes are
    ignored and the portion stops at the slash before it. *)
Definition last_portion_rev (p : string) : list ascii :=
  until_slash (skip_slashes (rev (chars p))).

(** Splits the reversed portion at its first dot, which is the last dot of
    the portion: the characters after the dot (still reversed) and the
    characters before it. *)
Fixpoint split_dot (l : list ascii) : option (list ascii * list ascii) :=
  match l with
  | [] => None
  | c :: l' =>
      if Ascii.eqb c dot then Some ([], l')
      else match split_dot l' with
           | Some (after, before) => Some (c :: after, before)
           | None => None
           end
  end.

(** [path.extname(p)]: from the last dot of the last portion to its end;
    empty when there is no dot, when the only dot starts the portion, and
    for the portion [".."]. *)
Definition extname (p : string) : string :=
  match split_dot (last_portion_rev p) with
  | None => EmptyString
  | Some (after, before) =>
      match before, after with
      | [], _ => EmptyString
      | [c], [] => if Ascii.eqb c dot then EmptyString else "."
      | _, _ => of_chars (dot :: rev after)
      end
  end.

(** [path.basename(p)] for a path without a trailing slash. *)
Definition basename (p : string) : string :=
  of_chars (rev (last_portion_rev p)).

End Path.

(* ================================================================== *)
(** * The data model *)
(* ================================================================== *)

(** The bytes of a file or of a response body.  The pipeline never looks
    inside them: it moves them around, and reads their length. *)
Record blob : Type := mkBlob { content : string; byteLength : Z }.

(** A path below [os.tmpdir()], as the list of its components:
    [path.join(dir, name)] is [dir ++ [name]]. *)
Definition path : Type := list string.

Definition join (dir : path) (name : string) : path := (dir ++ [name])%list.

(** The string the program holds for a path. *)
Fixpoint path_str (tmpdir : string) (p : path) : string :=
  match p with
  | [] => tmpdir
  | name :: rest => path_str (tmpdir ++ "/" ++ name) rest
  end.

(** An entry of a directory, as [readdir] with [withFileTypes] reports it. *)
Inductive node : Type :=
| File (name : string) (data : blob)
| Dir (name : string) (children : list node).

Definition node_name (n : node) : string :=
  match n with
  | File name _ => name
  | Dir name _ => name
  end.

(** The row [addGif] inserts.  [mimeType] is optional because it is read
    from [EXTENSION_MIME_MAP], a lookup that may be [undefined]. *)
Record Gif : Type := mkGif {
  g_slug : string;
  g_filename : string;
  g_originalName : string;
  g_mimeType : option string;
  g_sizeBytes : Z
}.

(** The object pushed on [results] for one URL; an absent property is
    [None]. *)
Record ImportResult : Type := mkResult {
  r_url : Js.value;
  r_success : bool;
  r_slug : option string;
  r_error : option string
}.

(** What [new URL(x)] exposes to the handler. *)
Record URL : Type := mkURL { hostname : string; pathname : string }.

(** A [fetch] response.  Reading the body may itself be rejected. *)
Record Response : Type := mkResponse {
  status : Z;
  statusText : string;
  content_length : option string;
  content_type : option string;
  text : string + string;
  arrayBuffer : string + blob
}.

(** [response.ok] *)
Definition ok (r : Response) : bool :=
  ((200 <=? status r) && (status r <=? 299))%Z.

Inductive FetchOutcome : Type :=
| Rejected (message : string)
| Responded (r : Response).

(** What running a program did: whether it exited with status zero, and
    for [gallery-dl] the entries it left in its output directory, for a
    converter the bytes it left at its output path. *)
Record Download : Type := mkDownload { dl_ok : bool; dl_files : list node }.
Record Conversion : Type := mkConversion { cv_ok : bool; cv_output : option blob }.

(** ** The file system *)

Module Fs.

Fixpoint find (name : string) (entries : list node) : option node :=
  match entries with
  | [] => None
  | e :: rest => if String.eqb (node_name e) name then Some e else find name rest
  end.

Fixpoint lookup (p : path) (entries : list node) : option node :=
  match p with
  | [] => None
  | name :: rest =>
      match rest, find name entries with
      | [], found => found
      | _ :: _, Some (Dir _ children) => lookup rest children
      | _ :: _, _ => None
      end
  end.

(** Puts a file into a directory listing: over the file of that name, or
    as a new entry; a directory of that name is in the way. *)
Fixpoint put (name : string) (data : blob) (entries : list node)
  : option (list node) :=
  match entries with
  | [] => Some [File name data]
  | e :: rest =>
      if String.eqb (node_name e) name then
        match e with
        | File _ _ => Some (File name data :: rest)
        | Dir _ _ => None
        end
      else option_map (cons e) (put name data rest)
  end.

(** Rewrites the children of the first directory called [name]. *)
Fixpoint in_dir (name : string) (f : list node -> option (list node))
  (entries : list node) : option (list node) :=
  match entries with
  | [] => None
  | e :: rest =>
      if String.eqb (node_name e) name then
        match e with
        | File _ _ => None
        | Dir _ children =>
            option_map (fun children' => Dir name children' :: rest) (f children)
        end
      else option_map (cons e) (in_dir name f rest)
  end.

(** Writes a file at a path whose directory exists. *)
Fixpoint write (p : path) (data : blob) (entries : list node)
  : option (list node) :=
  match p with
  | [] => None
  | name :: rest =>
      match rest with
      | [] => put name data entries
      | _ :: _ => in_dir name (write rest data) entries
      end
  end.

(** [rm -rf] of an entry of the top directory. *)
Definition remove (name : string) (entries : list node) : list node :=
  filter (fun e => negb (String.eqb (node_name e) name)) entries.

End Fs.

(* ================================================================== *)
(** * The outside world *)
(* ================================================================== *)

(** The parts of the program's surroundings that are not in the
    repository: the allow-list of [./valid-domains], the platform
    functions the handler calls, and the answers of the programs and
    servers it talks to.  An answer depends on the arguments of the call
    and on the number of calls made before it. *)
Record Env : Type := mkEnv {
  (** [require("./valid-domains")] *)
  validDomains : list string;
  (** [new URL(x)]; [None] when the constructor throws *)
  new_URL : Js.value -> option URL;
  (** [Number(s)] *)
  Number : string -> Js.number;
  (** [html.match(new RegExp(source, "i"))]: the first capture group of the
      leftmost match *)
  regex_match : string -> string -> option string;
  (** [os.tmpdir()] *)
  tmpdir : string;
  (** [nanoid(size)] *)
  nanoid : nat -> nat -> string;
  (** [Date.now()] *)
  date_now : nat -> Z;
  (** [gallery-dl --directory dir url] *)
  gallery_dl : nat -> string -> Js.value -> Download;
  (** [fetch(target, { headers: { "User-Agent": agent } })] *)
  fetch : nat -> Js.value -> string -> FetchOutcome;
  (** [ffmpeg], [magick] and [convert], by command name and arguments *)
  converter : nat -> string -> list string -> Conversion;
  (** whether this [rm] of a workspace is rejected *)
  rm_fails : nat -> bool
}.

(** The state the handler works on: the number of calls made to the
    outside world, the entries of [os.tmpdir()], the files of
    [config.UPLOAD_DIR], the rows of the [gifs] table, and the [result]
    object of the URL being processed. *)
Record State : Type := mkState {
  calls : nat;
  tmp : list node;
  uploads : list (string * blob);
  gifs : list Gif;
  result : ImportResult
}.

(** The actions on the outside world, as they are logged. *)
Inductive Event : Type :=
| Mkdir (dir : string)
| RunDownloader (dir : string) (url : Js.value) (d : Download)
| Fetch (target : Js.value) (agent : string) (o : FetchOutcome)
| WriteFile (p : path) (data : blob)
| Listing (dir : string) (files : list path)
| RunConverter (cmd : string) (args : list string) (c : Conversion)
| Stat (p : path) (size : Z)
| CopyFile (src : path) (dst : string)
| AddGif (g : Gif)
| Rm (dir : string) (removed : bool).

(* ================================================================== *)
(** * The monad of the handler *)
(* ================================================================== *)

(** A computation takes the state and gives a value or the message of the
    error it threw, the new state, and the actions it performed. *)
Definition M (A : Type) : Type := State -> (string + A) * State * list Event.

Definition ret {A} (a : A) : M A := fun s => (inr a, s, []).

Definition throw {A} (message : string) : M A := fun s => (inl message, s, []).

Definition bind {A B} (m : M A) (k : A -> M B) : M B := fun s =>
  match m s with
  | (inl e, s1, ev1) => (inl e, s1, ev1)
  | (inr a, s1, ev1) =>
      match k a s1 with
      | (v, s2, ev2) => (v, s2, ev1 ++ ev2)
      end
  end.

(** [try { m } catch (e) { handler(e) }] *)
Definition try_catch {A} (m : M A) (handler : string -> M A) : M A := fun s =>
  match m s with
  | (inl e, s1, ev1) =>
      match handler e s1 with
      | (v, s2, ev2) => (v, s2, ev1 ++ ev2)
      end
  | (inr a, s1, ev1) => (inr a, s1, ev1)
  end.

(** [try { m } finally { cleanup }]: the cleanup runs on both exits, and
    an error of the cleanup replaces the outcome of [m]. *)
Definition try_finally {A} (m : M A) (cleanup : M unit) : M A := fun s =>
  match m s with
  | (v, s1, ev1) =>
      match cleanup s1 with
      | (inl e, s2, ev2) => (inl e, s2, ev1 ++ ev2)
      | (inr _, s2, ev2) => (v, s2, ev1 ++ ev2)
      end
  end.

Declare Scope monad_scope.
Delimit Scope monad_scope with monad.
Notation "x <- m ;; k" := (bind m (fun x => k))
  (at level 61, m at next level, right associativity) : monad_scope.
Notation "m ;; k" := (bind m (fun _ => k))
  (at level 61, right associativity) : monad_scope.
Local Open Scope monad_scope.

(** The parts of a run. *)
Definition value_of {A} (r : (string + A) * State * list Event) : string + A :=
  fst (fst r).
Definition state_of {A} (r : (string + A) * State * list Event) : State :=
  snd (fst r).
Definition events_of {A} (r : (string + A) * State * list Event) : list Event :=
  snd r.

(** ** State updates *)

Definition with_calls (s : State) (n : nat) : State :=
  mkState n (tmp s) (uploads s) (gifs s) (result s).
Definition with_tmp (s : State) (t : list node) : State :=
  mkState (calls s) t (uploads s) (gifs s) (result s).
Definition with_uploads (s : State) (u : list (string * blob)) : State :=
  mkState (calls s) (tmp s) u (gifs s) (result s).
Definition with_gifs (s : State) (g : list Gif) : State :=
  mkState (calls s) (tmp s) (uploads s) g (result s).
Definition with_result (s : State) (r : ImportResult) : State :=
  mkState (calls s) (tmp s) (uploads s) (gifs s) r.

(** One more call to the outside world has been made. *)
Definition called (s : State) : State := with_calls s (S (calls s)).

(* ================================================================== *)
(** * The handler of [POST /api/import] *)
(* ================================================================== *)

Definition ALLOWED_EXTENSIONS : list string := [".gif"; ".webp"].

Definition EXTENSION_MIME_MAP : list (string * string) :=
  [(".gif", "image/gif"); (".webp", "image/webp")].

(** [ALLOWED_EXTENSIONS.has(ext)] *)
Definition allowed_extension (ext : string) : bool :=
  existsb (String.eqb ext) ALLOWED_EXTENSIONS.

(** [EXTENSION_MIME_MAP[ext]] *)
Fixpoint mime_of (ext : string) (map : list (string * string)) : option string :=
  match map with
  | [] => None
  | (e, mime) :: rest => if String.eqb e ext then Some mime else mime_of ext rest
  end.

Definition MAX_DOWNLOAD_SIZE : Z := 15 * 1024 * 1024.

(** JavaScript's [a || b] on strings that may be [null]: the empty string
    is falsy too. *)
Definition or_else (a b : option string) : option string :=
  match a with
  | Some EmptyString => b
  | Some _ => a
  | None => b
  end.

(** ** [name.replace(new RegExp(`${ext}$`, "i"), replacement)]

    The pattern is an extension: a dot, which as a pattern matches any
    character but a line terminator, followed by letters and digits, which
    match without regard to case.  The match is the leftmost position from
    which the pattern reaches the end of the subject. *)
Definition line_terminator (c : ascii) : bool :=
  Ascii.eqb c "010"%char || Ascii.eqb c "013"%char.

Definition pattern_char (p c : ascii) : bool :=
  if Ascii.eqb p Path.dot then negb (line_terminator c)
  else Ascii.eqb (Js.lower_ascii p) (Js.lower_ascii c).

Fixpoint matches_to_end (pattern subject : string) : bool :=
  match pattern, subject with
  | EmptyString, EmptyString => true
  | String p pattern', String c subject' =>
      pattern_char p c && matches_to_end pattern' subject'
  | _, _ => false
  end.

Fixpoint replace_ext (ext replacement subject : string) : string :=
  if matches_to_end ext subject then replacement
  else match subject with
       | EmptyString => EmptyString
       | String c subject' => String c (replace_ext ext replacement subject')
       end.

(** The replacement acts inside the last component of a file path: the
    pattern is as long as the extension of that component. *)
Definition rename (p : path) (f : string -> string) : path :=
  join (removelast p) (f (last p EmptyString)).

(** ** The arguments of the converters *)

Definition ffmpeg_webp_args (input output : string) : list string :=
  ["-y"; "-i"; input; "-vcodec"; "libwebp"; "-loop"; "0";
   "-compression_level"; "4"; "-q:v"; "75"; "-an"; output].

Definition magick_args (input output : string) : list string :=
  [input; "-coalesce"; "-quality"; "80"; output].

Definition ffmpeg_gif_args (input output : string) : list string :=
  ["-y"; "-i"; input; output].

(** ** [findFiles]: the regular files below a directory, depth first *)
Fixpoint findFiles_entry (dir : path) (entry : node) : list path :=
  let entryPath := join dir (node_name entry) in
  match entry with
  | Dir _ children => flat_map (findFiles_entry entryPath) children
  | File _ _ => [entryPath]
  end.

(** The [result] object a URL starts with. *)
Definition new_result (urlStr : Js.value) : ImportResult :=
  mkResult urlStr false None None.

(** What the handler sends. *)
Inductive Payload : Type :=
| ErrorBody (error : string)
| ResultsBody (results : list ImportResult).

Record Reply : Type := mkReply { code : Z; json : Payload }.

Section Handler.

Variable env : Env.

(** The string of a path of the model. *)
Definition str (p : path) : string := path_str (tmpdir env) p.

(** ** The calls to the outside world *)

Definition call_nanoid (size : nat) : M string := fun s =>
  (inr (nanoid env (calls s) size), called s, []).

Definition call_date_now : M Z := fun s =>
  (inr (date_now env (calls s)), called s, []).

(** [fsPromises.mkdir(dir)] in [os.tmpdir()] *)
Definition mkdir (dir : string) : M unit := fun s =>
  match Fs.find dir (tmp s) with
  | Some _ => (inl ("EEXIST: file already exists, mkdir " ++ str [dir])%string, s, [])
  | None => (inr tt, with_tmp s (tmp s ++ [Dir dir []]), [Mkdir dir])
  end.

(** [execFilePromise("gallery-dl", ["--directory", dir, urlStr])]: the
    promise is rejected when the program cannot be run or exits with a
    status other than zero; what it downloaded by then stays in [dir]. *)
Definition execFile_gallery_dl (dir : string) (urlStr : Js.value) : M unit :=
  fun s =>
  let d := gallery_dl env (calls s) (str [dir]) urlStr in
  let t := match Fs.in_dir dir (fun children => Some (children ++ dl_files d))
                   (tmp s) with
           | Some t => t
           | None => tmp s
           end in
  (if dl_ok d then inr tt else inl "Command failed: gallery-dl",
   called (with_tmp s t), [RunDownloader dir urlStr d]).

(** [fetch(target, { headers: { "User-Agent": agent } })] *)
Definition call_fetch (target : Js.value) (agent : string) : M Response :=
  fun s =>
  let o := fetch env (calls s) target agent in
  (match o with Rejected message => inl message | Responded r => inr r end,
   called s, [Fetch target agent o]).

(** Awaiting a promise that is already settled. *)
Definition await {A} (settled : string + A) : M A := fun s => (settled, s, []).

(** [fsPromises.writeFile(p, data)] *)
Definition writeFile (p : path) (data : blob) : M unit := fun s =>
  match Fs.write p data (tmp s) with
  | Some t => (inr tt, with_tmp s t, [WriteFile p data])
  | None => (inl ("ENOENT: no such file or directory, open " ++ str p)%string, s, [])
  end.

(** [findFiles(dir)] on a directory of [os.tmpdir()]: the regular files
    below it, depth first.  The order of the entries of a directory in
    the model stands for the order in which [readdir] lists them. *)
Definition findFiles (dir : string) : M (list path) := fun s =>
  match Fs.find dir (tmp s) with
  | Some (Dir _ children) =>
      let files := flat_map (findFiles_entry [dir]) children in
      (inr files, s, [Listing dir files])
  | _ => (inl ("ENOENT: no such file or directory, scandir " ++ str [dir])%string, s, [])
  end.

(** [execFilePromise(cmd, args)] for a converter whose last argument is
    the path [output] *)
Definition execFile (cmd : string) (args : list string) (output : path)
  : M unit := fun s =>
  let c := converter env (calls s) cmd args in
  let t := match cv_output c with
           | Some data =>
               match Fs.write output data (tmp s) with
               | Some t => t
               | None => tmp s
               end
           | None => tmp s
           end in
  (if cv_ok c then inr tt else inl ("Command failed: " ++ cmd)%string,
   called (with_tmp s t), [RunConverter cmd args c]).

(** [fsPromises.access(p)] *)
Definition access (p : path) : M unit := fun s =>
  match Fs.lookup p (tmp s) with
  | Some _ => (inr tt, s, [])
  | None => (inl ("ENOENT: no such file or directory, access " ++ str p)%string, s, [])
  end.

(** [(await fsPromises.stat(p)).size]; the size a directory reports is
    that of its own record, taken as zero. *)
Definition stat_size (p : path) : M Z := fun s =>
  match Fs.lookup p (tmp s) with
  | Some (File _ data) => (inr (byteLength data), s, [Stat p (byteLength data)])
  | Some (Dir _ _) => (inr 0, s, [Stat p 0])
  | None => (inl ("ENOENT: no such file or directory, stat " ++ str p)%string, s, [])
  end.

(** [fsPromises.copyFile(src, path.join(config.UPLOAD_DIR, name))] *)
Definition copyFile (src : path) (name : string) : M unit := fun s =>
  match Fs.lookup src (tmp s) with
  | Some (File _ data) =>
      (inr tt, with_uploads s (uploads s ++ [(name, data)]), [CopyFile src name])
  | Some (Dir _ _) =>
      (inl ("EISDIR: illegal operation on a directory, copyfile " ++ str src)%string,
       s, [])
  | None => (inl ("ENOENT: no such file or directory, copyfile " ++ str src)%string, s, [])
  end.

(** [addGif(row)] of [database.js], when the insertion and the write of
    the database file are fulfilled: the row is inserted.  A rejected
    [addGif] ends the turn with an error after the file has been copied;
    the properties below that speak of a stored file are about the runs
    in which it is fulfilled. *)
Definition addGif (row : Gif) : M unit := fun s =>
  (inr tt, with_gifs s (gifs s ++ [row]), [AddGif row]).

(** [fsPromises.rm(dir, { recursive: true, force: true })] *)
Definition rm (dir : string) : M unit := fun s =>
  if rm_fails env (calls s) then
    (inl ("EBUSY: resource busy or locked, rm " ++ str [dir])%string, called s,
     [Rm dir false])
  else (inr tt, called (with_tmp s (Fs.remove dir (tmp s))), [Rm dir true]).

(** [result.success = true; result.slug = slug] *)
Definition set_success (slug : string) : M unit := fun s =>
  let r := result s in
  (inr tt, with_result s (mkResult (r_url r) true (Some slug) (r_error r)), []).

(** [result.error = err.message] *)
Definition set_error (message : string) : M unit := fun s =>
  let r := result s in
  (inr tt,
   with_result s (mkResult (r_url r) (r_success r) (r_slug r) (Some message)),
   []).

(** [const result = { url: urlStr, success: false }] *)
Definition fresh_result (urlStr : Js.value) : M unit := fun s =>
  (inr tt, with_result s (new_result urlStr), []).

Definition get_result : M ImportResult := fun s => (inr (result s), s, []).

(** ** The fallback: scrape [og:video] or [og:image] *)

Definition quote : string := String "034"%char EmptyString.

(** The source of the pattern [extractMeta] builds for a property. *)
Definition meta_pattern (prop : string) : string :=
  ("<meta\s+(?:property|name)=[" ++ quote ++ "']" ++ prop
     ++ "[" ++ quote ++ "']\s+content=[" ++ quote ++ "']([^" ++ quote
     ++ "']+)[" ++ quote ++ "']")%string.

(** [extractMeta(prop)] on the page [html] *)
Definition extractMeta (html prop : string) : option string :=
  regex_match env (meta_pattern prop) html.

(** The extension of the file the fallback writes. *)
Definition guess_extension (mediaPath : string) (r : Response) : string :=
  let ext := Path.extname mediaPath in
  let ext :=
    if String.eqb ext EmptyString || (5 <? String.length ext)%nat then
      let cType := match content_type r with
                   | Some c => c
                   | None => EmptyString
                   end in
      if Js.includes cType "video/mp4" then ".mp4"
      else if Js.includes cType "image/gif" then ".gif"
      else if Js.includes cType "image/webp" then ".webp"
      else ext
    else ext in
  if String.eqb ext EmptyString then ".gif" else ext.

(** The declared size is over the cap:
    [contentLength && Number(contentLength) > MAX_DOWNLOAD_SIZE]. *)
Definition declares_too_large (r : Response) : bool :=
  match content_length r with
  | None => false
  | Some EmptyString => false
  | Some contentLength =>
      Js.number_gt (Number env contentLength) MAX_DOWNLOAD_SIZE
  end.

Definition page_agent : string :=
  "Mozilla/5.0 (compatible; GifSelector/1.0; +http://localhost)".

Definition media_agent : string := "GifSelector/1.0".

(** The body of [catch (dlError)]. *)
Definition fallback (tempDir : string) (urlStr : Js.value) : M unit :=
  pageResp <- call_fetch urlStr page_agent ;;
  if negb (ok pageResp) then
    throw ("Fallback fetch failed: " ++ Js.string_of_Z (status pageResp)
             ++ " " ++ statusText pageResp)%string
  else
    html <- await (text pageResp) ;;
    match or_else (extractMeta html "og:video")
            (or_else (extractMeta html "og:video:url")
               (or_else (extractMeta html "og:image")
                  (extractMeta html "twitter:image"))) with
    | None | Some EmptyString => throw "No media found via metadata fallback"
    | Some found =>
        let mediaUrl := Js.replace_amp found in
        mediaResp <- call_fetch (Js.Str mediaUrl) media_agent ;;
        if negb (ok mediaResp) then
          throw ("Fallback download failed: "
                   ++ Js.string_of_Z (status mediaResp))%string
        else if declares_too_large mediaResp then
          throw "Fallback media file too large"
        else
          buffer <- await (arrayBuffer mediaResp) ;;
          if byteLength buffer >? MAX_DOWNLOAD_SIZE then
            throw "Fallback media file too large"
          else
            match new_URL env (Js.Str mediaUrl) with
            | None => throw "Invalid URL"
            | Some parsed =>
                let ext := guess_extension (pathname parsed) mediaResp in
                let savePath :=
                  join [tempDir] ("fallback-download" ++ ext)%string in
                writeFile savePath buffer
            end
    end.

(** The download into the workspace: [gallery-dl], and the fallback when
    its promise is rejected. *)
Definition acquire (tempDir : string) (urlStr : Js.value) : M unit :=
  try_catch (execFile_gallery_dl tempDir urlStr)
            (fun _ => fallback tempDir urlStr).

(** ** The converter *)

(** One strategy: run the program, then check that its output exists. *)
Definition attempt (cmd : string) (args : list string) (output : path)
  : M bool :=
  execFile cmd args output ;; access output ;; ret true.

(** The final path, extension and mime type of a candidate. *)
Definition Candidate : Type := (path * string * option string)%type.

(** The block guarded by [finalExt === ".gif" || isMp4]: strategies one to
    four.  A strategy that fails is logged and the next one is tried. *)
Definition convert (filePath : path) (ext : string) (isMp4 : bool)
  (original : Candidate) : M Candidate :=
  let webpPath := rename filePath (replace_ext ext ".webp") in
  direct <-
    (if isMp4 then
       try_catch
         (attempt "ffmpeg" (ffmpeg_webp_args (str filePath) (str webpPath))
                  webpPath)
         (fun _ => ret false)
     else ret false) ;;
  conversionSuccess <-
    (if negb direct then
       try_catch
         (attempt "magick" (magick_args (str filePath) (str webpPath)) webpPath)
         (fun _ =>
            try_catch
              (attempt "convert" (magick_args (str filePath) (str webpPath))
                       webpPath)
              (fun _ => ret false))
     else ret direct) ;;
  if conversionSuccess then ret (webpPath, ".webp", Some "image/webp")
  else if isMp4 then
    let gifPath := rename filePath (replace_ext ext ".gif") in
    try_catch
      (execFile "ffmpeg" (ffmpeg_gif_args (str filePath) (str gifPath)) gifPath ;;
       access gifPath ;;
       ret (gifPath, ".gif", Some "image/gif"))
      (fun _ => ret original)
  else ret original.

(** The part of the loop body after the conversion: the size check and
    the persisting of the final file.  The value is the new [foundValid]. *)
Definition persist (filePath : path) (final : Candidate) : M bool :=
  let '(finalFilePath, finalExt, finalMimeType) := final in
  if String.eqb finalExt ".mp4" then ret false
  else
    size <- stat_size finalFilePath ;;
    if size >? MAX_DOWNLOAD_SIZE then ret false
    else
      now <- call_date_now ;;
      id <- call_nanoid 6 ;;
      let uniqueName := (Js.string_of_Z now ++ "-" ++ id ++ finalExt)%string in
      copyFile finalFilePath uniqueName ;;
      slug <- call_nanoid 10 ;;
      let originalName := Path.basename (str filePath) in
      addGif (mkGif slug uniqueName originalName finalMimeType size) ;;
      set_success slug ;;
      ret true.

(** One turn of the loop over [downloadedFiles], past the [break]: the
    value is [foundValid] at the end of the turn, [false] after each
    [continue]. *)
Definition process_file (filePath : path) : M bool :=
  let ext := Js.toLowerCase (Path.extname (str filePath)) in
  let isMp4 := String.eqb ext ".mp4" in
  if negb (allowed_extension ext) && negb isMp4 then ret false
  else
    let original : Candidate :=
      (filePath, ext,
       if isMp4 then Some "video/mp4" else mime_of ext EXTENSION_MIME_MAP) in
    final <-
      (if String.eqb ext ".gif" || isMp4 then convert filePath ext isMp4 original
       else ret original) ;;
    persist filePath final.

(** [for (const filePath of downloadedFiles) { if (foundValid) break; ... }] *)
Fixpoint process_files (downloadedFiles : list path) (foundValid : bool)
  : M bool :=
  match downloadedFiles with
  | [] => ret foundValid
  | filePath :: rest =>
      if foundValid then ret foundValid
      else
        found <- process_file filePath ;;
        process_files rest found
  end.

(** The body of the inner [try]: acquire, list, process. *)
Definition import_into (tempDir : string) (urlStr : Js.value) : M unit :=
  acquire tempDir urlStr ;;
  downloadedFiles <- findFiles tempDir ;;
  if (List.length downloadedFiles =? 0)%nat then
    throw "No files downloaded by gallery-dl"
  else
    foundValid <- process_files downloadedFiles false ;;
    if negb foundValid && (0 <? List.length downloadedFiles)%nat then
      throw "Downloaded files were not valid GIFs/WebPs or were too large."
    else ret tt.

(** [validDomains.some(...)] *)
Definition isAllowed (url : URL) : bool :=
  existsb
    (fun domain =>
       String.eqb (hostname url) domain
       || Js.endsWith (hostname url) ("." ++ domain)%string)
    (validDomains env).

(** The body of the outer [try] for one URL. *)
Definition import_url (urlStr : Js.value) : M unit :=
  url <- match new_URL env urlStr with
         | Some url => ret url
         | None => throw "Invalid URL"
         end ;;
  if negb (isAllowed url) then throw "Domain not whitelisted"
  else
    id <- call_nanoid 21 ;;
    let tempDir := ("gifselector-import-" ++ id)%string in
    mkdir tempDir ;;
    try_finally (import_into tempDir urlStr)
                (try_catch (rm tempDir) (fun _ => ret tt)).

(** One turn of the loop over [urls], up to [results.push(result)]. *)
Definition process_url (urlStr : Js.value) : M ImportResult :=
  fresh_result urlStr ;;
  try_catch (import_url urlStr) (fun message => set_error message) ;;
  get_result.

(** [for (const urlStr of urls) { ...; results.push(result); }] *)
Fixpoint process_urls (urls : list Js.value) (results : list ImportResult)
  : M (list ImportResult) :=
  match urls with
  | [] => ret results
  | urlStr :: rest =>
      r <- process_url urlStr ;;
      process_urls rest (results ++ [r])
  end.

(** [const { urls } = req.body]: reading a property of [undefined] or
    [null] throws. *)
Definition body_urls (body : Js.value) : M Js.value :=
  match body with
  | Js.Undefined | Js.Null =>
      throw "Cannot destructure property 'urls' of 'req.body'"
  | _ => ret (Js.property "urls" body)
  end.

(** The handler, after [authMiddleware] and [express.json()]. *)
Definition import_handler (body : Js.value) : M Reply :=
  urls <- body_urls body ;;
  match urls with
  | Js.Arr items =>
      results <- process_urls items [] ;;
      ret (mkReply 200 (ResultsBody results))
  | _ => ret (mkReply 400 (ErrorBody "urls must be an array"))
  end.

End Handler.

(* ================================================================== *)
(** * The vocabulary of the properties *)
(* ================================================================== *)

(** The host is an entry of the allow-list or a subdomain of one. *)
Definition subdomain_of (host entry : string) : Prop :=
  exists label, host = (label ++ "." ++ entry)%string.

Definition on_allow_list (env : Env) (host : string) : Prop :=
  exists entry,
    In entry (validDomains env) /\ (host = entry \/ subdomain_of host entry).

(** Why a raw URL is turned away before any work is done for it. *)
Inductive Rejection (env : Env) (urlStr : Js.value) : string -> Prop :=
| Unparseable :
    new_URL env urlStr = None -> Rejection env urlStr "Invalid URL"
| NotListed url :
    new_URL env urlStr = Some url ->
    ~ on_allow_list env (hostname url) ->
    Rejection env urlStr "Domain not whitelisted".

(** The result of a URL that failed with a message. *)
Definition failure (urlStr : Js.value) (message : string) : ImportResult :=
  mkResult urlStr false None (Some message).

(** Every action of [m] is of the kind [P], and [m] touches neither the
    [gifs] table, nor the uploads, nor the [result] object. *)
Definition quiet {A} (P : Event -> Prop) (m : M A) : Prop :=
  forall s,
    Forall P (events_of (m s)) /\
    gifs (state_of (m s)) = gifs s /\
    uploads (state_of (m s)) = uploads s /\
    result (state_of (m s)) = result s.

(** The kinds of actions of the stages of the pipeline. *)
Definition acquire_event (e : Event) : Prop :=
  match e with
  | RunDownloader _ _ _ | Fetch _ _ _ | WriteFile _ _ => True
  | _ => False
  end.

Definition converter_event (e : Event) : Prop :=
  match e with
  | RunConverter _ _ _ => True
  | _ => False
  end.

Definition processing_event (e : Event) : Prop :=
  match e with
  | RunConverter _ _ _ | Stat _ _ | CopyFile _ _ | AddGif _ => True
  | _ => False
  end.

(** The turn stored a file: one row in [gifs], one file in the uploads
    with the size the row records, at most the cap, and the [result]
    object marked with the slug of the row. *)
Definition stored (env : Env) (s s' : State) : Prop :=
  exists g data n,
    gifs s' = gifs s ++ [g] /\
    uploads s' = uploads s ++ [(g_filename g, data)] /\
    g_sizeBytes g = byteLength data /\
    byteLength data <= MAX_DOWNLOAD_SIZE /\
    g_slug g = nanoid env n 10 /\
    result s' =
      mkResult (r_url (result s)) true (Some (g_slug g)) (r_error (result s)).

Definition untouched (s s' : State) : Prop :=
  gifs s' = gifs s /\ uploads s' = uploads s /\ result s' = result s.

(** The outcome of a turn, or of the loop. *)
Definition turn_outcome (env : Env) (s : State)
  (run : (string + bool) * State * list Event) : Prop :=
  Forall processing_event (events_of run) /\
  ((value_of run = inr true /\ stored env s (state_of run)) \/
   (value_of run <> inr true /\ untouched s (state_of run))).

(** The state after a file has been stored under [name] with [slug]. *)
Definition after_storing (s : State) (name : string) (data : blob) (g : Gif)
  : State :=
  mkState (S (S (S (calls s)))) (tmp s) (uploads s ++ [(name, data)])
          (gifs s ++ [g])
          (mkResult (r_url (result s)) true (Some (g_slug g))
                    (r_error (result s))).

(** The name and the row [persist] makes up for a file. *)
Definition unique_name (env : Env) (s : State) (finalExt : string) : string :=
  (Js.string_of_Z (date_now env (calls s)) ++ "-"
     ++ nanoid env (S (calls s)) 6 ++ finalExt)%string.

Definition row (env : Env) (s : State) (filePath : path) (finalExt : string)
  (mime : option string) (size : Z) : Gif :=
  mkGif (nanoid env (S (S (calls s))) 10) (unique_name env s finalExt)
        (Path.basename (str env filePath)) mime size.

Definition no_files_message : string := "No files downloaded by gallery-dl".

Definition none_valid_message : string :=
  "Downloaded files were not valid GIFs/WebPs or were too large.".

(** The files [findFiles] lists in a workspace. *)
Definition listing (dir : string) (entries : list node) : option (list path) :=
  match Fs.find dir entries with
  | Some (Dir _ children) => Some (flat_map (findFiles_entry [dir]) children)
  | _ => None
  end.

(** How the inner [try] ends after the loop over the files. *)
Definition loop_value (v : string + bool) : string + unit :=
  match v with
  | inl message => inl message
  | inr true => inr tt
  | inr false => inl none_valid_message
  end.

(** The name of the workspace the handler makes in state [s]. *)
Definition workspace (env : Env) (s : State) : string :=
  ("gifselector-import-" ++ nanoid env (calls s) 21)%string.

(** The state once the workspace has been made. *)
Definition in_workspace (env : Env) (s : State) : State :=
  with_tmp (called s) (tmp s ++ [Dir (workspace env s) []]).

(** The state once the cleanup has run. *)
Definition cleaned (env : Env) (dir : string) (s : State) : State :=
  if rm_fails env (calls s) then called s
  else called (with_tmp s (Fs.remove dir (tmp s))).

(** The [result] object after the [catch] of the URL. *)
Definition settle (r : ImportResult) (v : string + unit) : ImportResult :=
  match v with
  | inl message => mkResult (r_url r) (r_success r) (r_slug r) (Some message)
  | inr _ => r
  end.

Definition url_outcome (env : Env) (s : State)
  (run : (string + unit) * State * list Event) : Prop :=
  (value_of run = inr tt /\ stored env s (state_of run)) \/
  ((exists message, value_of run = inl message) /\ untouched s (state_of run)).

Inductive batch (env : Env)
  : list Js.value -> State -> list ImportResult -> State -> list Event -> Prop :=
| batch_done s : batch env [] s [] s []
| batch_next urlStr urls s r s1 ev1 results s2 ev2 :
    process_url env urlStr s = (inr r, s1, ev1) ->
    batch env urls s1 results s2 ev2 ->
    batch env (urlStr :: urls) s (r :: results) s2 (ev1 ++ ev2).

(** A well-formed result: success exactly when there is no error; a
    success carries a slug of ten characters; a failure carries a message
    and no slug. *)
Definition well_formed (r : ImportResult) : Prop :=
  (r_success r = true <-> r_error r = None) /\
  (r_success r = true ->
   exists slug, r_slug r = Some slug /\ String.length slug = 10%nat) /\
  (r_success r = false ->
   (exists message, r_error r = Some message) /\ r_slug r = None).

(** The value is an array whose elements are all strings. *)
Definition array_of_strings (v : Js.value) : bool :=
  match v with
  | Js.Arr items =>
      forallb (fun x => match x with Js.Str _ => true | _ => false end) items
  | _ => false
  end.

(** The same surroundings with another behaviour of [rm]. *)
Definition with_rm_fails (env : Env) (fails : nat -> bool) : Env :=
  mkEnv (validDomains env) (new_URL env) (Number env) (regex_match env)
        (tmpdir env) (nanoid env) (date_now env) (gallery_dl env) (fetch env)
        (converter env) fails.

(** The actions of the inner [try]: neither making nor removing a
    workspace. *)
Definition inner_event (e : Event) : Prop :=
  match e with
  | Mkdir _ | Rm _ _ => False
  | _ => True
  end.

(** The file has one of the extensions the loop looks at. *)
Definition extension (env : Env) (f : path) : string :=
  Js.toLowerCase (Path.extname (str env f)).

Definition classified (env : Env) (f : path) : bool :=
  allowed_extension (extension env f) || String.eqb (extension env f) ".mp4".

(** The state once [gallery-dl] has run in the workspace [dir]. *)
Definition downloaded (env : Env) (dir : string) (urlStr : Js.value)
  (s : State) : State :=
  let d := gallery_dl env (calls s) (str env [dir]) urlStr in
  called
    (with_tmp s
       match Fs.in_dir dir (fun children => Some (children ++ dl_files d))
               (tmp s) with
       | Some t => t
       | None => tmp s
       end).

(** The response declares a size over the cap. *)
Definition declared_over_cap (env : Env) (r : Response) : Prop :=
  exists contentLength,
    content_length r = Some contentLength /\
    contentLength <> EmptyString /\
    Js.number_gt (Number env contentLength) 15728640 = true.

(** The body the response delivers is over the cap. *)
Definition body_over_cap (r : Response) : Prop :=
  exists buffer, arrayBuffer r = inr buffer /\ 15728640 < byteLength buffer.

Definition too_large_message : string := "Fallback media file too large".

Definition fetch_event (e : Event) : Prop :=
  match e with
  | Fetch _ _ _ => True
  | _ => False
  end.

(** The actions of the fallback. *)
Definition fallback_event (e : Event) : Prop :=
  match e with
  | Fetch _ _ _ | WriteFile _ _ => True
  | _ => False
  end.

(** A file name: not empty and without a slash. *)
Definition is_name (name : string) : bool :=
  negb (String.eqb name EmptyString) &&
  forallb (fun c => negb (Ascii.eqb c Path.slash)) (Path.chars name).

(** Every run of a converter is rejected. *)
Definition converters_fail (env : Env) : Prop :=
  forall n cmd args, cv_ok (converter env n cmd args) = false.

(** The state once a converter has run. *)
Definition converted (env : Env) (cmd : string) (args : list string)
  (output : path) (s : State) : State :=
  called
    (with_tmp s
       match cv_output (converter env (calls s) cmd args) with
       | Some data =>
           match Fs.write output data (tmp s) with
           | Some t => t
           | None => tmp s
           end
       | None => tmp s
       end).

(** From [s] to [s'] the stored assets and the result are untouched, and
    every file of the temporary directory is kept but those at [outputs]. *)
Definition keeps (outputs : list path) (s s' : State) : Prop :=
  untouched s s' /\
  forall p name file,
    ~ In p outputs ->
    Fs.lookup p (tmp s) = Some (File name file) ->
    Fs.lookup p (tmp s') = Some (File name file).

(* ================================================================== *)
(** * Sample surroundings *)
(* ================================================================== *)

(** Concrete environments on which the pipeline can be run: a parser for
    [https] URLs, decimal numbers, and fixed answers for the programs and
    the servers. *)
Module Sample.

(** [https://host/path] *)
Definition parse_https (s : string) : option URL :=
  if Js.startsWith s "https://" then
    let rest := Path.chars (substring 8 (String.length s - 8) s) in
    match Path.until_slash rest with
    | [] => None
    | host =>
        Some (mkURL (Path.of_chars host)
                    (Path.of_chars (skipn (List.length host) rest)))
    end
  else None.

Definition new_URL (v : Js.value) : option URL :=
  match v with
  | Js.Str s => parse_https s
  | _ => None
  end.

Fixpoint digits (s : string) (acc : Z) : option Z :=
  match s with
  | EmptyString => Some acc
  | String c s' =>
      let n := nat_of_ascii c in
      if ((48 <=? n) && (n <=? 57))%nat then
        digits s' (10 * acc + Z.of_nat (n - 48))
      else None
  end.

(** [Number(s)] on the strings of decimal digits *)
Definition Number (s : string) : Js.number :=
  match digits s 0 with
  | Some z => Js.Finite (inject_Z z)
  | None => Js.NaN
  end.

Fixpoint letters (n : nat) (c : ascii) : string :=
  match n with
  | O => EmptyString
  | S n' => String c (letters n' c)
  end.

(** An identifier of the asked size, made of the letter of the call. *)
Definition nanoid (call size : nat) : string :=
  letters size (ascii_of_nat (97 + call mod 26)).

Definition date_now (call : nat) : Z := 1700000000000 + Z.of_nat call.

Definition media_url : string := "https://media.tenor.com/clip.mp4".

(** A page whose [og:video] is [media_url], for a matcher that only knows
    this page. *)
Definition page : string :=
  "<meta property='og:video' content='https://media.tenor.com/clip.mp4'>".

Definition regex_match (source html : string) : option string :=
  if String.eqb source (meta_pattern "og:video") && String.eqb html page
  then Some media_url else None.

(** The surroundings in which [gallery-dl] answers [download], every
    fetch answers by [net] and every converter by [conversion]. *)
Definition surroundings (download : Download)
  (net : Js.value -> string -> FetchOutcome) (conversion : Conversion) : Env :=
  mkEnv ["tenor.com"; "giphy.com"] new_URL Number regex_match "/tmp"
        nanoid date_now
        (fun _ _ _ => download) (fun _ => net) (fun _ _ _ => conversion)
        (fun _ => false).

Definition offline : Js.value -> string -> FetchOutcome :=
  fun _ _ => Rejected "fetch failed".

Definition broken : Conversion := mkConversion false None.

Definition start : State := mkState 0 [] [] [] (new_result Js.Undefined).

Definition tenor : Js.value := Js.Str "https://tenor.com/view/x".

(** [gallery-dl] leaves a clip and a picture, and no converter works. *)
Definition clip : blob := mkBlob "clip" 4.
Definition picture : blob := mkBlob "picture" 7.

Definition two_files : Env :=
  surroundings (mkDownload true [File "a.mp4" clip; File "b.webp" picture])
               offline broken.

(** [gallery-dl] exits with status zero and leaves nothing. *)
Definition nothing_downloaded : Env :=
  surroundings (mkDownload true []) offline broken.

(** [gallery-dl] leaves a picture of exactly 15 MiB. *)
Definition at_the_cap : blob := mkBlob "large picture" 15728640.

Definition large_file : Env :=
  surroundings (mkDownload true [File "big.webp" at_the_cap]) offline broken.

(** [gallery-dl] leaves a gif, and no converter works. *)
Definition animation : blob := mkBlob "animation" 9.

Definition one_gif : Env :=
  surroundings (mkDownload true [File "c.gif" animation]) offline broken.

(** [gallery-dl] fails; the page names a clip whose server declares
    20000000 bytes. *)
Definition heavy_media (target : Js.value) (agent : string) : FetchOutcome :=
  if String.eqb agent media_agent then
    Responded (mkResponse 200 "OK" (Some "20000000") (Some "video/mp4")
                          (inl "no text") (inr clip))
  else
    Responded (mkResponse 200 "OK" None (Some "text/html") (inr page)
                          (inl "no buffer")).

Definition heavy_fallback : Env :=
  surroundings (mkDownload false []) heavy_media broken.

Definition heavy_response : Response :=
  mkResponse 200 "OK" (Some "20000000") (Some "video/mp4")
             (inl "no text") (inr clip).

(** [gallery-dl] leaves a clip only, and no converter works. *)
Definition only_clip : Env :=
  surroundings (mkDownload true [File "a.mp4" clip]) offline broken.

(** The workspace of the first URL of a batch. *)
Definition workspace_name : string :=
  "gifselector-import-aaaaaaaaaaaaaaaaaaaaa".

(** A workspace that is already there, with a clip, two pictures and a
    gif, in the middle of a run. *)
Definition stock : list node :=
  [File "a.mp4" clip; File "b.webp" picture; File "c.gif" animation;
   File "z.webp" picture; File "big.webp" at_the_cap;
   File "huge.webp" (mkBlob "larger picture" 15728641)].

Definition workshop : State :=
  mkState 2 [Dir "ws" stock] [] [] (new_result tenor).

Definition clip_path : path := ["ws"; "a.mp4"].
Definition picture_path : path := ["ws"; "b.webp"].
Definition gif_path : path := ["ws"; "c.gif"].
Definition big_path : path := ["ws"; "big.webp"].
Definition huge_path : path := ["ws"; "huge.webp"].

(** Request bodies. *)
Definition two_urls : Js.value :=
  Js.Obj [("urls", Js.Arr [Js.Num 42; tenor])].
Definition one_number : Js.value := Js.Obj [("urls", Js.Arr [Js.Num 42])].
Definition no_array : Js.value :=
  Js.Obj [("urls", Js.Str "https://tenor.com/view/x")].

End Sample.

(* ================================================================== *)
(** * The login throttle of [auth.js] and the [POST /api/login] route *)
(* ================================================================== *)

Module Login.

Local Open Scope Z_scope.

(** The value of the [loginAttempts] map for a client: the failed attempts
    counted so far, and the time until which the client is locked out,
    [null] when it is not. *)
Record Attempts : Type := mkAttempts { attempts : Z; lockoutUntil : option Z }.

(** [req.ip]: a string, or [undefined]. *)
Definition Ip : Type := option string.

Definition ip_eqb (a b : Ip) : bool :=
  match a, b with
  | Some x, Some y => String.eqb x y
  | None, None => true
  | _, _ => false
  end.

(** The [Map] [loginAttempts], with [get], [set] and [delete]. *)
Definition Registry : Type := Ip -> option Attempts.

Definition empty : Registry := fun _ => None.

Definition set (ip : Ip) (record : Attempts) (m : Registry) : Registry :=
  fun k => if ip_eqb ip k then Some record else m k.

Definition delete (ip : Ip) (m : Registry) : Registry :=
  fun k => if ip_eqb ip k then None else m k.

(** The constants of [config.js] the login uses.  The two numbers come
    from [parseInt] on the environment; they are integers whenever the
    variables are unset or hold digits. *)
Record Settings : Type := mkSettings {
  MAX_LOGIN_ATTEMPTS : Z;
  LOCKOUT_DURATION_MS : Z;
  ADMIN_USERNAME : string;
  ADMIN_PASSWORD : string
}.

(** [record.lockoutUntil && record.lockoutUntil > now]: [null] and zero
    are falsy. *)
Definition locked (until : option Z) (now : Z) : bool :=
  match until with
  | Some u => negb (u =? 0) && (u >? now)
  | None => false
  end.

(** [record.lockoutUntil && record.lockoutUntil <= now] *)
Definition expired (until : option Z) (now : Z) : bool :=
  match until with
  | Some u => negb (u =? 0) && (u <=? now)
  | None => false
  end.

(** [Math.ceil(ms / 1000)] on an integer *)
Definition ceil_seconds (ms : Z) : Z := - ((- ms) / 1000).

(** The object [checkLoginRateLimit] returns. *)
Inductive RateLimit : Type :=
| Allowed
| NotAllowed (remainingSeconds : Z).

(** [checkLoginRateLimit(req)] at the time [now] *)
Definition checkLoginRateLimit (ip : Ip) (now : Z) (m : Registry)
  : RateLimit * Registry :=
  match m ip with
  | None => (Allowed, m)
  | Some record =>
      if locked (lockoutUntil record) now then
        (NotAllowed
           (ceil_seconds (match lockoutUntil record with
                          | Some u => u - now
                          | None => 0
                          end)),
         m)
      else if expired (lockoutUntil record) now then (Allowed, delete ip m)
      else (Allowed, m)
  end.

(** [recordFailedLogin(req)] at the time [now]: the value is [blocked]. *)
Definition recordFailedLogin (cfg : Settings) (ip : Ip) (now : Z) (m : Registry)
  : bool * Registry :=
  let record := match m ip with
                | Some record => record
                | None => mkAttempts 0 None
                end in
  let record := if expired (lockoutUntil record) now then mkAttempts 0 None
                else record in
  let count := attempts record + 1 in
  if count >=? MAX_LOGIN_ATTEMPTS cfg then
    (true, set ip (mkAttempts count (Some (now + LOCKOUT_DURATION_MS cfg))) m)
  else (false, set ip (mkAttempts count (lockoutUntil record)) m).

(** [recordSuccessfulLogin(req)] *)
Definition recordSuccessfulLogin (ip : Ip) (m : Registry) : Registry :=
  delete ip m.

(** JavaScript's truthiness of a value of a parsed body. *)
Definition truthy (v : Js.value) : bool :=
  match v with
  | Js.Undefined | Js.Null => false
  | Js.Bool b => b
  | Js.Num z => negb (z =? 0)
  | Js.Str s => negb (String.eqb s EmptyString)
  | Js.Arr _ | Js.Obj _ => true
  end.

(** [v === s] for a string [s] *)
Definition is_string (v : Js.value) (s : string) : bool :=
  match v with
  | Js.Str x => String.eqb x s
  | _ => false
  end.

(** [credentialsAreValid(username, password)] *)
Definition credentialsAreValid (cfg : Settings) (username password : Js.value)
  : bool :=
  is_string username (ADMIN_USERNAME cfg) && is_string password (ADMIN_PASSWORD cfg).

(** What the route answers: the status, the [error] of the body if any,
    and the [authToken] cookie if one is set. *)
Record Answer : Type := mkAnswer {
  a_status : Z;
  a_error : option string;
  a_cookie : option string
}.

(** The handler of [POST /api/login].  [sign] is [issueToken]; the two
    times are those of the two readings of the clock, in
    [checkLoginRateLimit] and in [recordFailedLogin]. *)
Definition login (cfg : Settings) (sign : string -> string) (ip : Ip)
  (now later : Z) (body : Js.value) (m : Registry) : Answer * Registry :=
  match checkLoginRateLimit ip now m with
  | (NotAllowed _, m1) => (mkAnswer 429 (Some "Blocked") None, m1)
  | (Allowed, m1) =>
      let fields := if truthy body then body else Js.Obj [] in
      let username := Js.property "username" fields in
      let password := Js.property "password" fields in
      if negb (truthy username) || negb (truthy password) then
        (mkAnswer 400 (Some "Username and password are required.") None, m1)
      else if negb (credentialsAreValid cfg username password) then
        match recordFailedLogin cfg ip later m1 with
        | (true, m2) => (mkAnswer 429 (Some "Blocked") None, m2)
        | (false, m2) => (mkAnswer 401 (Some "Invalid credentials.") None, m2)
        end
      else
        (mkAnswer 200 None
           (Some (sign (match username with Js.Str s => s | _ => EmptyString end))),
         recordSuccessfulLogin ip m1)
  end.

(** The failed logins of one client at the given times, one after the
    other: the values of [blocked], and the map at the end. *)
Fixpoint failures (cfg : Settings) (ip : Ip) (times : list Z) (m : Registry)
  : list bool * Registry :=
  match times with
  | [] => ([], m)
  | now :: rest =>
      let (blocked, m1) := recordFailedLogin cfg ip now m in
      let (others, m2) := failures cfg ip rest m1 in
      (blocked :: others, m2)
  end.

(** The record of a client, a fresh one when the map has none. *)
Definition current (m : Registry) (ip : Ip) : Attempts :=
  match m ip with
  | Some record => record
  | None => mkAttempts 0 None
  end.

(** A body with the given user name and password. *)
Definition credentials (username password : string) : Js.value :=
  Js.Obj [("username", Js.Str username); ("password", Js.Str password)].

End Login.

(* ================================================================== *)
(** * The base path of [config.js] *)
(* ================================================================== *)

Module Config.

(** [s.slice(0, -1)] *)
Fixpoint drop_last (s : string) : string :=
  match s with
  | EmptyString => EmptyString
  | String c rest =>
      match rest with
      | EmptyString => EmptyString
      | String _ _ => String c (drop_last rest)
      end
  end.

(** [normalizeBasePath(input)], for the value of an environment variable:
    a string, or [undefined]. *)
Definition normalizeBasePath (input : option string) : string :=
  match input with
  | None | Some EmptyString => "/gifselector"
  | Some input =>
      let input := if Js.startsWith input "/" then input
                   else ("/" ++ input)%string in
      if (1 <? String.length input)%nat && Js.endsWith input "/"
      then drop_last input
      else input
  end.

End Config.

(* ================================================================== *)
(** * The base path of the development proxy: [vite.config] *)
(* ================================================================== *)

Module Frontend.

(** [process.env.VITE_BASE_PATH || "/gifselector"] *)
Definition baseEnv (VITE_BASE_PATH : option string) : string :=
  match VITE_BASE_PATH with
  | None | Some EmptyString => "/gifselector"
  | Some value => value
  end.

Definition normalizedBase (VITE_BASE_PATH : option string) : string :=
  let baseEnv := baseEnv VITE_BASE_PATH in
  if Js.endsWith baseEnv "/" then baseEnv else (baseEnv ++ "/")%string.

(** The prefix of the proxied [/api] and [/share] paths. *)
Definition baseWithoutTrailingSlash (VITE_BASE_PATH : option string) : string :=
  let normalizedBase := normalizedBase VITE_BASE_PATH in
  if Js.endsWith normalizedBase "/" then Config.drop_last normalizedBase
  else normalizedBase.

End Frontend.

(* ================================================================== *)
(** * Upload names and share links of [routes.js] *)
(* ================================================================== *)

Module Share.

Definition ALLOWED_MIME_TYPES : list string := ["image/gif"; "image/webp"].

Definition MIME_EXTENSION_MAP : list (string * string) :=
  [("image/gif", ".gif"); ("image/webp", ".webp")].

(** The [fileFilter] of the upload: whether the file is accepted. *)
Definition fileFilter (mimetype : string) : bool :=
  existsb (String.eqb mimetype) ALLOWED_MIME_TYPES.

(** [x || ""] for a string that may be [undefined] *)
Definition or_empty (x : option string) : string :=
  match x with
  | Some s => s
  | None => EmptyString
  end.

(** [resolveFileExtension(file)], on [file.originalname] and
    [file.mimetype].  The lookup in [MIME_EXTENSION_MAP] is that of its
    own keys: the function is called for the files [fileFilter] accepted,
    whose type is one of them. *)
Definition resolveFileExtension (originalname : option string)
  (mimetype : string) : string :=
  let originalExt := Js.toLowerCase (Path.extname (or_empty originalname)) in
  if allowed_extension originalExt then originalExt
  else match mime_of mimetype MIME_EXTENSION_MAP with
       | Some mappedExt => if String.eqb mappedExt EmptyString then ".gif"
                           else mappedExt
       | None => ".gif"
       end.

(** [s.slice(1)] *)
Definition slice1 (s : string) : string :=
  match s with
  | EmptyString => EmptyString
  | String _ rest => rest
  end.

(** [extensionFromFilename(filename)] *)
Definition extensionFromFilename (filename : option string) : string :=
  let ext := Js.toLowerCase (Path.extname (or_empty filename)) in
  if allowed_extension ext then slice1 ext else "gif".

(** What [buildShareUrl] reads of the request: the [x-forwarded-proto]
    and [host] headers, and [req.protocol]. *)
Record Request : Type := mkRequest {
  forwarded_proto : option string;
  protocol : string;
  host : option string
}.

(** [s.split(",")[0]] *)
Fixpoint before_comma (s : string) : string :=
  match s with
  | EmptyString => EmptyString
  | String c rest =>
      if Ascii.eqb c ","%char then EmptyString else String c (before_comma rest)
  end.

(** A string that may be [undefined], in a template literal. *)
Definition shown (x : option string) : string :=
  match x with
  | Some s => s
  | None => "undefined"
  end.

(** [buildShareUrl(req, slug, filename)] with [config.BASE_PATH] *)
Definition buildShareUrl (base_path : string) (req : Request) (slug : string)
  (filename : option string) : string :=
  let extension := extensionFromFilename filename in
  let protocol :=
    match forwarded_proto req with
    | None | Some EmptyString => protocol req
    | Some forwardedProto => before_comma forwardedProto
    end in
  (protocol ++ "://" ++ shown (host req) ++ base_path ++ "/share/" ++ slug
     ++ "." ++ extension)%string.

(** [findGifBySlug(slug)] of [database.js]: the row with the slug, the
    first one should there be several. *)
Definition findGifBySlug (slug : string) (rows : list Gif) : option Gif :=
  List.find (fun g => String.eqb (g_slug g) slug) rows.

(** What [serveSharedGif] answers. *)
Inductive Served : Type :=
| NotFound (error : string)
| Redirect (status : Z) (location : string)
| SendFile (filename : string) (mimeType : string).

(** [gif.mimeType || EXTENSION_MIME_MAP[storedExtension] || "image/gif"] *)
Definition mimeType_of (gif : Gif) (storedExtension : string) : string :=
  match or_else (g_mimeType gif) (mime_of storedExtension EXTENSION_MIME_MAP) with
  | Some mime => if String.eqb mime EmptyString then "image/gif" else mime
  | None => "image/gif"
  end.

(** [serveSharedGif(req, res, next)], on the rows of the [gifs] table and
    on [existsSync], which tells whether the file of a name is in
    [config.UPLOAD_DIR].  [requestedExtParam] is [req.params.ext]. *)
Definition serveSharedGif (base_path : string) (rows : list Gif)
  (existsSync : string -> bool) (req : Request) (slug : string)
  (requestedExtParam : option string) : Served :=
  match findGifBySlug slug rows with
  | None => NotFound "GIF not found."
  | Some gif =>
      if negb (existsSync (g_filename gif)) then NotFound "GIF file missing."
      else
        let storedExtension := Js.toLowerCase (Path.extname (g_filename gif)) in
        let requestedExtension :=
          match requestedExtParam with
          | None | Some EmptyString => None
          | Some param => Some ("." ++ Js.toLowerCase param)%string
          end in
        if match requestedExtension with
           | Some requested =>
               negb (String.eqb storedExtension EmptyString)
               && negb (String.eqb requested storedExtension)
           | None => false
           end
        then Redirect 301
               (buildShareUrl base_path req (g_slug gif) (Some (g_filename gif)))
        else SendFile (g_filename gif) (mimeType_of gif storedExtension)
  end.

(** [deleteGifBySlug(slug)] of [database.js]: the rows with the slug are
    removed from the table; the value tells whether there was one. *)
Definition deleteGifBySlug (slug : string) (rows : list Gif)
  : bool * list Gif :=
  (existsb (fun g => String.eqb (g_slug g) slug) rows,
   filter (fun g => negb (String.eqb (g_slug g) slug)) rows).

(** The uploads once [fsPromises.unlink] of the file of a name in
    [config.UPLOAD_DIR] is fulfilled *)
Definition unlink (name : string) (files : list (string * blob))
  : list (string * blob) :=
  filter (fun file => negb (String.eqb (fst file) name)) files.

(** [fs.existsSync] of the file of a name in [config.UPLOAD_DIR] *)
Definition existsSync (files : list (string * blob)) (name : string) : bool :=
  existsb (fun file => String.eqb (fst file) name) files.

(** What [DELETE /api/gifs/:slug] answers. *)
Inductive Deletion : Type :=
| Gone
| Unknown (error : string).

(** The handler of [DELETE /api/gifs/:slug], on the table and the
    uploads.  [unlink_rejected] tells whether the promise of [unlink] is
    rejected, in which case the file stays where it is; the handler
    swallows the rejection, [.catch(() => {})], and answers with the same
    success. *)
Definition delete_gif (unlink_rejected : bool) (slug : string)
  (rows : list Gif) (files : list (string * blob))
  : Deletion * list Gif * list (string * blob) :=
  match findGifBySlug slug rows with
  | None => (Unknown "GIF not found.", rows, files)
  | Some gif =>
      let (deleted, rows') := deleteGifBySlug slug rows in
      if negb deleted then (Unknown "GIF not found.", rows', files)
      else
        (Gone, rows',
         if unlink_rejected then files else unlink (g_filename gif) files)
  end.

(** The handler of [GET /share/:slug] *)
Definition shareBySlug (base_path : string) (rows : list Gif) (req : Request)
  (slug : string) : Served :=
  match findGifBySlug slug rows with
  | None => NotFound "GIF not found."
  | Some gif =>
      Redirect 301
        (buildShareUrl base_path req (g_slug gif) (Some (g_filename gif)))
  end.

End Share.

(* ================================================================== *)
(** * More vocabulary: the assets of the gallery *)
(* ================================================================== *)

(** The row is that of a picture: its type is [image/gif] or
    [image/webp], and the name of its file ends with the extension that
    goes with the type. *)
Definition image_asset (g : Gif) : Prop :=
  (g_mimeType g = Some "image/gif" /\ Js.endsWith (g_filename g) ".gif" = true) \/
  (g_mimeType g = Some "image/webp" /\ Js.endsWith (g_filename g) ".webp" = true).

(** The name of the file of the row reads back, with [path.extname], as
    one of the allowed extensions, the one that goes with the type of the
    row. *)
Definition readable_asset (g : Gif) : Prop :=
  allowed_extension (Js.toLowerCase (Path.extname (g_filename g))) = true /\
  mime_of (Js.toLowerCase (Path.extname (g_filename g))) EXTENSION_MIME_MAP
    = g_mimeType g.

(** The computation removes no row of the [gifs] table, and the rows it
    adds are all [P]. *)
Definition adds {A} (P : Gif -> Prop) (m : M A) : Prop :=
  forall s,
    exists rows, gifs (state_of (m s)) = gifs s ++ rows /\ Forall P rows.

(** The value the computation returns, when it returns one, is a [P]. *)
Definition yields {A} (P : A -> Prop) (m : M A) : Prop :=
  forall s a, value_of (m s) = inr a -> P a.

(** The candidate is a clip, or a picture with the type of its
    extension. *)
Definition image_candidate (c : Candidate) : Prop :=
  snd (fst c) = ".mp4" \/
  (snd (fst c) = ".gif" /\ snd c = Some "image/gif") \/
  (snd (fst c) = ".webp" /\ snd c = Some "image/webp").


(** The properties the fallback looks for in the page, in its order. *)
Definition meta_properties : list string :=
  ["og:video"; "og:video:url"; "og:image"; "twitter:image"].

(** The page has no content for the property. *)
Definition absent (found : option string) : Prop :=
  found = None \/ found = Some EmptyString.

Definition not_processing (e : Event) : Prop := ~ processing_event e.

Definition not_converter (e : Event) : Prop := ~ converter_event e.

(** The first strategy of the converter for a file: the program and its
    arguments. *)
Definition first_strategy (env : Env) (filePath : path)
  : string * list string :=
  let ext := extension env filePath in
  let webpPath := rename filePath (replace_ext ext ".webp") in
  if String.eqb ext ".mp4"
  then ("ffmpeg", ffmpeg_webp_args (str env filePath) (str env webpPath))
  else ("magick", magick_args (str env filePath) (str env webpPath)).

(** The path is that of an entry below the directory [dir] of
    [os.tmpdir()]. *)
Definition inside (dir : string) (p : path) : Prop :=
  match p with
  | d :: _ :: _ => d = dir
  | _ => False
  end.

(** The computation leaves every entry of [os.tmpdir()] but [dir] as it
    is, in its place. *)
Definition confined {A} (dir : string) (m : M A) : Prop :=
  forall s, Fs.remove dir (tmp (state_of (m s))) = Fs.remove dir (tmp s).

(** ** The table of the strategies *)

(** A strategy of the converter: the program, its arguments and the path
    of its output. *)
Definition Strategy : Type := (string * list string * path)%type.

(** The strategies the converter has for a file, in the order it tries
    them: for a clip, [ffmpeg] to [.webp], [magick], [convert] and
    [ffmpeg] to [.gif]; for a gif, [magick] and [convert]. *)
Definition strategies (env : Env) (filePath : path) (ext : string)
  (isMp4 : bool) : list Strategy :=
  let input := str env filePath in
  let webpPath := rename filePath (replace_ext ext ".webp") in
  let gifPath := rename filePath (replace_ext ext ".gif") in
  (if isMp4
   then [("ffmpeg", ffmpeg_webp_args input (str env webpPath), webpPath)]
   else [])
  ++ [("magick", magick_args input (str env webpPath), webpPath);
      ("convert", magick_args input (str env webpPath), webpPath)]
  ++ (if isMp4
      then [("ffmpeg", ffmpeg_gif_args input (str env gifPath), gifPath)]
      else []).

(** The strategy fails in the state [s]: the program is rejected, or it
    exits with status zero and nothing is at the path of its output once
    it has run. *)
Definition strategy_fails (env : Env) (cmd : string) (args : list string)
  (output : path) (s : State) : Prop :=
  cv_ok (converter env (calls s) cmd args) = false \/
  Fs.lookup output (tmp (converted env cmd args output s)) = None.

(** Every strategy of the list fails, each in the state the one before
    it has left. *)
Fixpoint all_fail (env : Env) (l : list Strategy) (s : State) : Prop :=
  match l with
  | [] => True
  | (cmd, args, output) :: rest =>
      strategy_fails env cmd args output s /\
      all_fail env rest (converted env cmd args output s)
  end.

(** The state once the programs of the list have run, and their runs. *)
Fixpoint after_all (env : Env) (l : list Strategy) (s : State) : State :=
  match l with
  | [] => s
  | (cmd, args, output) :: rest =>
      after_all env rest (converted env cmd args output s)
  end.

Fixpoint runs (env : Env) (l : list Strategy) (s : State) : list Event :=
  match l with
  | [] => []
  | (cmd, args, output) :: rest =>
      RunConverter cmd args (converter env (calls s) cmd args)
        :: runs env rest (converted env cmd args output s)
  end.

(** The classified files of the list are clips all of whose strategies
    fail, each clip in the state the files before it have left. *)
Fixpoint only_failing_clips (env : Env) (files : list path) (s : State)
  : Prop :=
  match files with
  | [] => True
  | f :: rest =>
      if classified env f then
        extension env f = ".mp4" /\
        all_fail env (strategies env f ".mp4" true) s /\
        only_failing_clips env rest
          (after_all env (strategies env f ".mp4" true) s)
      else only_failing_clips env rest s
  end.

(** No run of a converter leaves an output, whatever its exit status. *)
Definition converters_write_nothing (env : Env) : Prop :=
  forall n cmd args, cv_output (converter env n cmd args) = None.


(* ================================================================== *)
(** * More sample surroundings *)
(* ================================================================== *)

(** Concrete clients, tables and programs on which the properties of the
    login, of the share links and of the converters can be run. *)
Module Cases.

Local Open Scope Z_scope.

(** The defaults of [config.js]. *)
Definition config : Login.Settings :=
  Login.mkSettings 5 300000 "admin" "change-me".

Definition sign (username : string) : string :=
  ("token-for-" ++ username)%string.

Definition client : Login.Ip := Some "203.0.113.7".
Definition visitor : Login.Ip := Some "198.51.100.4".

(** The client has failed four times. *)
Definition four_failures : Login.Registry :=
  Login.set client (Login.mkAttempts 4 None) Login.empty.

(** Its fifth failure, at the time 1000, has locked it out. *)
Definition locked_out : Login.Registry :=
  Login.set client (Login.mkAttempts 5 (Some 301000)) four_failures.

(** A table with one picture, whose file is in the uploads. *)
Definition picture_row : Gif :=
  mkGif "abcdefghij" "1700000000002-dddddd.webp" "b.webp"
        (Some "image/webp") 7.

Definition table : list Gif := [picture_row].

Definition on_disk (name : string) : bool :=
  String.eqb name "1700000000002-dddddd.webp".

Definition request : Share.Request :=
  Share.mkRequest (Some "https,http") "http" (Some "gifs.example").

(** Every converter works, and leaves the same bytes. *)
Definition webp_bytes : blob := mkBlob "converted" 5.

Definition working : Env :=
  Sample.surroundings (mkDownload true [File "c.gif" Sample.animation])
                      Sample.offline (mkConversion true (Some webp_bytes)).

Definition after_magick : list node :=
  [Dir "ws" (Sample.stock ++ [File "c.webp" webp_bytes])].

(** No conversion to [.webp] works; [ffmpeg] converts to [.gif]. *)
Definition gif_bytes : blob := mkBlob "legacy" 6.

Definition to_gif_only (call : nat) (cmd : string) (args : list string)
  : Conversion :=
  if existsb (String.eqb "libwebp") args || existsb (String.eqb "-coalesce") args
  then Sample.broken
  else mkConversion true (Some gif_bytes).

Definition legacy : Env :=
  mkEnv ["tenor.com"; "giphy.com"] Sample.new_URL Sample.Number
        Sample.regex_match "/tmp" Sample.nanoid Sample.date_now
        (fun _ _ _ => mkDownload true [File "a.mp4" Sample.clip])
        (fun _ => Sample.offline) to_gif_only (fun _ => false).

Definition after_ffmpeg : list node :=
  [Dir "ws" (Sample.stock ++ [File "a.gif" gif_bytes])].

(** [gallery-dl] leaves a text file only. *)
Definition notes : Env :=
  Sample.surroundings (mkDownload true [File "notes.txt" (mkBlob "notes" 5)])
                      Sample.offline Sample.broken.

(** The response of the page of [Sample.heavy_fallback]. *)
Definition page_response : Response :=
  mkResponse 200 "OK" None (Some "text/html") (inr Sample.page)
             (inl "no buffer").

(** The row the batch [Sample.two_urls] adds in [Sample.two_files], and
    the uploads after it. *)
Definition imported_row : Gif :=
  mkGif "iiiiiiiiii" "1700000000006-hhhhhh.webp" "b.webp"
        (Some "image/webp") 7.

Definition imported (name : string) : bool :=
  String.eqb name "1700000000006-hhhhhh.webp".

(** Every converter exits with status zero and leaves nothing. *)
Definition silent : Conversion := mkConversion true None.

Definition silent_clip : Env :=
  Sample.surroundings (mkDownload true [File "a.mp4" Sample.clip])
                      Sample.offline silent.

Definition silent_gif : Env :=
  Sample.surroundings (mkDownload true [File "c.gif" Sample.animation])
                      Sample.offline silent.



End Cases.

(* ================================================================== *)
(** * Properties of the pipeline *)
(* ================================================================== *)

(** ** Suffixes and the allow-list *)

Lemma endsWith_spec s suffix :
  Js.endsWith s suffix = true <-> exists p, s = (p ++ suffix)%string.
Proof.
  induction s as [|c s IH]; cbn [Js.endsWith].
  - rewrite orb_false_r, String.eqb_eq. split.
    + intros <-. exists EmptyString. reflexivity.
    + intros [[|c p] H]; simpl in H; [auto | discriminate].
  - rewrite orb_true_iff, String.eqb_eq, IH. split.
    + intros [<- | [p ->]].
      * exists EmptyString. reflexivity.
      * exists (String c p). reflexivity.
    + intros [[|c' p] H]; simpl in H.
      * left. assumption.
      * right. exists p. congruence.
Qed.

Lemma isAllowed_spec env url :
  isAllowed env url = true <-> on_allow_list env (hostname url).
Proof.
  unfold isAllowed, on_allow_list, subdomain_of.
  rewrite existsb_exists. split.
  - intros [entry [Hin H]]. exists entry. split; [assumption|].
    apply orb_true_iff in H. destruct H as [H | H].
    + left. apply String.eqb_eq. assumption.
    + right. apply endsWith_spec. assumption.
  - intros [entry [Hin H]]. exists entry. split; [assumption|].
    apply orb_true_iff. destruct H as [H | H].
    + left. apply String.eqb_eq. assumption.
    + right. apply endsWith_spec. assumption.
Qed.

(** C2. A raw URL that does not parse, or whose host is neither an entry
    of the allow-list nor a subdomain of one, gets [success: false] with
    the matching error, and nothing is done for it: no directory is made,
    no program is run and nothing is fetched, so that the state is the one
    before but for the [result] object and no action is logged. *)
Theorem rejected_url_does_nothing env urlStr message s :
  Rejection env urlStr message ->
  process_url env urlStr s =
  (inr (failure urlStr message), with_result s (failure urlStr message), []).
Proof.
  intros H. unfold process_url, import_url, bind, try_catch, fresh_result.
  destruct H as [H | url H Hno].
  - rewrite H. reflexivity.
  - rewrite H. simpl.
    destruct (isAllowed env url) eqn:E.
    + apply isAllowed_spec in E. contradiction.
    + reflexivity.
Qed.

Lemma rejected_url_does_nothing_witness :
  process_url Sample.two_files (Js.Num 42) Sample.start =
  (inr (failure (Js.Num 42) "Invalid URL"),
   with_result Sample.start (failure (Js.Num 42) "Invalid URL"), []) /\
  process_url Sample.two_files (Js.Str "https://tenor.com.evil.example/x")
    Sample.start =
  (inr (failure (Js.Str "https://tenor.com.evil.example/x")
          "Domain not whitelisted"),
   with_result Sample.start
     (failure (Js.Str "https://tenor.com.evil.example/x")
        "Domain not whitelisted"), []).
Proof.
  split.
  - apply (rejected_url_does_nothing Sample.two_files (Js.Num 42)
             "Invalid URL" Sample.start).
    apply Unparseable. reflexivity.
  - apply (rejected_url_does_nothing Sample.two_files
             (Js.Str "https://tenor.com.evil.example/x")
             "Domain not whitelisted" Sample.start).
    apply (NotListed _ _ (mkURL "tenor.com.evil.example" "/x")).
    + reflexivity.
    + intros H.
      apply (isAllowed_spec Sample.two_files
               (mkURL "tenor.com.evil.example" "/x")) in H.
      discriminate H.
Defined.

(** ** Computations that leave the stored assets and the result alone *)

Section Quiet.

Context {A B : Type} (P : Event -> Prop).

Lemma quiet_ret (a : A) : quiet P (ret a).
Proof. intros s. cbn. auto. Qed.

Lemma quiet_throw (message : string) : quiet P (@throw A message).
Proof. intros s. cbn. auto. Qed.

Lemma quiet_await (settled : string + A) : quiet P (await settled).
Proof. intros s. cbn. auto. Qed.

Lemma quiet_bind (m : M A) (k : A -> M B) :
  quiet P m -> (forall a, quiet P (k a)) -> quiet P (bind m k).
Proof.
  intros Hm Hk s. unfold bind. specialize (Hm s).
  destruct (m s) as [[[e | a] s1] ev1]; cbn in *; [assumption|].
  specialize (Hk a s1). destruct (k a s1) as [[v s2] ev2]; cbn in *.
  destruct Hm as (F1 & G1 & U1 & R1), Hk as (F2 & G2 & U2 & R2).
  repeat split; [apply Forall_app; auto | congruence ..].
Qed.

Lemma quiet_try_catch (m : M A) (handler : string -> M A) :
  quiet P m -> (forall e, quiet P (handler e)) -> quiet P (try_catch m handler).
Proof.
  intros Hm Hh s. unfold try_catch. specialize (Hm s).
  destruct (m s) as [[[e | a] s1] ev1]; cbn in *; [|assumption].
  specialize (Hh e s1). destruct (handler e s1) as [[v s2] ev2]; cbn in *.
  destruct Hm as (F1 & G1 & U1 & R1), Hh as (F2 & G2 & U2 & R2).
  repeat split; [apply Forall_app; auto | congruence ..].
Qed.

End Quiet.

Ltac quiet_step :=
  match goal with
  | |- quiet _ (bind _ _) => apply quiet_bind; [|intros ?]
  | |- quiet _ (try_catch _ _) => apply quiet_try_catch; [|intros ?]
  | |- quiet _ (ret _) => apply quiet_ret
  | |- quiet _ (throw _) => apply quiet_throw
  | |- quiet _ (await _) => apply quiet_await
  | |- quiet _ (if ?b then _ else _) => destruct b
  | |- quiet _ (match ?x with _ => _ end) => destruct x
  end.

Section QuietCalls.

Variable env : Env.

Lemma quiet_gallery_dl dir urlStr :
  quiet acquire_event (execFile_gallery_dl env dir urlStr).
Proof. intros s. cbn. repeat split. repeat constructor. Qed.

Lemma quiet_fetch target agent : quiet acquire_event (call_fetch env target agent).
Proof. intros s. cbn. repeat split. repeat constructor. Qed.

Lemma quiet_writeFile p data : quiet acquire_event (writeFile env p data).
Proof.
  intros s. unfold writeFile. destruct (Fs.write p data (tmp s)); cbn.
  - repeat split. repeat constructor.
  - auto.
Qed.

Lemma quiet_execFile cmd args output :
  quiet converter_event (execFile env cmd args output).
Proof. intros s. cbn. repeat split. repeat constructor. Qed.

Lemma quiet_access P p : quiet P (access env p).
Proof. intros s. unfold access. destruct (Fs.lookup p (tmp s)); cbn; auto. Qed.

Lemma quiet_fallback dir urlStr : quiet acquire_event (fallback env dir urlStr).
Proof.
  unfold fallback.
  repeat (quiet_step || apply quiet_fetch || apply quiet_writeFile).
Qed.

Lemma quiet_acquire dir urlStr : quiet acquire_event (acquire env dir urlStr).
Proof.
  unfold acquire. apply quiet_try_catch.
  - apply quiet_gallery_dl.
  - intros _. apply quiet_fallback.
Qed.

Lemma quiet_attempt cmd args output :
  quiet converter_event (attempt env cmd args output).
Proof.
  unfold attempt.
  repeat (quiet_step || apply quiet_execFile || apply quiet_access).
Qed.

Lemma quiet_convert filePath ext isMp4 original :
  quiet converter_event (convert env filePath ext isMp4 original).
Proof.
  unfold convert.
  repeat (quiet_step || apply quiet_attempt || apply quiet_execFile
          || apply quiet_access).
Qed.

End QuietCalls.

(** ** What one turn of the loop does to the stored assets *)

Lemma untouched_refl s : untouched s s.
Proof. repeat split. Qed.

Lemma untouched_trans s1 s2 s3 :
  untouched s1 s2 -> untouched s2 s3 -> untouched s1 s3.
Proof. unfold untouched. intuition congruence. Qed.

Lemma untouched_stored env s1 s2 s3 :
  untouched s1 s2 -> stored env s2 s3 -> stored env s1 s3.
Proof.
  intros (G & U & R) (g & data & n & H1 & H2 & H3 & H4 & H5 & H6).
  exists g, data, n. rewrite <- G, <- U, <- R. auto 10.
Qed.

Lemma quiet_untouched {A} P (m : M A) s : quiet P m -> untouched s (state_of (m s)).
Proof. intros H. destruct (H s) as (_ & G & U & R). repeat split; assumption. Qed.

Section Persist.

Variables (env : Env) (filePath p : path) (ext : string) (mime : option string).
Variable s : State.

Lemma persist_mp4 :
  String.eqb ext ".mp4" = true ->
  persist env filePath (p, ext, mime) s = (inr false, s, []).
Proof. intros H. unfold persist. rewrite H. reflexivity. Qed.

Hypothesis not_mp4 : String.eqb ext ".mp4" = false.

Lemma persist_missing :
  Fs.lookup p (tmp s) = None ->
  exists message, persist env filePath (p, ext, mime) s = (inl message, s, []).
Proof.
  intros L. unfold persist. rewrite not_mp4. unfold bind, stat_size.
  rewrite L. eauto.
Qed.

Lemma persist_directory name children :
  Fs.lookup p (tmp s) = Some (Dir name children) ->
  exists message,
    persist env filePath (p, ext, mime) s =
    (inl message, called (called s), [Stat p 0]).
Proof.
  intros L. unfold persist. rewrite not_mp4. unfold bind, stat_size.
  rewrite L. change (0 >? MAX_DOWNLOAD_SIZE) with false.
  unfold call_date_now, call_nanoid, copyFile.
  cbn [tmp called with_calls calls]. rewrite L. eauto.
Qed.

Lemma persist_too_large name data :
  Fs.lookup p (tmp s) = Some (File name data) ->
  MAX_DOWNLOAD_SIZE < byteLength data ->
  persist env filePath (p, ext, mime) s =
  (inr false, s, [Stat p (byteLength data)]).
Proof.
  intros L Hsize. unfold persist. rewrite not_mp4. unfold bind, stat_size.
  rewrite L. apply Z.gtb_lt in Hsize. rewrite Hsize. reflexivity.
Qed.

Lemma persist_stores name data :
  Fs.lookup p (tmp s) = Some (File name data) ->
  byteLength data <= MAX_DOWNLOAD_SIZE ->
  let g := row env s filePath ext mime (byteLength data) in
  persist env filePath (p, ext, mime) s =
  (inr true, after_storing s (g_filename g) data g,
   [Stat p (byteLength data); CopyFile p (g_filename g); AddGif g]).
Proof.
  intros L Hsize. unfold persist. rewrite not_mp4. unfold bind, stat_size.
  rewrite L.
  replace (byteLength data >? MAX_DOWNLOAD_SIZE) with false
    by (symmetry; rewrite Z.gtb_ltb; apply Z.ltb_ge; assumption).
  unfold call_date_now, call_nanoid, copyFile.
  cbn [tmp called with_calls calls]. rewrite L. reflexivity.
Qed.

End Persist.

Lemma persist_outcome env filePath final s :
  turn_outcome env s (persist env filePath final s).
Proof.
  destruct final as [[p ext] mime]. unfold turn_outcome.
  destruct (String.eqb ext ".mp4") eqn:Hext.
  { rewrite persist_mp4 by assumption. cbn. split; [constructor|].
    right. split; [discriminate | apply untouched_refl]. }
  destruct (Fs.lookup p (tmp s)) as [[name data | name children] |] eqn:L.
  - destruct (Z_lt_le_dec MAX_DOWNLOAD_SIZE (byteLength data)) as [Hsize | Hsize].
    + erewrite persist_too_large by eassumption. cbn.
      split; [repeat constructor|].
      right. split; [discriminate | apply untouched_refl].
    + erewrite persist_stores by eassumption. cbn.
      split; [repeat constructor|].
      left. split; [reflexivity|].
      eexists _, data, _. cbn. repeat split. assumption.
  - destruct (persist_directory env filePath p ext mime s Hext _ _ L) as [m ->].
    cbn. split; [repeat constructor|].
    right. split; [discriminate | repeat split].
  - destruct (persist_missing env filePath p ext mime s Hext L) as [m ->].
    cbn. split; [constructor|].
    right. split; [discriminate | apply untouched_refl].
Qed.

Lemma process_file_outcome env filePath s :
  turn_outcome env s (process_file env filePath s).
Proof.
  unfold process_file.
  set (ext := Js.toLowerCase (Path.extname (str env filePath))).
  set (original := (filePath, ext, _)).
  destruct (negb (allowed_extension ext) && negb (String.eqb ext ".mp4")).
  { cbn. split; [constructor|]. right. split; [discriminate | apply untouched_refl]. }
  assert (Hc : forall m : M Candidate, quiet converter_event m ->
            turn_outcome env s (bind m (fun final => persist env filePath final) s)).
  { intros m Hm. unfold bind.
    pose proof (Hm s) as (F & G & U & R).
    destruct (m s) as [[[e | final] s1] ev1]; cbn in F, G, U, R.
    - split; cbn.
      + eapply Forall_impl; [|exact F]. intros [] H; exact H || contradiction.
      + right. split; [discriminate | repeat split; assumption].
    - pose proof (persist_outcome env filePath final s1) as [F2 H2].
      destruct (persist env filePath final s1) as [[v s2] ev2].
      cbn in F2, H2 |- *. split.
      + apply Forall_app. split; [|assumption].
        eapply Forall_impl; [|exact F]. intros [] H; exact H || contradiction.
      + destruct H2 as [[Hv Hs] | [Hv Hs]]; [left | right]; split; trivial.
        * eapply untouched_stored; [|exact Hs]. repeat split; assumption.
        * eapply untouched_trans; [|exact Hs]. repeat split; assumption. }
  apply Hc.
  destruct (String.eqb ext ".gif" || String.eqb ext ".mp4").
  - apply quiet_convert.
  - apply quiet_ret.
Qed.

Lemma process_files_found env files s :
  process_files env files true s = (inr true, s, []).
Proof. destruct files; reflexivity. Qed.

Lemma process_files_outcome env files s :
  turn_outcome env s (process_files env files false s).
Proof.
  revert s. induction files as [|f files IH]; intros s.
  - cbn. split; [constructor|]. right. split; [discriminate | apply untouched_refl].
  - cbn [process_files]. unfold bind.
    pose proof (process_file_outcome env f s) as [F1 H1].
    destruct (process_file env f s) as [[[e | found] s1] ev1]; cbn in F1, H1.
    + split; [exact F1|]. right. split; [discriminate|].
      destruct H1 as [[Hv _] | [_ Hs]]; [discriminate | exact Hs].
    + destruct found.
      * rewrite process_files_found. cbn. rewrite app_nil_r.
        split; [exact F1|]. left. split; [reflexivity|].
        destruct H1 as [[_ Hs] | [Hv _]]; [exact Hs | contradiction].
      * pose proof (IH s1) as [F2 H2].
        destruct (process_files env files false s1) as [[v s2] ev2].
        cbn in F2, H2 |- *.
        destruct H1 as [[Hv _] | [_ Hs1]]; [discriminate|].
        split; [apply Forall_app; auto|].
        destruct H2 as [[Hv Hs] | [Hv Hs]]; [left | right]; split; trivial.
        -- eapply untouched_stored; eassumption.
        -- eapply untouched_trans; eassumption.
Qed.

(** ** The run of one URL, stage by stage *)

Lemma import_into_run env dir urlStr s :
  let acq := acquire env dir urlStr s in
  let run := import_into env dir urlStr s in
  match value_of acq with
  | inl message => run = (inl message, state_of acq, events_of acq)
  | inr _ =>
      match listing dir (tmp (state_of acq)) with
      | None => exists message, run = (inl message, state_of acq, events_of acq)
      | Some [] =>
          run = (inl no_files_message, state_of acq,
                 events_of acq ++ [Listing dir []])
      | Some files =>
          let loop := process_files env files false (state_of acq) in
          run = (loop_value (value_of loop), state_of loop,
                 events_of acq ++ Listing dir files :: events_of loop)
      end
  end.
Proof.
  unfold import_into, bind, findFiles, listing.
  destruct (acquire env dir urlStr s) as [[[message | []] s1] ev1];
    cbn [value_of state_of events_of fst snd]; [reflexivity|].
  destruct (Fs.find dir (tmp s1)) as [[name data | name children] |];
    [rewrite app_nil_r; eauto | | rewrite app_nil_r; eauto].
  destruct (flat_map (findFiles_entry [dir]) children) as [|f files] eqn:Hfiles.
  - reflexivity.
  - cbn [List.length Nat.eqb Nat.ltb Nat.leb andb].
    destruct (process_files env (f :: files) false s1) as [[[m | found] s2] ev2];
      cbn [value_of state_of events_of fst snd loop_value].
    + reflexivity.
    + destruct found; cbn; rewrite app_nil_r; reflexivity.
Qed.

Lemma import_url_run env urlStr s :
  let run := import_url env urlStr s in
  match new_URL env urlStr with
  | None => run = (inl "Invalid URL", s, [])
  | Some url =>
      if isAllowed env url then
        let dir := workspace env s in
        match Fs.find dir (tmp s) with
        | Some _ =>
            run = (inl ("EEXIST: file already exists, mkdir "
                          ++ str env [dir])%string, called s, [])
        | None =>
            let inner := import_into env dir urlStr (in_workspace env s) in
            run = (value_of inner, cleaned env dir (state_of inner),
                   Mkdir dir :: events_of inner
                     ++ [Rm dir (negb (rm_fails env (calls (state_of inner))))])
        end
      else run = (inl "Domain not whitelisted", s, [])
  end.
Proof.
  unfold import_url, bind.
  destruct (new_URL env urlStr) as [url|]; [|reflexivity].
  cbn [ret]. destruct (isAllowed env url); [|reflexivity].
  cbn [negb call_nanoid]. fold (workspace env s).
  unfold mkdir, try_finally, try_catch, rm, cleaned.
  cbn [tmp called with_calls calls].
  destruct (Fs.find (workspace env s) (tmp s)); [reflexivity|].
  fold (in_workspace env s).
  destruct (import_into env (workspace env s) urlStr (in_workspace env s))
    as [[v s1] ev1].
  cbn [value_of state_of events_of fst snd].
  destruct (rm_fails env (calls s1)); reflexivity.
Qed.

Lemma process_url_run env urlStr s :
  let inner := import_url env urlStr (with_result s (new_result urlStr)) in
  let r := settle (result (state_of inner)) (value_of inner) in
  process_url env urlStr s =
  (inr r, with_result (state_of inner) r, events_of inner).
Proof.
  unfold process_url, bind, try_catch, fresh_result, set_error, get_result.
  destruct (import_url env urlStr (with_result s (new_result urlStr)))
    as [[[message | []] s1] ev1]; cbn; rewrite !app_nil_r.
  - reflexivity.
  - destruct s1. reflexivity.
Qed.

(** ** How the inner and the outer [try] of a URL end *)

Lemma import_into_outcome env dir urlStr s :
  url_outcome env s (import_into env dir urlStr s).
Proof.
  pose proof (import_into_run env dir urlStr s) as H. cbn zeta in H.
  pose proof (quiet_untouched _ _ s (quiet_acquire env dir urlStr)) as Hacq.
  destruct (value_of (acquire env dir urlStr s)) as [message | []].
  { rewrite H. right. split; [eexists; reflexivity | exact Hacq]. }
  destruct (listing dir (tmp (state_of (acquire env dir urlStr s))))
    as [[|f files]|].
  - rewrite H. right. split; [eexists; reflexivity | exact Hacq].
  - rewrite H.
    pose proof (process_files_outcome env (f :: files)
                  (state_of (acquire env dir urlStr s))) as [_ Hloop].
    destruct Hloop as [[Hv Hs] | [Hv Hs]]; rewrite ?Hv.
    + left. split; [reflexivity|]. eapply untouched_stored; eassumption.
    + right. split; [|eapply untouched_trans; eassumption].
      cbn [value_of fst].
      destruct (value_of (process_files env (f :: files) false _))
        as [m | []]; cbn; eauto. contradiction.
  - destruct H as [message ->].
    right. split; [eexists; reflexivity | exact Hacq].
Qed.

Lemma cleaned_untouched env dir s : untouched s (cleaned env dir s).
Proof. unfold cleaned. destruct (rm_fails env (calls s)); repeat split. Qed.

Lemma in_workspace_untouched env s : untouched s (in_workspace env s).
Proof. repeat split. Qed.

Lemma stored_untouched env s1 s2 s3 :
  stored env s1 s2 -> untouched s2 s3 -> stored env s1 s3.
Proof.
  intros (g & data & n & H1 & H2 & H3 & H4 & H5 & H6) (G & U & R).
  exists g, data, n. rewrite G, U, R. auto 10.
Qed.

Lemma import_url_outcome env urlStr s :
  url_outcome env s (import_url env urlStr s).
Proof.
  pose proof (import_url_run env urlStr s) as H. cbn zeta in H.
  destruct (new_URL env urlStr) as [url|].
  2:{ rewrite H. right. split; [eexists; reflexivity | apply untouched_refl]. }
  destruct (isAllowed env url).
  2:{ rewrite H. right. split; [eexists; reflexivity | apply untouched_refl]. }
  destruct (Fs.find (workspace env s) (tmp s)).
  { rewrite H. right. split; [eexists; reflexivity | repeat split]. }
  rewrite H.
  destruct (import_into_outcome env (workspace env s) urlStr (in_workspace env s))
    as [[Hv Hs] | [Hv Hs]]; [left | right]; (split; [exact Hv|]);
    cbn [state_of fst snd].
  - eapply untouched_stored; [apply in_workspace_untouched|].
    eapply stored_untouched; [exact Hs | apply cleaned_untouched].
  - eapply untouched_trans; [apply in_workspace_untouched|].
    eapply untouched_trans; [exact Hs | apply cleaned_untouched].
Qed.

(** ** The batch: the runs of the URLs, one after the other *)

Lemma process_urls_batch env urls : forall acc s,
  exists results s' evs,
    process_urls env urls acc s = (inr (acc ++ results), s', evs) /\
    batch env urls s results s' evs.
Proof.
  induction urls as [|urlStr urls IH]; intros acc s.
  - exists [], s, []. rewrite app_nil_r. split; [reflexivity | constructor].
  - cbn [process_urls]. unfold bind. rewrite process_url_run.
    set (inner := import_url env urlStr (with_result s (new_result urlStr))).
    set (r := settle (result (state_of inner)) (value_of inner)).
    destruct (IH (acc ++ [r]) (with_result (state_of inner) r))
      as (results & s' & evs & Hrun & Hbatch).
    rewrite Hrun. exists (r :: results), s', (events_of inner ++ evs).
    split.
    + rewrite <- app_assoc. reflexivity.
    + econstructor; [|exact Hbatch]. apply process_url_run.
Qed.

Lemma batch_functional env urls s results s' evs :
  batch env urls s results s' evs ->
  process_urls env urls [] s = (inr results, s', evs).
Proof.
  intros H.
  destruct (process_urls_batch env urls [] s) as (rs & s2 & ev2 & Hrun & Hb).
  rewrite Hrun. cbn [app]. clear Hrun.
  revert rs s2 ev2 Hb.
  induction H as [s | urlStr urls s r s1 ev1 results s2 ev2 Hurl Hrest IH];
    intros rs t ev Hb; inversion Hb; subst.
  - reflexivity.
  - match goal with
    | H1 : process_url _ _ _ = _ |- _ => rewrite Hurl in H1; inversion H1; subst
    end.
    match goal with
    | H1 : batch _ _ _ _ _ _ |- _ => specialize (IH _ _ _ H1); inversion IH; subst
    end.
    reflexivity.
Qed.

Lemma batch_split env before after : forall s results s' evs,
  batch env (before ++ after) s results s' evs ->
  exists rs1 s1 ev1 rs2 ev2,
    batch env before s rs1 s1 ev1 /\ batch env after s1 rs2 s' ev2 /\
    results = rs1 ++ rs2 /\ evs = ev1 ++ ev2.
Proof.
  induction before as [|u before IH]; intros s results s' evs H.
  - exists [], s, [], results, evs. repeat split; [constructor | exact H].
  - inversion H; subst.
    match goal with
    | H1 : batch _ (before ++ after) _ _ _ _ |- _ =>
        destruct (IH _ _ _ _ H1) as (rs1 & t & e1 & rs2 & e2 & B1 & B2 & -> & ->)
    end.
    eexists (_ :: rs1), t, (_ ++ e1), rs2, e2.
    repeat split; [econstructor; eassumption | exact B2 | apply app_assoc].
Qed.

Lemma batch_urls env urls s results s' evs :
  batch env urls s results s' evs -> map r_url results = urls.
Proof.
  induction 1 as [| urlStr urls s r s1 ev1 results s2 ev2 Hurl _ IH].
  - reflexivity.
  - cbn [map]. rewrite IH. f_equal.
    rewrite process_url_run in Hurl. inversion Hurl.
    pose proof (import_url_outcome env urlStr (with_result s (new_result urlStr)))
      as [[-> Hs] | [[m ->] Hs]].
    + destruct Hs as (g & _ & _ & _ & _ & _ & _ & _ & ->). reflexivity.
    + destruct Hs as (_ & _ & ->). reflexivity.
Qed.

(** ** The result of one URL *)

Lemma process_url_result env urlStr s :
  exists r s' evs,
    process_url env urlStr s = (inr r, s', evs) /\
    result s' = r /\ r_url r = urlStr /\
    ((r_success r = true /\ r_error r = None /\
      exists g n, r_slug r = Some (g_slug g) /\ g_slug g = nanoid env n 10 /\
                  gifs s' = gifs s ++ [g]) \/
     (r_success r = false /\ r_slug r = None /\
      (exists message, r_error r = Some message) /\ gifs s' = gifs s)).
Proof.
  rewrite process_url_run.
  set (inner := import_url env urlStr (with_result s (new_result urlStr))).
  do 3 eexists. split; [reflexivity|]. split; [reflexivity|].
  destruct (import_url_outcome env urlStr (with_result s (new_result urlStr)))
    as [[Hv Hs] | [[m Hv] Hs]]; fold inner in Hv, Hs; rewrite Hv.
  - destruct Hs as (g & data & n & G & _ & _ & _ & Hslug & R).
    cbn [settle]. rewrite R. cbn. split; [reflexivity|].
    left. repeat split. exists g, n. auto.
  - destruct Hs as (G & _ & R). cbn [settle]. rewrite R. cbn.
    split; [reflexivity|]. right. repeat split; eauto.
Qed.

Lemma batch_gifs_grow env urls s results s' evs :
  batch env urls s results s' evs -> exists added, gifs s' = gifs s ++ added.
Proof.
  induction 1 as [s | urlStr urls s r s1 ev1 results s2 ev2 Hurl _ [added IH]].
  - exists []. rewrite app_nil_r. reflexivity.
  - destruct (process_url_result env urlStr s)
      as (r' & t & ev & Hrun & _ & _ & H).
    rewrite Hrun in Hurl. inversion Hurl; subst. rewrite IH.
    destruct H as [(_ & _ & g & n & _ & _ & ->) | (_ & _ & _ & ->)].
    + exists (g :: added). rewrite <- app_assoc. reflexivity.
    + exists added. reflexivity.
Qed.

Lemma batch_well_formed env urls s results s' evs :
  (forall n size, String.length (nanoid env n size) = size) ->
  batch env urls s results s' evs ->
  forall r, In r results ->
    well_formed r /\
    forall slug, r_slug r = Some slug ->
      exists g, In g (gifs s') /\ g_slug g = slug.
Proof.
  intros Hid.
  induction 1 as [s | urlStr urls s r s1 ev1 results s2 ev2 Hurl Hrest IH].
  - intros r [].
  - intros r' [<- | Hin]; [|auto].
    destruct (process_url_result env urlStr s)
      as (r0 & t & ev & Hrun & _ & _ & H).
    rewrite Hrun in Hurl. inversion Hurl; subst. clear Hurl.
    destruct (batch_gifs_grow _ _ _ _ _ _ Hrest) as [added Hadded].
    destruct H as [(Hs & He & g & n & Hslug & Hg & Hgifs)
                  | (Hs & Hslug & [m He] & Hgifs)].
    + split.
      * unfold well_formed. rewrite Hs, He, Hslug. repeat split; trivial.
        -- intros _. exists (g_slug g). split; [reflexivity|].
           rewrite Hg. apply Hid.
        -- discriminate.
        -- discriminate.
      * intros slug Heq. rewrite Hslug in Heq. inversion Heq; subst.
        exists g. split; [|reflexivity].
        rewrite Hadded, Hgifs. apply in_or_app. left.
        apply in_or_app. right. left. reflexivity.
    + split.
      * unfold well_formed. rewrite Hs, He, Hslug.
        repeat split; try discriminate; eauto.
      * intros slug Heq. rewrite Hslug in Heq. discriminate.
Qed.

(** ** The handler *)

Lemma import_handler_array env body items s :
  Js.property "urls" body = Js.Arr items ->
  exists results s' evs,
    import_handler env body s =
    (inr (mkReply 200 (ResultsBody results)), s', evs) /\
    batch env items s results s' evs.
Proof.
  intros Hurls.
  destruct (process_urls_batch env items [] s) as (rs & s' & evs & Hrun & Hb).
  exists rs, s', evs. split; [|exact Hb].
  unfold import_handler, body_urls, bind.
  destruct body; try discriminate Hurls.
  cbn [ret]. rewrite Hurls. rewrite Hrun. cbn. rewrite app_nil_r. reflexivity.
Qed.

(** C1. When the [urls] field of the body is an array, the handler
    answers 200 with one result per element, in the order of the array and
    carrying the element as its [url].  Every element is processed, from
    the state the elements before it left, whatever became of those; and
    an error thrown while an element is processed ends up in the [error]
    field of its own result, which stays a failure. *)
Theorem import_answers_every_url env body items s :
  Js.property "urls" body = Js.Arr items ->
  exists results s' evs,
    import_handler env body s =
    (inr (mkReply 200 (ResultsBody results)), s', evs) /\
    map r_url results = items /\
    forall before urlStr after,
      items = before ++ urlStr :: after ->
      exists rs1 s1 ev1 r s2 ev2 rs2 ev3,
        process_urls env before [] s = (inr rs1, s1, ev1) /\
        process_url env urlStr s1 = (inr r, s2, ev2) /\
        process_urls env after [] s2 = (inr rs2, s', ev3) /\
        results = rs1 ++ r :: rs2 /\
        evs = ev1 ++ ev2 ++ ev3 /\
        forall message,
          value_of (import_url env urlStr (with_result s1 (new_result urlStr)))
          = inl message ->
          r_success r = false /\ r_error r = Some message.
Proof.
  intros Hurls.
  destruct (import_handler_array env body items s Hurls)
    as (results & s' & evs & Hrun & Hb).
  exists results, s', evs. split; [exact Hrun|].
  split; [eapply batch_urls; exact Hb|].
  intros before urlStr after ->.
  destruct (batch_split _ _ _ _ _ _ _ Hb)
    as (rs1 & s1 & ev1 & rs & ev & B1 & B2 & -> & ->).
  inversion B2; subst.
  do 8 eexists.
  split; [apply batch_functional; exact B1|].
  split; [eassumption|].
  split; [apply batch_functional; eassumption|].
  split; [reflexivity|]. split; [reflexivity|].
  intros message Hthrow.
  match goal with
  | H : process_url _ _ _ = _ |- _ =>
      rewrite process_url_run in H; inversion H; subst; clear H
  end.
  rewrite Hthrow. cbn [settle r_success r_error].
  destruct (import_url_outcome env urlStr (with_result s1 (new_result urlStr)))
    as [[Hv _] | [_ (_ & _ & R)]]; [congruence|].
  rewrite R. split; reflexivity.
Qed.

Lemma import_answers_every_url_witness :
  exists results s' evs,
    import_handler Sample.two_files Sample.two_urls Sample.start =
    (inr (mkReply 200 (ResultsBody results)), s', evs) /\
    map r_url results = [Js.Num 42; Sample.tenor] /\
    forall before urlStr after,
      [Js.Num 42; Sample.tenor] = before ++ urlStr :: after ->
      exists rs1 s1 ev1 r s2 ev2 rs2 ev3,
        process_urls Sample.two_files before [] Sample.start = (inr rs1, s1, ev1) /\
        process_url Sample.two_files urlStr s1 = (inr r, s2, ev2) /\
        process_urls Sample.two_files after [] s2 = (inr rs2, s', ev3) /\
        results = rs1 ++ r :: rs2 /\
        evs = ev1 ++ ev2 ++ ev3 /\
        forall message,
          value_of (import_url Sample.two_files urlStr
                      (with_result s1 (new_result urlStr)))
          = inl message ->
          r_success r = false /\ r_error r = Some message.
Proof.
  apply (import_answers_every_url Sample.two_files Sample.two_urls
           [Js.Num 42; Sample.tenor] Sample.start).
  reflexivity.
Defined.

(** C10. Every entry of the results the handler sends is well formed:
    it is a success exactly when it has no error; a success carries a
    slug, the ten characters [nanoid(10)] gave, which is the slug of a row
    of the [gifs] table; a failure carries a message and no slug. *)
Theorem results_are_well_formed env body s reply s' evs results :
  (forall n size, String.length (nanoid env n size) = size) ->
  import_handler env body s = (inr reply, s', evs) ->
  json reply = ResultsBody results ->
  forall r, In r results ->
    well_formed r /\
    forall slug, r_slug r = Some slug ->
      exists g, In g (gifs s') /\ g_slug g = slug.
Proof.
  intros Hid Hrun Hjson.
  destruct (Js.property "urls" body) as [| | | | | items |] eqn:Hurls.
  6:{ destruct (import_handler_array env body items s Hurls)
        as (rs & t & ev & Hrun' & Hb).
      rewrite Hrun' in Hrun. inversion Hrun; subst. cbn in Hjson.
      inversion Hjson; subst. eapply batch_well_formed; eassumption. }
  all: unfold import_handler, body_urls, bind in Hrun;
    destruct body; cbn in Hrun; try discriminate Hrun;
    try (cbn in Hurls; rewrite Hurls in Hrun; cbn in Hrun);
    inversion Hrun; subst; discriminate Hjson.
Qed.

Lemma sample_nanoid_length n size :
  String.length (Sample.nanoid n size) = size.
Proof.
  unfold Sample.nanoid. generalize (ascii_of_nat (97 + n mod 26)).
  induction size; intros c; cbn; [reflexivity | f_equal; apply IHsize].
Defined.

Lemma results_are_well_formed_witness :
  well_formed (mkResult Sample.tenor true (Some "iiiiiiiiii") None) /\
  exists g,
    In g (gifs (state_of (import_handler Sample.two_files Sample.two_urls
                            Sample.start))) /\
    g_slug g = "iiiiiiiiii".
Proof.
  assert (Hrun :
    import_handler Sample.two_files Sample.two_urls Sample.start =
    (inr (mkReply 200 (ResultsBody
            [failure (Js.Num 42) "Invalid URL";
             mkResult Sample.tenor true (Some "iiiiiiiiii") None])),
     state_of (import_handler Sample.two_files Sample.two_urls Sample.start),
     events_of (import_handler Sample.two_files Sample.two_urls Sample.start)))
    by (vm_compute; reflexivity).
  destruct
    (results_are_well_formed Sample.two_files Sample.two_urls Sample.start
       _ _ _ _ sample_nanoid_length Hrun eq_refl
       (mkResult Sample.tenor true (Some "iiiiiiiiii") None)
       (or_intror (or_introl eq_refl))) as [Hwf Hslug].
  split; [exact Hwf | exact (Hslug "iiiiiiiiii" eq_refl)].
Defined.

(** ** The request level *)

(** C9, as the code has it. A body whose [urls] field is not an array is
    answered 400 with the error [urls must be an array], and nothing
    is done: the state is unchanged and no action is logged.  A body whose
    [urls] field is an array is answered 200 with one result per element,
    whatever the elements are. *)
Theorem request_rejected_unless_array env body s :
  body <> Js.Undefined -> body <> Js.Null ->
  (Js.isArray (Js.property "urls" body) = false ->
   import_handler env body s =
   (inr (mkReply 400 (ErrorBody "urls must be an array")), s, [])) /\
  (forall items,
     Js.property "urls" body = Js.Arr items ->
     exists results s' evs,
       import_handler env body s =
       (inr (mkReply 200 (ResultsBody results)), s', evs) /\
       map r_url results = items).
Proof.
  intros Hu Hn. split.
  - intros Harr. unfold import_handler, body_urls, bind.
    destruct body; try contradiction; cbn [ret];
      destruct (Js.property "urls" _); try discriminate Harr; reflexivity.
  - intros items Hurls.
    destruct (import_handler_array env body items s Hurls)
      as (results & s' & evs & Hrun & Hb).
    exists results, s', evs. split; [exact Hrun|].
    eapply batch_urls; exact Hb.
Qed.

Lemma request_rejected_unless_array_witness :
  import_handler Sample.two_files Sample.no_array Sample.start =
  (inr (mkReply 400 (ErrorBody "urls must be an array")), Sample.start, []) /\
  exists results s' evs,
    import_handler Sample.two_files Sample.one_number Sample.start =
    (inr (mkReply 200 (ResultsBody results)), s', evs) /\
    map r_url results = [Js.Num 42].
Proof.
  split.
  - apply (request_rejected_unless_array Sample.two_files Sample.no_array
             Sample.start); [discriminate | discriminate | reflexivity].
  - apply (request_rejected_unless_array Sample.two_files Sample.one_number
             Sample.start); [discriminate | discriminate | reflexivity].
Defined.

(** C9, as the claim has it, fails: the [urls] field below is an array
    with an element that is not a string; the request is not rejected, the
    element is processed on its own and gets a result. *)
Lemma array_of_non_strings_is_processed :
  array_of_strings (Js.property "urls" Sample.one_number) = false /\
  import_handler Sample.two_files Sample.one_number Sample.start =
  (inr (mkReply 200 (ResultsBody [failure (Js.Num 42) "Invalid URL"])),
   with_result Sample.start (failure (Js.Num 42) "Invalid URL"), []).
Proof. split; reflexivity. Qed.

(** ** The cleanup *)

Lemma acquire_inner e : acquire_event e -> inner_event e.
Proof. destruct e; cbn; auto. Qed.

Lemma processing_inner e : processing_event e -> inner_event e.
Proof. destruct e; cbn; auto. Qed.

Lemma import_into_events env dir urlStr s :
  Forall inner_event (events_of (import_into env dir urlStr s)).
Proof.
  pose proof (import_into_run env dir urlStr s) as H. cbn zeta in H.
  destruct (quiet_acquire env dir urlStr s) as [Hacq _].
  apply (Forall_impl _ acquire_inner) in Hacq.
  destruct (value_of (acquire env dir urlStr s)) as [message | []].
  { rewrite H. exact Hacq. }
  destruct (listing dir (tmp (state_of (acquire env dir urlStr s))))
    as [[|f files]|].
  - rewrite H. cbn. apply Forall_app. split; [exact Hacq | repeat constructor].
  - rewrite H. cbn [events_of snd]. apply Forall_app. split; [exact Hacq|].
    constructor; [exact I|].
    destruct (process_files_outcome env (f :: files)
                (state_of (acquire env dir urlStr s))) as [Hloop _].
    eapply Forall_impl; [apply processing_inner | exact Hloop].
  - destruct H as [message ->]. exact Hacq.
Qed.

Lemma find_remove dir entries : Fs.find dir (Fs.remove dir entries) = None.
Proof.
  induction entries as [|e entries IH]; [reflexivity|].
  cbn [Fs.remove filter].
  destruct (String.eqb (node_name e) dir) eqn:E; cbn [negb]; [exact IH|].
  cbn [Fs.find]. rewrite E. exact IH.
Qed.

Lemma import_into_rm_irrelevant env fails dir urlStr s :
  import_into (with_rm_fails env fails) dir urlStr s = import_into env dir urlStr s.
Proof. reflexivity. Qed.

(** C3. When the run of a URL has made its workspace, the run is the
    making of the workspace, the inner [try] in it, and then, as its last
    action and so before the result is pushed, the removal of that
    workspace, however the inner [try] has ended.  Whether the removal
    works is what the surroundings answer to that call of [rm]: when they
    do not reject it, the workspace is gone from the temporary directory;
    when they reject it, the temporary directory stays as the inner [try]
    left it.  Whether the removal fails has no bearing on the result of
    the URL. *)
Theorem workspace_is_removed env urlStr s dir :
  In (Mkdir dir) (events_of (process_url env urlStr s)) ->
  let s0 := with_result s (new_result urlStr) in
  let inner := import_into env dir urlStr (in_workspace env s0) in
  let rejected := rm_fails env (calls (state_of inner)) in
  dir = workspace env s0 /\
  events_of (process_url env urlStr s) =
    Mkdir dir :: events_of inner ++ [Rm dir (negb rejected)] /\
  (rejected = false ->
   Fs.find dir (tmp (state_of (process_url env urlStr s))) = None) /\
  (rejected = true ->
   tmp (state_of (process_url env urlStr s)) = tmp (state_of inner)) /\
  forall fails,
    value_of (process_url (with_rm_fails env fails) urlStr s) =
    value_of (process_url env urlStr s).
Proof.
  intros Hin. cbn zeta. rewrite process_url_run in Hin |- *.
  cbn [events_of snd] in Hin.
  set (s0 := with_result s (new_result urlStr)) in *.
  pose proof (import_url_run env urlStr s0) as H. cbn zeta in H.
  assert (Hvalue : forall fails,
            value_of (process_url (with_rm_fails env fails) urlStr s) =
            value_of
              (inr (settle (result (state_of (import_url env urlStr s0)))
                      (value_of (import_url env urlStr s0))),
               with_result (state_of (import_url env urlStr s0))
                 (settle (result (state_of (import_url env urlStr s0)))
                    (value_of (import_url env urlStr s0))),
               events_of (import_url env urlStr s0))).
  { intros fails. rewrite process_url_run. fold s0. cbn [value_of fst].
    pose proof (import_url_run (with_rm_fails env fails) urlStr s0) as H'.
    cbn zeta in H'.
    change (new_URL (with_rm_fails env fails) urlStr) with (new_URL env urlStr) in H'.
    destruct (new_URL env urlStr) as [url|]; [|rewrite H, H'; reflexivity].
    change (isAllowed (with_rm_fails env fails) url) with (isAllowed env url) in H'.
    destruct (isAllowed env url); [|rewrite H, H'; reflexivity].
    change (workspace (with_rm_fails env fails) s0) with (workspace env s0) in H'.
    destruct (Fs.find (workspace env s0) (tmp s0)).
    { rewrite H, H'. reflexivity. }
    rewrite H, H'.
    change (in_workspace (with_rm_fails env fails) s0) with (in_workspace env s0).
    rewrite import_into_rm_irrelevant.
    cbn [value_of state_of fst snd].
    assert (Hres : forall e t, result (cleaned e (workspace env s0) t) = result t).
    { intros e t. unfold cleaned. destruct (rm_fails e (calls t)); reflexivity. }
    rewrite !Hres. reflexivity. }
  destruct (new_URL env urlStr) as [url|];
    [|rewrite H in Hin; contradiction].
  destruct (isAllowed env url); [|rewrite H in Hin; contradiction].
  destruct (Fs.find (workspace env s0) (tmp s0)).
  { rewrite H in Hin. contradiction. }
  rewrite H in Hin |- *. cbn [events_of state_of value_of fst snd] in Hin |- *.
  assert (dir = workspace env s0) as ->.
  { destruct Hin as [Heq | Hin]; [congruence|].
    apply in_app_or in Hin. destruct Hin as [Hin | [Heq | []]];
      [|discriminate].
    pose proof (import_into_events env (workspace env s0) urlStr
                  (in_workspace env s0)) as Hev.
    rewrite Forall_forall in Hev. apply Hev in Hin. contradiction. }
  split; [reflexivity|]. split; [reflexivity|].
  split; [|split].
  - intros Hworks. cbn [tmp with_result]. unfold cleaned. rewrite Hworks.
    cbn [tmp called with_calls with_tmp]. apply find_remove.
  - intros Hrejected. cbn [tmp with_result]. unfold cleaned. rewrite Hrejected.
    reflexivity.
  - intros fails. rewrite Hvalue, H. reflexivity.
Qed.

Lemma workspace_is_removed_witness :
  events_of (process_url Sample.two_files Sample.tenor Sample.start) =
    Mkdir Sample.workspace_name
      :: events_of (import_into Sample.two_files Sample.workspace_name
                      Sample.tenor
                      (in_workspace Sample.two_files
                         (with_result Sample.start (new_result Sample.tenor))))
      ++ [Rm Sample.workspace_name true] /\
  Fs.find Sample.workspace_name
    (tmp (state_of (process_url Sample.two_files Sample.tenor Sample.start)))
  = None /\
  forall fails,
    value_of (process_url (with_rm_fails Sample.two_files fails) Sample.tenor
                Sample.start) =
    value_of (process_url Sample.two_files Sample.tenor Sample.start).
Proof.
  destruct (workspace_is_removed Sample.two_files Sample.tenor Sample.start
              Sample.workspace_name)
    as (_ & Hevents & Hgone & _ & Hvalue).
  { vm_compute. left. reflexivity. }
  split; [exact Hevents|]. split; [apply Hgone; reflexivity | exact Hvalue].
Defined.

(** ** One asset per URL *)



(** ** The size cap *)

(** C8, as the claim has it, fails: the picture below has exactly
    15728640 bytes, which is at the cap; it is not skipped: it is copied,
    a row is stored for it and the URL succeeds. *)
Lemma file_at_the_cap_is_stored :
  In (Stat [Sample.workspace_name; "big.webp"] 15728640)
     (events_of (process_url Sample.large_file Sample.tenor Sample.start)) /\
  In (CopyFile [Sample.workspace_name; "big.webp"] "1700000000002-dddddd.webp")
     (events_of (process_url Sample.large_file Sample.tenor Sample.start)) /\
  gifs (state_of (process_url Sample.large_file Sample.tenor Sample.start)) =
  [mkGif "eeeeeeeeee" "1700000000002-dddddd.webp" "big.webp"
         (Some "image/webp") 15728640] /\
  value_of (process_url Sample.large_file Sample.tenor Sample.start) =
  inr (mkResult Sample.tenor true (Some "eeeeeeeeee") None).
Proof. vm_compute. intuition. Qed.

(** C8, as the code has it. The final file of a turn, when its extension
    is not [.mp4], is stored exactly when it has at most 15728640 bytes.
    Over that size the turn ends with [continue], which is not an error:
    nothing is copied and no row is added.  Up to that size, the cap
    included, the file is copied to the uploads under its unique name and
    a row with its size is added. *)
Theorem stored_unless_over_cap env filePath p ext mime s name data :
  String.eqb ext ".mp4" = false ->
  Fs.lookup p (tmp s) = Some (File name data) ->
  (15728640 < byteLength data ->
   persist env filePath (p, ext, mime) s =
   (inr false, s, [Stat p (byteLength data)])) /\
  (byteLength data <= 15728640 ->
   let g := row env s filePath ext mime (byteLength data) in
   persist env filePath (p, ext, mime) s =
   (inr true, after_storing s (g_filename g) data g,
    [Stat p (byteLength data); CopyFile p (g_filename g); AddGif g])).
Proof.
  intros Hext L. split; intros Hsize.
  - eapply persist_too_large; eassumption.
  - eapply persist_stores; eassumption.
Qed.

Lemma stored_unless_over_cap_witness :
  persist Sample.large_file Sample.huge_path
    (Sample.huge_path, ".webp", Some "image/webp") Sample.workshop =
  (inr false, Sample.workshop, [Stat Sample.huge_path 15728641]) /\
  persist Sample.large_file Sample.big_path
    (Sample.big_path, ".webp", Some "image/webp") Sample.workshop =
  (inr true,
   after_storing Sample.workshop "1700000000002-dddddd.webp" Sample.at_the_cap
     (mkGif "eeeeeeeeee" "1700000000002-dddddd.webp" "big.webp"
            (Some "image/webp") 15728640),
   [Stat Sample.big_path 15728640;
    CopyFile Sample.big_path "1700000000002-dddddd.webp";
    AddGif (mkGif "eeeeeeeeee" "1700000000002-dddddd.webp" "big.webp"
                  (Some "image/webp") 15728640)]).
Proof.
  split.
  - apply (stored_unless_over_cap Sample.large_file Sample.huge_path
             Sample.huge_path ".webp" (Some "image/webp") Sample.workshop
             "huge.webp" (mkBlob "larger picture" 15728641));
      reflexivity.
  - apply (stored_unless_over_cap Sample.large_file Sample.big_path
             Sample.big_path ".webp" (Some "image/webp") Sample.workshop
             "big.webp" Sample.at_the_cap);
      [reflexivity | reflexivity | discriminate].
Defined.

(** ** The acquisition *)

Lemma acquire_run env dir urlStr s :
  let d := gallery_dl env (calls s) (str env [dir]) urlStr in
  let fb := fallback env dir urlStr (downloaded env dir urlStr s) in
  acquire env dir urlStr s =
  if dl_ok d then (inr tt, downloaded env dir urlStr s, [RunDownloader dir urlStr d])
  else (value_of fb, state_of fb, RunDownloader dir urlStr d :: events_of fb).
Proof.
  unfold acquire, try_catch, execFile_gallery_dl. fold (downloaded env dir urlStr s).
  destruct (dl_ok (gallery_dl env (calls s) (str env [dir]) urlStr)).
  - reflexivity.
  - destruct (fallback env dir urlStr (downloaded env dir urlStr s)) as [[v s1] ev1].
    reflexivity.
Qed.

Lemma declared_over_cap_spec env r :
  declared_over_cap env r -> declares_too_large env r = true.
Proof.
  intros (cl & Hcl & Hne & Hgt). unfold declares_too_large. rewrite Hcl.
  destruct cl; [contradiction | exact Hgt].
Qed.

Lemma fallback_too_large env dir urlStr s target mediaResp :
  In (Fetch target media_agent (Responded mediaResp))
     (events_of (fallback env dir urlStr s)) ->
  declared_over_cap env mediaResp \/ body_over_cap mediaResp ->
  Forall fetch_event (events_of (fallback env dir urlStr s)) /\
  (exists message, value_of (fallback env dir urlStr s) = inl message) /\
  (ok mediaResp = true ->
   value_of (fallback env dir urlStr s) = inl too_large_message).
Proof.
  unfold fallback, bind, call_fetch.
  set (F1 := Fetch urlStr page_agent (fetch env (calls s) urlStr page_agent)).
  assert (H1 : Fetch target media_agent (Responded mediaResp) <> F1).
  { unfold F1. intros H. inversion H. }
  destruct (fetch env (calls s) urlStr page_agent) as [m1 | pageResp].
  { cbn. intros [H | []]. symmetry in H. contradiction. }
  destruct (ok pageResp); cbn [negb].
  2:{ cbn. intros [H | []]. symmetry in H. contradiction. }
  unfold await. destruct (text pageResp) as [m | html].
  { cbn. intros [H | []]. symmetry in H. contradiction. }
  destruct (or_else _ _) as [[|c found]|].
  1, 3: cbn; intros [H | []]; symmetry in H; contradiction.
  cbn [calls called with_calls].
  set (mediaUrl := Js.replace_amp (String c found)).
  destruct (fetch env (S (calls s)) (Js.Str mediaUrl) media_agent)
    as [m2 | r] eqn:Hfetch.
  { cbn. intros [H | [H | []]]; [symmetry in H; contradiction | discriminate H]. }
  assert (Hr : In (Fetch target media_agent (Responded mediaResp))
                 [F1; Fetch (Js.Str mediaUrl) media_agent (Responded r)] ->
               r = mediaResp).
  { intros [H | [H | []]]; [symmetry in H; contradiction | congruence]. }
  destruct (ok r) eqn:Hok; cbn [negb].
  2:{ cbn. intros Hin _. apply Hr in Hin. subst r.
      split; [repeat constructor|]. split; [eauto | congruence]. }
  destruct (declares_too_large env r) eqn:Hdecl.
  { cbn. intros _ _. split; [repeat constructor|]. split; eauto. }
  destruct (arrayBuffer r) as [m | buffer] eqn:Hbuf.
  { cbn. intros Hin Hlarge. apply Hr in Hin. subst r. exfalso.
    destruct Hlarge as [Hd | (b & Hb & _)]; [|congruence].
    apply declared_over_cap_spec in Hd. congruence. }
  destruct (byteLength buffer >? MAX_DOWNLOAD_SIZE) eqn:Hsize.
  { cbn. intros _ _. split; [repeat constructor|]. split; eauto. }
  intros Hin Hlarge. exfalso.
  assert (Hin' : In (Fetch target media_agent (Responded mediaResp))
                   [F1; Fetch (Js.Str mediaUrl) media_agent (Responded r)]).
  { destruct (new_URL env (Js.Str mediaUrl)) as [parsed|].
    - unfold writeFile in Hin.
      destruct (Fs.write _ buffer _); cbn in Hin |- *.
      + destruct Hin as [H | [H | [H | []]]]; auto. discriminate H.
      + destruct Hin as [H | [H | []]]; auto.
    - cbn in Hin |- *. destruct Hin as [H | [H | []]]; auto. }
  apply Hr in Hin'. subst r.
  destruct Hlarge as [Hd | (b & Hb & Hgt)].
  - apply declared_over_cap_spec in Hd. congruence.
  - rewrite Hbuf in Hb. inversion Hb; subst.
    apply Z.gtb_lt in Hgt. change 15728640 with MAX_DOWNLOAD_SIZE in Hgt.
    congruence.
Qed.

(** ** The stages of the run of a URL *)

(** Either the URL is turned away before a workspace exists, and nothing
    is logged, or the run is the making of the workspace, the inner [try]
    in it, and the removal. *)
Lemma url_stages env urlStr s :
  let run := process_url env urlStr s in
  let s0 := with_result s (new_result urlStr) in
  let dir := workspace env s0 in
  let inner := import_into env dir urlStr (in_workspace env s0) in
  (events_of run = [] /\
   exists message, value_of run = inr (failure urlStr message)) \/
  (Fs.find dir (tmp s) = None /\
   events_of run =
     Mkdir dir :: events_of inner
       ++ [Rm dir (negb (rm_fails env (calls (state_of inner))))] /\
   value_of run = inr (settle (result (state_of inner)) (value_of inner)) /\
   gifs (state_of run) = gifs (state_of inner) /\
   uploads (state_of run) = uploads (state_of inner)).
Proof.
  cbn zeta. rewrite process_url_run.
  set (s0 := with_result s (new_result urlStr)).
  pose proof (import_url_run env urlStr s0) as H. cbn zeta in H.
  destruct (new_URL env urlStr) as [url|].
  2:{ left. rewrite H. split; [reflexivity | eexists; reflexivity]. }
  destruct (isAllowed env url).
  2:{ left. rewrite H. split; [reflexivity | eexists; reflexivity]. }
  change (tmp s) with (tmp s0).
  destruct (Fs.find (workspace env s0) (tmp s0)).
  { left. rewrite H. split; [reflexivity | eexists; reflexivity]. }
  right. rewrite H. cbn [events_of value_of state_of fst snd].
  assert (Hc : forall t, untouched t (cleaned env (workspace env s0) t))
    by (intros t; apply cleaned_untouched).
  destruct (Hc (state_of (import_into env (workspace env s0) urlStr
                            (in_workspace env s0)))) as (G & U & R).
  rewrite R. repeat split; assumption.
Qed.

Lemma fallback_events env dir urlStr s :
  Forall fallback_event (events_of (fallback env dir urlStr s)).
Proof.
  assert (H : quiet fallback_event (fallback env dir urlStr)).
  { unfold fallback.
    repeat (quiet_step
            || (intros t; cbn; repeat split; repeat constructor; fail)).
    intros t. unfold writeFile. destruct (Fs.write _ _ _); cbn.
    - repeat split. repeat constructor.
    - auto. }
  apply H.
Qed.

Lemma fallback_fetches_page env dir urlStr s :
  exists o rest,
    events_of (fallback env dir urlStr s) = Fetch urlStr page_agent o :: rest.
Proof.
  unfold fallback, bind, call_fetch.
  destruct (fetch env (calls s) urlStr page_agent) as [m | r];
    [do 2 eexists; reflexivity|].
  match goal with
  | |- context [ if ?b then ?x else ?y ] => destruct ((if b then x else y) (called s)) as [[v s1] ev1]
  end.
  do 2 eexists. reflexivity.
Qed.

(** What the run in a workspace logs, after the download. *)
Lemma import_into_events_run env dir urlStr s :
  let d := gallery_dl env (calls s) (str env [dir]) urlStr in
  let fb := fallback env dir urlStr (downloaded env dir urlStr s) in
  exists rest,
    events_of (import_into env dir urlStr s) = RunDownloader dir urlStr d :: rest /\
    if dl_ok d then
      Forall (fun e => (exists files, e = Listing dir files) \/ processing_event e)
             rest
    else
      exists later,
        rest = events_of fb ++ later /\
        (later = [] \/ exists v, value_of fb = inr v) /\
        (value_of fb = value_of (acquire env dir urlStr s)) /\
        Forall (fun e => (exists files, e = Listing dir files) \/ processing_event e)
               later.
Proof.
  cbn zeta.
  pose proof (import_into_run env dir urlStr s) as H. cbn zeta in H.
  pose proof (acquire_run env dir urlStr s) as Hacq. cbn zeta in Hacq.
  assert (Hloop : forall files t,
            Forall (fun e => (exists files, e = Listing dir files)
                             \/ processing_event e)
                   (Listing dir files :: events_of (process_files env files false t))).
  { intros files t. constructor; [left; eauto|].
    destruct (process_files_outcome env files t) as [Hp _].
    eapply Forall_impl; [|exact Hp]. cbn. auto. }
  destruct (dl_ok (gallery_dl env (calls s) (str env [dir]) urlStr)).
  - rewrite Hacq in H. cbn [value_of state_of events_of fst snd] in H.
    destruct (listing dir (tmp (downloaded env dir urlStr s))) as [[|f files]|].
    + rewrite H. eexists. split; [reflexivity|]. repeat constructor; eauto.
    + rewrite H. eexists. split; [reflexivity|]. apply Hloop.
    + destruct H as [m ->]. eexists. split; [reflexivity|]. constructor.
  - rewrite Hacq in H |- *. cbn [value_of state_of events_of fst snd] in H |- *.
    destruct (value_of (fallback env dir urlStr (downloaded env dir urlStr s)))
      as [m | []] eqn:Hv.
    { rewrite H. eexists. split; [reflexivity|]. exists [].
      rewrite app_nil_r. repeat split; auto. }
    destruct (listing dir (tmp (state_of (fallback env dir urlStr
                                            (downloaded env dir urlStr s)))))
      as [[|f files]|].
    + rewrite H. eexists. split; [reflexivity|]. eexists. split; [reflexivity|].
      repeat split; eauto; repeat constructor; eauto.
    + rewrite H. eexists. split; [reflexivity|]. eexists. split; [reflexivity|].
      repeat split; eauto.
    + destruct H as [m ->]. eexists. split; [reflexivity|]. exists [].
      rewrite app_nil_r. repeat split; eauto.
Qed.

Lemma listing_or_processing_not_fetch dir l target agent o :
  Forall (fun e => (exists files, e = Listing dir files) \/ processing_event e) l ->
  ~ In (Fetch target agent o) l.
Proof.
  intros H Hin. rewrite Forall_forall in H.
  destruct (H _ Hin) as [[files Heq] | Hp]; [discriminate | exact Hp].
Qed.

Lemma listing_or_processing_not_download dir l d u dl :
  Forall (fun e => (exists files, e = Listing dir files) \/ processing_event e) l ->
  ~ In (RunDownloader d u dl) l.
Proof.
  intros H Hin. rewrite Forall_forall in H.
  destruct (H _ Hin) as [[files Heq] | Hp]; [discriminate | exact Hp].
Qed.

(** C6. In the fallback, when the response to the fetch of the media
    declares a [Content-Length] over 15 MiB, or delivers a body of more
    than 15 MiB, the URL fails and no file is written: no [writeFile] is
    among the actions of the run, no row is added and nothing is uploaded.
    When the response is otherwise good, the error is that the media file
    is too large. *)
Theorem oversized_fallback_media_is_rejected env urlStr s target mediaResp :
  In (Fetch target media_agent (Responded mediaResp))
     (events_of (process_url env urlStr s)) ->
  declared_over_cap env mediaResp \/ body_over_cap mediaResp ->
  (forall p data, ~ In (WriteFile p data) (events_of (process_url env urlStr s))) /\
  (exists message,
     value_of (process_url env urlStr s) = inr (failure urlStr message) /\
     (ok mediaResp = true -> message = too_large_message)) /\
  gifs (state_of (process_url env urlStr s)) = gifs s /\
  uploads (state_of (process_url env urlStr s)) = uploads s.
Proof.
  intros Hin Hlarge.
  destruct (url_stages env urlStr s) as [[Hev _] | (Hfresh & Hev & Hval & G & U)].
  { rewrite Hev in Hin. contradiction. }
  set (s0 := with_result s (new_result urlStr)) in *.
  set (dir := workspace env s0) in *.
  set (s1 := in_workspace env s0) in *.
  rewrite Hev in Hin |- *. rewrite Hval, G, U. clear Hev Hval G U.
  destruct Hin as [Hin | Hin]; [discriminate Hin|].
  apply in_app_or in Hin. destruct Hin as [Hin | [Hin | []]]; [|discriminate Hin].
  destruct (import_into_events_run env dir urlStr s1) as [rest [Hev Hrest]].
  rewrite Hev in Hin |- *. destruct Hin as [Hin | Hin]; [discriminate Hin|].
  destruct (dl_ok (gallery_dl env (calls s1) (str env [dir]) urlStr)).
  { exfalso. eapply listing_or_processing_not_fetch; eassumption. }
  destruct Hrest as (later & -> & Hlater & Hacq & Hkinds).
  apply in_app_or in Hin. destruct Hin as [Hin | Hin].
  2:{ exfalso. eapply listing_or_processing_not_fetch; eassumption. }
  destruct (fallback_too_large env dir urlStr _ _ _ Hin Hlarge)
    as (Hfetch & [m Hm] & Hok).
  destruct Hlater as [-> | [v Hv]]; [|congruence].
  rewrite Hm in Hacq, Hok. symmetry in Hacq.
  pose proof (import_into_run env dir urlStr s1) as Hrun. cbn zeta in Hrun.
  rewrite Hacq in Hrun. rewrite Hrun. cbn [value_of state_of fst snd].
  pose proof (quiet_untouched acquire_event _ s1 (quiet_acquire env dir urlStr))
    as (G & U & R).
  rewrite G, U, R. cbn [settle]. repeat split.
  - intros p data Hw. rewrite app_nil_r in Hw.
    destruct Hw as [Hw | [Hw | Hw]]; try discriminate Hw.
    apply in_app_or in Hw. destruct Hw as [Hw | [Hw | []]]; [|discriminate Hw].
    rewrite Forall_forall in Hfetch. apply Hfetch in Hw. exact Hw.
  - exists m. split; [reflexivity|].
    intros Hgood. specialize (Hok Hgood). congruence.
Qed.

Lemma oversized_fallback_media_is_rejected_witness :
  (forall p data,
     ~ In (WriteFile p data)
          (events_of (process_url Sample.heavy_fallback Sample.tenor
                        Sample.start))) /\
  (exists message,
     value_of (process_url Sample.heavy_fallback Sample.tenor Sample.start) =
     inr (failure Sample.tenor message) /\
     (ok Sample.heavy_response = true -> message = too_large_message)) /\
  gifs (state_of (process_url Sample.heavy_fallback Sample.tenor Sample.start))
  = gifs Sample.start /\
  uploads (state_of (process_url Sample.heavy_fallback Sample.tenor Sample.start))
  = uploads Sample.start.
Proof.
  apply (oversized_fallback_media_is_rejected Sample.heavy_fallback
           Sample.tenor Sample.start (Js.Str Sample.media_url)
           Sample.heavy_response).
  - vm_compute. auto 10.
  - left. exists "20000000".
    split; [reflexivity|]. split; [discriminate | reflexivity].
Defined.

(** ** When the fallback runs *)

Lemma find_fresh dir e entries :
  Fs.find dir entries = None ->
  Fs.find dir (entries ++ [e]) =
  if String.eqb (node_name e) dir then Some e else None.
Proof.
  induction entries as [|x entries IH]; cbn [Fs.find app]; [reflexivity|].
  destruct (String.eqb (node_name x) dir); [discriminate | exact IH].
Qed.

Lemma in_dir_fresh dir f children entries :
  Fs.find dir entries = None ->
  Fs.in_dir dir f (entries ++ [Dir dir children]) =
  option_map (fun children' => entries ++ [Dir dir children']) (f children).
Proof.
  induction entries as [|x entries IH]; cbn [Fs.find Fs.in_dir app node_name].
  - intros _. rewrite String.eqb_refl. destruct (f children); reflexivity.
  - destruct (String.eqb (node_name x) dir); [discriminate|].
    intros H. rewrite (IH H). destruct (f children); reflexivity.
Qed.

(** The listing of a fresh workspace after the download is that of what
    [gallery-dl] left there. *)
Lemma listing_after_download env urlStr s :
  let dir := workspace env s in
  let s1 := in_workspace env s in
  Fs.find dir (tmp s) = None ->
  listing dir (tmp (downloaded env dir urlStr s1)) =
  Some (flat_map (findFiles_entry [dir])
          (dl_files (gallery_dl env (calls s1) (str env [dir]) urlStr))).
Proof.
  intros dir s1 Hfresh. unfold downloaded, listing.
  cbn [tmp called with_calls with_tmp s1 in_workspace]. fold dir.
  rewrite (in_dir_fresh dir _ [] (tmp s) Hfresh). cbn [option_map app].
  rewrite (find_fresh dir _ (tmp s) Hfresh). cbn [node_name].
  rewrite String.eqb_refl. reflexivity.
Qed.

(** C7, as the claim has it, fails: [gallery-dl] exits with status zero
    and leaves the workspace empty; nothing is fetched, and the URL fails
    for want of downloaded files. *)
Lemma empty_download_fails_the_url :
  events_of (process_url Sample.nothing_downloaded Sample.tenor Sample.start) =
  [Mkdir Sample.workspace_name;
   RunDownloader Sample.workspace_name Sample.tenor (mkDownload true []);
   Listing Sample.workspace_name [];
   Rm Sample.workspace_name true] /\
  value_of (process_url Sample.nothing_downloaded Sample.tenor Sample.start) =
  inr (failure Sample.tenor "No files downloaded by gallery-dl").
Proof. split; reflexivity. Qed.

(** C7, as the code has it. The fallback runs, and fetches the page,
    exactly when the promise of [gallery-dl] is rejected.  When
    [gallery-dl] exits with status zero and leaves no file in the
    workspace, nothing is fetched and the URL fails with the error that
    no files were downloaded. *)
Theorem fallback_iff_downloader_rejected env urlStr s :
  ((exists target agent o,
      In (Fetch target agent o) (events_of (process_url env urlStr s))) <->
   (exists dir d,
      In (RunDownloader dir urlStr d) (events_of (process_url env urlStr s)) /\
      dl_ok d = false)) /\
  (forall dir d,
     In (RunDownloader dir urlStr d) (events_of (process_url env urlStr s)) ->
     dl_ok d = true ->
     flat_map (findFiles_entry [dir]) (dl_files d) = [] ->
     (forall target agent o,
        ~ In (Fetch target agent o) (events_of (process_url env urlStr s))) /\
     value_of (process_url env urlStr s) =
     inr (failure urlStr no_files_message)).
Proof.
  destruct (url_stages env urlStr s) as [[Hev _] | (Hfresh & Hev & Hval & _)].
  { rewrite Hev. split.
    - split; [intros (t & a & o & []) | intros (d & dl & [] & _)].
    - intros dir d []. }
  set (s0 := with_result s (new_result urlStr)) in *.
  set (dir := workspace env s0) in *.
  set (s1 := in_workspace env s0) in *.
  rewrite Hev, Hval. clear Hev Hval.
  destruct (import_into_events_run env dir urlStr s1) as [rest [Hev Hrest]].
  rewrite Hev.
  set (d := gallery_dl env (calls s1) (str env [dir]) urlStr) in *.
  assert (Hdl : forall dir' d',
             In (RunDownloader dir' urlStr d')
                (Mkdir dir :: (RunDownloader dir urlStr d :: rest)
                   ++ [Rm dir (negb (rm_fails env
                                  (calls (state_of (import_into env dir urlStr s1)))))]) ->
             dir' = dir /\ d' = d).
  { intros dir' d' [H | [H | H]]; [discriminate H | split; congruence |].
    exfalso. apply in_app_or in H. destruct H as [H | [H | []]]; [|discriminate H].
    destruct (dl_ok d).
    - eapply listing_or_processing_not_download; eassumption.
    - destruct Hrest as (later & -> & _ & _ & Hkinds).
      apply in_app_or in H. destruct H as [H | H].
      + pose proof (fallback_events env dir urlStr (downloaded env dir urlStr s1))
          as Hfb.
        rewrite Forall_forall in Hfb. apply Hfb in H. exact H.
      + eapply listing_or_processing_not_download; eassumption. }
  split; [split|].
  - intros (t & a & o & [H | [H | H]]); try discriminate H.
    apply in_app_or in H. destruct H as [H | [H | []]]; [|discriminate H].
    exists dir, d. split; [right; left; reflexivity|].
    destruct (dl_ok d); [|reflexivity].
    exfalso. eapply listing_or_processing_not_fetch; eassumption.
  - intros (dir' & d' & Hin & Hfail).
    destruct (Hdl _ _ Hin) as [-> ->]. rewrite Hfail in Hrest.
    destruct Hrest as (later & -> & _).
    destruct (fallback_fetches_page env dir urlStr (downloaded env dir urlStr s1))
      as (o & more & ->).
    exists urlStr, page_agent, o. right. right. left. reflexivity.
  - intros dir' d' Hin Hok Hempty.
    destruct (Hdl _ _ Hin) as [-> ->]. rewrite Hok in Hrest. split.
    + intros t a o [H | [H | H]]; try discriminate H.
      apply in_app_or in H. destruct H as [H | [H | []]]; [|discriminate H].
      eapply listing_or_processing_not_fetch; eassumption.
    + pose proof (import_into_run env dir urlStr s1) as Hrun. cbn zeta in Hrun.
      pose proof (acquire_run env dir urlStr s1) as Hacq. cbn zeta in Hacq.
      fold d in Hacq. rewrite Hok in Hacq. rewrite Hacq in Hrun.
      cbn [value_of state_of fst snd] in Hrun.
      unfold dir, s1 in Hrun.
      rewrite (listing_after_download env urlStr s0 Hfresh) in Hrun.
      fold dir s1 d in Hrun. rewrite Hempty in Hrun. rewrite Hrun.
      reflexivity.
Qed.

Lemma fallback_iff_downloader_rejected_witness :
  ((exists target agent o,
      In (Fetch target agent o)
         (events_of (process_url Sample.heavy_fallback Sample.tenor Sample.start)))
   <->
   (exists dir d,
      In (RunDownloader dir Sample.tenor d)
         (events_of (process_url Sample.heavy_fallback Sample.tenor Sample.start))
      /\ dl_ok d = false)) /\
  ((forall target agent o,
      ~ In (Fetch target agent o)
           (events_of (process_url Sample.nothing_downloaded Sample.tenor
                         Sample.start))) /\
   value_of (process_url Sample.nothing_downloaded Sample.tenor Sample.start) =
   inr (failure Sample.tenor no_files_message)).
Proof.
  split.
  - apply (fallback_iff_downloader_rejected Sample.heavy_fallback Sample.tenor
             Sample.start).
  - apply (proj2 (fallback_iff_downloader_rejected Sample.nothing_downloaded
                    Sample.tenor Sample.start)
             Sample.workspace_name (mkDownload true [])).
    + vm_compute. auto.
    + reflexivity.
    + reflexivity.
Defined.

(** ** Files that a write leaves alone *)

Lemma find_name name entries e : Fs.find name entries = Some e -> node_name e = name.
Proof.
  induction entries as [|x entries IH]; cbn [Fs.find]; [discriminate|].
  destruct (String.eqb (node_name x) name) eqn:E; [|exact IH].
  intros H. inversion H; subst. apply String.eqb_eq. exact E.
Qed.

Lemma find_put_other name other data entries entries' :
  Fs.put name data entries = Some entries' ->
  other <> name ->
  Fs.find other entries' = Fs.find other entries.
Proof.
  revert entries'. induction entries as [|x entries IH]; intros entries' Hput Hne.
  - inversion Hput; subst entries'. cbn [Fs.find node_name].
    destruct (String.eqb_spec name other); [congruence | reflexivity].
  - cbn [Fs.put] in Hput.
    destruct (String.eqb_spec (node_name x) name) as [Hx | Hx].
    + destruct x as [n d | n ch]; [|discriminate Hput].
      inversion Hput; subst entries'. cbn [Fs.find node_name] in *.
      destruct (String.eqb_spec n other); [congruence|].
      destruct (String.eqb_spec name other); [congruence | reflexivity].
    + destruct (Fs.put name data entries) as [rest|]; [|discriminate Hput].
      inversion Hput; subst entries'. cbn [Fs.find].
      destruct (String.eqb (node_name x) other); [reflexivity | auto].
Qed.

Lemma find_put_same name data entries entries' :
  Fs.put name data entries = Some entries' ->
  forall n children, Fs.find name entries <> Some (Dir n children).
Proof.
  revert entries'. induction entries as [|x entries IH];
    intros entries' Hput n children; cbn [Fs.find]; [discriminate|].
  cbn [Fs.put] in Hput.
  destruct (String.eqb (node_name x) name).
  - destruct x; [discriminate | discriminate Hput].
  - destruct (Fs.put name data entries) as [rest|]; [|discriminate Hput].
    eapply IH. reflexivity.
Qed.

Lemma find_in_dir_other name other f entries entries' :
  Fs.in_dir name f entries = Some entries' ->
  other <> name ->
  Fs.find other entries' = Fs.find other entries.
Proof.
  revert entries'. induction entries as [|x entries IH]; intros entries' Hin Hne;
    [discriminate Hin|].
  cbn [Fs.in_dir] in Hin.
  destruct (String.eqb_spec (node_name x) name) as [Hx | Hx].
  - destruct x as [n d | n ch]; [discriminate Hin|].
    destruct (f ch) as [ch'|]; [|discriminate Hin].
    inversion Hin; subst entries'. cbn [Fs.find node_name] in *.
    destruct (String.eqb_spec n other); [congruence|].
    destruct (String.eqb_spec name other); [congruence | reflexivity].
  - destruct (Fs.in_dir name f entries) as [rest|]; [|discriminate Hin].
    inversion Hin; subst entries'. cbn [Fs.find].
    destruct (String.eqb (node_name x) other); [reflexivity | auto].
Qed.

Lemma find_in_dir_same name f entries entries' :
  Fs.in_dir name f entries = Some entries' ->
  exists n children children',
    Fs.find name entries = Some (Dir n children) /\
    f children = Some children' /\
    Fs.find name entries' = Some (Dir name children').
Proof.
  revert entries'. induction entries as [|x entries IH]; intros entries' Hin;
    [discriminate Hin|].
  cbn [Fs.in_dir] in Hin. cbn [Fs.find].
  destruct (String.eqb (node_name x) name) eqn:Hx.
  - destruct x as [n d | n ch]; [discriminate Hin|].
    destruct (f ch) as [ch'|] eqn:Hf; [|discriminate Hin].
    inversion Hin; subst. exists n, ch, ch'.
    cbn [Fs.find node_name]. rewrite String.eqb_refl. auto.
  - destruct (Fs.in_dir name f entries) as [rest|]; [|discriminate Hin].
    inversion Hin; subst. cbn [Fs.find]. rewrite Hx. eapply IH. reflexivity.
Qed.

(** A write at a path keeps every file at another path. *)
Lemma lookup_write_other q data : forall p entries entries' name file,
  Fs.write q data entries = Some entries' ->
  p <> q ->
  Fs.lookup p entries = Some (File name file) ->
  Fs.lookup p entries' = Some (File name file).
Proof.
  induction q as [|n q IH]; intros p entries entries' name file Hw Hne Hl;
    [discriminate Hw|].
  destruct p as [|m p]; [discriminate Hl|].
  cbn [Fs.write] in Hw. cbn [Fs.lookup] in Hl |- *.
  destruct q as [|n' q].
  - (* the write puts a file into this directory *)
    destruct (String.eqb_spec m n) as [-> | Hmn].
    + destruct p as [|m' p]; [congruence|].
      destruct (Fs.find n entries) as [[x d | x ch]|] eqn:Hf; try discriminate Hl.
      exfalso. eapply find_put_same; eassumption.
    + rewrite (find_put_other _ _ _ _ _ Hw Hmn). exact Hl.
  - (* the write goes below the directory [n] *)
    destruct (String.eqb_spec m n) as [-> | Hmn].
    + destruct (find_in_dir_same _ _ _ _ Hw) as (x & ch & ch' & Hf & Hch & Hf').
      rewrite Hf in Hl. rewrite Hf'.
      destruct p as [|m' p]; [discriminate Hl|].
      eapply IH; [exact Hch | congruence | exact Hl].
    + rewrite (find_in_dir_other _ _ _ _ _ Hw Hmn). exact Hl.
Qed.

Lemma lookup_last p : forall entries name file,
  Fs.lookup p entries = Some (File name file) ->
  p <> [] /\ last p EmptyString = name.
Proof.
  induction p as [|m p IH]; intros entries name file Hl; [discriminate Hl|].
  split; [discriminate|]. cbn [Fs.lookup] in Hl.
  destruct p as [|m' p].
  - apply find_name in Hl. cbn in Hl |- *. congruence.
  - destruct (Fs.find m entries) as [[x d | x ch]|]; try discriminate Hl.
    destruct (IH _ _ _ Hl) as [_ H]. exact H.
Qed.

(** ** The extension of a file name and its replacement *)

Lemma of_chars_chars s : Path.of_chars (Path.chars s) = s.
Proof. induction s; cbn; congruence. Qed.

Lemma chars_app a b : Path.chars (a ++ b) = Path.chars a ++ Path.chars b.
Proof. induction a; cbn; congruence. Qed.

Lemma of_chars_app a b :
  Path.of_chars (a ++ b) = (Path.of_chars a ++ Path.of_chars b)%string.
Proof. induction a; cbn; congruence. Qed.

Lemma path_str_snoc init : forall t name,
  path_str t (init ++ [name]) = (path_str t init ++ "/" ++ name)%string.
Proof.
  induction init as [|c init IH]; intros t name; cbn [path_str app].
  - reflexivity.
  - apply IH.
Qed.

Lemma until_slash_name l r :
  forallb (fun c => negb (Ascii.eqb c Path.slash)) l = true ->
  Path.until_slash (l ++ Path.slash :: r) = l.
Proof.
  induction l as [|c l IH]; cbn [forallb app Path.until_slash].
  - intros _. rewrite Ascii.eqb_refl. reflexivity.
  - intros H. apply andb_true_iff in H. destruct H as [Hc Hl].
    apply negb_true_iff in Hc. rewrite Hc, (IH Hl). reflexivity.
Qed.

Lemma forallb_rev {A} (f : A -> bool) l : forallb f (rev l) = forallb f l.
Proof.
  induction l as [|x l IH]; [reflexivity|].
  cbn [rev forallb]. rewrite forallb_app, IH. cbn. rewrite andb_true_r.
  apply andb_comm.
Qed.

(** The last portion of the string of a path is its last component. *)
Lemma last_portion_of_name a name :
  is_name name = true ->
  Path.last_portion_rev (a ++ "/" ++ name) = rev (Path.chars name).
Proof.
  intros H. apply andb_true_iff in H. destruct H as [Hne Hall].
  unfold Path.last_portion_rev. rewrite chars_app. cbn [String.append Path.chars].
  rewrite rev_app_distr. cbn [rev]. rewrite <- app_assoc. cbn [app].
  rewrite <- (forallb_rev _ (Path.chars name)) in Hall.
  destruct (rev (Path.chars name)) as [|c l] eqn:Hrev.
  - exfalso. apply (f_equal (@rev ascii)) in Hrev. rewrite rev_involutive in Hrev.
    destruct name; [discriminate Hne | discriminate Hrev].
  - pose proof Hall as Hc. cbn [forallb] in Hc. apply andb_true_iff in Hc.
    destruct Hc as [Hc _]. apply negb_true_iff in Hc.
    cbn [app Path.skip_slashes]. rewrite Hc.
    change (c :: l ++ "/"%char :: rev (Path.chars a))
      with ((c :: l) ++ Path.slash :: rev (Path.chars a)).
    apply until_slash_name. exact Hall.
Qed.

Lemma split_dot_spec l after before :
  Path.split_dot l = Some (after, before) -> l = after ++ Path.dot :: before.
Proof.
  revert after. induction l as [|c l IH]; intros after; cbn [Path.split_dot];
    [discriminate|].
  destruct (Ascii.eqb_spec c Path.dot) as [-> | _].
  - intros H. inversion H; subst. reflexivity.
  - destruct (Path.split_dot l) as [[a b]|]; [|discriminate].
    intros H. inversion H; subst. cbn [app]. f_equal. apply IH. reflexivity.
Qed.

(** A name whose extension lowers to [.gif] ends with a dot and three
    letters that lower to [g], [i] and [f]. *)
Lemma gif_name env init name :
  is_name name = true ->
  extension env (init ++ [name]) = ".gif" ->
  exists stem c1 c2 c3,
    name = (stem ++ String "." (String c1 (String c2 (String c3 EmptyString))))%string /\
    Js.lower_ascii c1 = "g"%char /\
    Js.lower_ascii c2 = "i"%char /\
    Js.lower_ascii c3 = "f"%char.
Proof.
  intros Hname. unfold extension, str. rewrite path_str_snoc.
  unfold Path.extname. rewrite (last_portion_of_name _ _ Hname).
  destruct (Path.split_dot (rev (Path.chars name))) as [[after before]|] eqn:Hs;
    [|discriminate].
  apply split_dot_spec in Hs.
  apply (f_equal (@rev ascii)) in Hs. rewrite rev_involutive in Hs.
  rewrite rev_app_distr in Hs. cbn [rev] in Hs. rewrite <- app_assoc in Hs.
  cbn [app] in Hs.
  assert (Hn : name = (Path.of_chars (rev before)
                         ++ String "." (Path.of_chars (rev after)))%string).
  { rewrite <- (of_chars_chars name), Hs, of_chars_app. reflexivity. }
  intros Hext.
  assert (Hlow : Js.toLowerCase (String "." (Path.of_chars (rev after))) = ".gif").
  { destruct before as [|b before]; [discriminate Hext|].
    destruct before; [|exact Hext].
    destruct after; [|exact Hext].
    destruct (Ascii.eqb b Path.dot); discriminate Hext. }
  clear Hext. exists (Path.of_chars (rev before)).
  destruct (Path.of_chars (rev after)) as [|c1 [|c2 [|c3 [|c4 rest]]]];
    try discriminate Hlow.
  exists c1, c2, c3. cbn [Js.toLowerCase] in Hlow. inversion Hlow.
  repeat split; trivial.
Qed.

Lemma matches_to_end_length pattern : forall subject,
  matches_to_end pattern subject = true ->
  String.length subject = String.length pattern.
Proof.
  induction pattern as [|p pattern IH]; intros [|c subject];
    cbn [matches_to_end String.length]; try discriminate; [reflexivity|].
  intros H. apply andb_true_iff in H. destruct H as [_ H].
  f_equal. apply IH. exact H.
Qed.

Lemma length_append a b :
  String.length (a ++ b) = (String.length a + String.length b)%nat.
Proof. induction a; cbn; congruence. Qed.

Lemma replace_ext_tail ext replacement tail :
  matches_to_end ext tail = true ->
  forall stem,
    replace_ext ext replacement (stem ++ tail) = (stem ++ replacement)%string.
Proof.
  intros Hm. induction stem as [|c stem IH]; cbn [String.append].
  - destruct tail; cbn [replace_ext]; rewrite Hm; reflexivity.
  - cbn [replace_ext].
    destruct (matches_to_end ext (String c (stem ++ tail))) eqn:E.
    + apply matches_to_end_length in E. apply matches_to_end_length in Hm.
      cbn [String.length] in E. rewrite length_append in E. lia.
    + rewrite IH. reflexivity.
Qed.

(** The path of the converted file is not the path of the file. *)
Lemma webp_path_differs env filePath name file entries :
  Fs.lookup filePath entries = Some (File name file) ->
  is_name name = true ->
  extension env filePath = ".gif" ->
  rename filePath (replace_ext ".gif" ".webp") <> filePath.
Proof.
  intros Hl Hname Hext. destruct (lookup_last _ _ _ _ Hl) as [Hne Hlast].
  rewrite (app_removelast_last EmptyString Hne) in Hext. rewrite Hlast in Hext.
  destruct (gif_name env _ _ Hname Hext)
    as (stem & c1 & c2 & c3 & Hn & H1 & H2 & H3).
  unfold rename, join. rewrite Hlast. intros Heq.
  rewrite (app_removelast_last EmptyString Hne) in Heq at 2.
  apply app_inj_tail in Heq. destruct Heq as [_ Heq]. rewrite Hlast in Heq.
  rewrite Hn in Heq. rewrite replace_ext_tail in Heq.
  - apply (f_equal String.length) in Heq. rewrite !length_append in Heq.
    cbn [String.length] in Heq. lia.
  - cbn [matches_to_end]. unfold pattern_char. rewrite H1, H2, H3. reflexivity.
Qed.

Lemma append_assoc (a b c : string) : ((a ++ b) ++ c = a ++ (b ++ c))%string.
Proof. induction a; cbn; congruence. Qed.

(** ** Conversions that fail *)

Lemma keeps_refl outputs s : keeps outputs s s.
Proof. split; [apply untouched_refl | auto]. Qed.

Lemma keeps_trans outputs s1 s2 s3 :
  keeps outputs s1 s2 -> keeps outputs s2 s3 -> keeps outputs s1 s3.
Proof.
  intros [U1 K1] [U2 K2]. split; [eapply untouched_trans; eassumption|].
  intros p name file Hp Hl. eapply K2; [exact Hp|]. eapply K1; eassumption.
Qed.

Lemma converted_keeps env cmd args output outputs s :
  In output outputs -> keeps outputs s (converted env cmd args output s).
Proof.
  intros Hout. split; [repeat split|].
  intros p name file Hp Hl. unfold converted. cbn [tmp called with_calls with_tmp].
  destruct (cv_output _) as [data|]; [|exact Hl].
  destruct (Fs.write output data (tmp s)) as [t|] eqn:Hw; [|exact Hl].
  eapply lookup_write_other; [exact Hw | | exact Hl].
  intros ->. contradiction.
Qed.

Lemma unclassified_is_skipped env filePath s :
  classified env filePath = false ->
  process_file env filePath s = (inr false, s, []).
Proof.
  unfold classified, process_file. fold (extension env filePath). cbn zeta.
  intros H. apply orb_false_iff in H. destruct H as [-> ->]. reflexivity.
Qed.

(** A strategy that fails, by a rejected run or by a missing output, ends
    in the handler of its [try], after the run of the program alone. *)
Lemma guarded_run_fails {A} env cmd args output (a : A)
  (handler : string -> M A) s :
  strategy_fails env cmd args output s ->
  exists message,
    try_catch (execFile env cmd args output ;; access env output ;; ret a)
              handler s =
    (value_of (handler message (converted env cmd args output s)),
     state_of (handler message (converted env cmd args output s)),
     RunConverter cmd args (converter env (calls s) cmd args)
       :: events_of (handler message (converted env cmd args output s))).
Proof.
  intros Hfail. unfold strategy_fails in Hfail.
  unfold try_catch, bind, execFile, access, converted in *.
  cbn [tmp called with_calls with_tmp] in *.
  destruct (cv_ok (converter env (calls s) cmd args)) eqn:Hok.
  - destruct Hfail as [Hfail | Hfail]; [discriminate Hfail|].
    rewrite Hfail.
    exists ("ENOENT: no such file or directory, access " ++ str env output)%string.
    match goal with
    | |- context [handler ?m ?t] => destruct (handler m t) as [[v s2] ev2]
    end.
    reflexivity.
  - exists ("Command failed: " ++ cmd)%string.
    match goal with
    | |- context [handler ?m ?t] => destruct (handler m t) as [[v s2] ev2]
    end.
    reflexivity.
Qed.

(** When every strategy fails the candidate stays the original file, and
    the programs of the table have run, in its order. *)
Lemma convert_all_fail env filePath ext (isMp4 : bool) original s :
  all_fail env (strategies env filePath ext isMp4) s ->
  convert env filePath ext isMp4 original s =
  (inr original, after_all env (strategies env filePath ext isMp4) s,
   runs env (strategies env filePath ext isMp4) s).
Proof.
  unfold convert, attempt, strategies.
  set (webpPath := rename filePath (replace_ext ext ".webp")).
  set (gifPath := rename filePath (replace_ext ext ".gif")).
  destruct isMp4; cbn [app all_fail after_all runs].
  - intros (F1 & F2 & F3 & F4 & _).
    unfold bind at 1.
    destruct (guarded_run_fails env _ _ _ true (fun _ => ret false) _ F1)
      as [m1 ->].
    cbn [ret value_of state_of events_of fst snd negb].
    unfold bind at 1.
    destruct (guarded_run_fails env _ _ _ true
                (fun _ =>
                   try_catch
                     (execFile env "convert"
                        (magick_args (str env filePath) (str env webpPath))
                        webpPath ;;
                      access env webpPath ;; ret true)
                     (fun _ => ret false)) _ F2) as [m2 ->].
    destruct (guarded_run_fails env _ _ _ true (fun _ => ret false) _ F3)
      as [m3 ->].
    cbn [ret value_of state_of events_of fst snd].
    destruct (guarded_run_fails env _ _ _
                (gifPath, ".gif", Some "image/gif")
                (fun _ => ret original) _ F4) as [m4 ->].
    reflexivity.
  - intros (F2 & F3 & _).
    unfold bind at 1. cbn [ret negb].
    unfold bind at 1.
    destruct (guarded_run_fails env _ _ _ true
                (fun _ =>
                   try_catch
                     (execFile env "convert"
                        (magick_args (str env filePath) (str env webpPath))
                        webpPath ;;
                      access env webpPath ;; ret true)
                     (fun _ => ret false)) _ F2) as [m2 ->].
    destruct (guarded_run_fails env _ _ _ true (fun _ => ret false) _ F3)
      as [m3 ->].
    reflexivity.
Qed.

Lemma runs_are_converter_events env l :
  forall s, Forall converter_event (runs env l s).
Proof.
  induction l as [|[[cmd args] output] l IH]; intros s; cbn [runs].
  - constructor.
  - constructor; [exact I | apply IH].
Qed.

Lemma after_all_keeps env outputs l :
  (forall strategy, In strategy l -> In (snd strategy) outputs) ->
  forall s, keeps outputs s (after_all env l s).
Proof.
  induction l as [|[[cmd args] output] l IH]; intros Hout s; cbn [after_all].
  - apply keeps_refl.
  - eapply keeps_trans.
    + apply converted_keeps. apply (Hout (cmd, args, output)). left. reflexivity.
    + apply IH. intros strategy Hin. apply Hout. right. exact Hin.
Qed.

Lemma after_all_untouched env l s : untouched s (after_all env l s).
Proof.
  apply (after_all_keeps env (map snd l) l).
  intros strategy Hin. apply in_map. exact Hin.
Qed.

(** A clip all of whose strategies fail is dropped: its turn ends with
    [continue] after the runs of the four programs. *)
Lemma clip_is_dropped env filePath s :
  extension env filePath = ".mp4" ->
  all_fail env (strategies env filePath ".mp4" true) s ->
  process_file env filePath s =
  (inr false, after_all env (strategies env filePath ".mp4" true) s,
   runs env (strategies env filePath ".mp4" true) s).
Proof.
  intros Hext Hfail. unfold process_file. fold (extension env filePath).
  cbn zeta. rewrite Hext.
  change (negb (allowed_extension ".mp4") && negb (String.eqb ".mp4" ".mp4"))
    with false.
  change (String.eqb ".mp4" ".gif" || String.eqb ".mp4" ".mp4") with true.
  change (String.eqb ".mp4" ".mp4") with true.
  cbn iota. unfold bind.
  rewrite (convert_all_fail env filePath ".mp4" true _ s Hfail).
  rewrite persist_mp4 by reflexivity.
  rewrite app_nil_r. reflexivity.
Qed.

(** A gif both of whose strategies fail is still there, as it was, once
    they have run. *)
Lemma gif_survives_failed_conversions env filePath s name data :
  extension env filePath = ".gif" ->
  Fs.lookup filePath (tmp s) = Some (File name data) ->
  is_name name = true ->
  Fs.lookup filePath
    (tmp (after_all env (strategies env filePath ".gif" false) s))
  = Some (File name data).
Proof.
  intros Hext Hl Hname.
  pose proof (webp_path_differs env _ _ _ _ Hl Hname Hext) as Hwebp.
  destruct (after_all_keeps env
              [rename filePath (replace_ext ".gif" ".webp")]
              (strategies env filePath ".gif" false)) with (s := s)
    as [_ Hkeep].
  - intros strategy [<- | [<- | []]]; left; reflexivity.
  - apply Hkeep; [|exact Hl]. intros [H | []]. contradiction.
Qed.

(** A gif both of whose strategies fail is stored as it is. *)
Lemma gif_is_kept env filePath s name data :
  extension env filePath = ".gif" ->
  all_fail env (strategies env filePath ".gif" false) s ->
  Fs.lookup filePath (tmp s) = Some (File name data) ->
  is_name name = true ->
  byteLength data <= MAX_DOWNLOAD_SIZE ->
  let s1 := after_all env (strategies env filePath ".gif" false) s in
  let g := row env s1 filePath ".gif" (Some "image/gif") (byteLength data) in
  process_file env filePath s =
  (inr true, after_storing s1 (g_filename g) data g,
   runs env (strategies env filePath ".gif" false) s
     ++ [Stat filePath (byteLength data); CopyFile filePath (g_filename g);
         AddGif g]).
Proof.
  intros Hext Hfail Hl Hname Hsize s1 g.
  pose proof (gif_survives_failed_conversions env filePath s name data
                Hext Hl Hname) as Hl1.
  fold s1 in Hl1.
  unfold process_file. fold (extension env filePath). cbn zeta.
  rewrite Hext.
  change (negb (allowed_extension ".gif") && negb (String.eqb ".gif" ".mp4"))
    with false.
  change (String.eqb ".gif" ".gif" || String.eqb ".gif" ".mp4") with true.
  change (String.eqb ".gif" ".mp4") with false.
  change (mime_of ".gif" EXTENSION_MIME_MAP) with (Some "image/gif").
  cbn iota. unfold bind.
  rewrite (convert_all_fail env filePath ".gif" false _ s Hfail).
  fold s1.
  rewrite (persist_stores env filePath filePath ".gif" (Some "image/gif") s1
             eq_refl name data Hl1 Hsize).
  reflexivity.
Qed.



(** The loop over clips that all fail, and over unclassified files,
    tries every one of them and stores nothing. *)
Lemma failing_clips_are_all_tried env files : forall s,
  only_failing_clips env files s ->
  exists s' evs,
    process_files env files false s = (inr false, s', evs) /\
    untouched s s' /\ Forall converter_event evs.
Proof.
  induction files as [|f files IH]; intros s Hall.
  - exists s, []. split; [reflexivity|]. split; [apply untouched_refl|constructor].
  - cbn [only_failing_clips] in Hall. cbn [process_files]. unfold bind.
    destruct (classified env f) eqn:Hc.
    + destruct Hall as (Hext & Hfail & Hrest).
      rewrite (clip_is_dropped env f s Hext Hfail).
      destruct (IH _ Hrest) as (s2 & ev2 & -> & Hu2 & Hev2).
      do 2 eexists. split; [reflexivity|]. split.
      * eapply untouched_trans; [apply after_all_untouched | exact Hu2].
      * apply Forall_app. split; [apply runs_are_converter_events | exact Hev2].
    + rewrite (unclassified_is_skipped env f s Hc).
      destruct (IH _ Hall) as (s2 & ev2 & -> & Hu2 & Hev2).
      exists s2, ev2. auto.
Qed.

Lemma acquire_not_listing env dir urlStr s d files :
  ~ In (Listing d files) (events_of (acquire env dir urlStr s)).
Proof.
  intros Hin. destruct (quiet_acquire env dir urlStr s) as [H _].
  rewrite Forall_forall in H. apply H in Hin. exact Hin.
Qed.

(** A URL whose listed files are clips that all fail, or unclassified,
    fails, and no asset is stored for it. *)
Lemma failing_clips_fail_the_url env urlStr s dir files :
  In (Listing dir files) (events_of (process_url env urlStr s)) ->
  only_failing_clips env files
    (state_of
       (acquire env (workspace env (with_result s (new_result urlStr)))
          urlStr (in_workspace env (with_result s (new_result urlStr))))) ->
  value_of (process_url env urlStr s) =
    inr (failure urlStr
           match files with
           | [] => no_files_message
           | _ :: _ => none_valid_message
           end) /\
  gifs (state_of (process_url env urlStr s)) = gifs s /\
  uploads (state_of (process_url env urlStr s)) = uploads s.
Proof.
  intros Hin Hall.
  destruct (url_stages env urlStr s) as [[Hev _] | (_ & Hev & Hval & G & U)].
  { rewrite Hev in Hin. contradiction. }
  set (s0 := with_result s (new_result urlStr)) in *.
  set (ws := workspace env s0) in *.
  set (s1 := in_workspace env s0) in *.
  rewrite Hev in Hin. rewrite Hval, G, U. clear Hev Hval G U.
  destruct Hin as [Hin | Hin]; [discriminate Hin|].
  apply in_app_or in Hin. destruct Hin as [Hin | [Hin | []]]; [|discriminate Hin].
  pose proof (import_into_run env ws urlStr s1) as Hrun. cbn zeta in Hrun.
  pose proof (quiet_untouched acquire_event _ s1 (quiet_acquire env ws urlStr))
    as (Ga & Ua & Ra).
  pose proof (acquire_not_listing env ws urlStr s1 dir files) as Hacq.
  destruct (value_of (acquire env ws urlStr s1)) as [m | []].
  { rewrite Hrun in Hin. contradiction. }
  destruct (listing ws (tmp (state_of (acquire env ws urlStr s1))))
    as [[|f fs]|].
  - rewrite Hrun in Hin |- *.
    cbn [events_of value_of state_of fst snd] in Hin |- *.
    apply in_app_or in Hin. destruct Hin as [Hin | [Hin | []]];
      [contradiction|].
    inversion Hin; subst. rewrite Ga, Ua, Ra. repeat split.
  - rewrite Hrun in Hin |- *. cbn [events_of value_of state_of fst snd] in Hin |- *.
    apply in_app_or in Hin. destruct Hin as [Hin | [Hin | Hin]];
      [contradiction | |].
    + inversion Hin; subst.
      destruct (failing_clips_are_all_tried env _ _ Hall)
        as (s2 & ev2 & Hloop & (G2 & U2 & R2) & _).
      rewrite Hloop. cbn [value_of state_of fst snd loop_value].
      rewrite G2, U2, R2, Ga, Ua, Ra. repeat split.
    + exfalso.
      destruct (process_files_outcome env (f :: fs)
                  (state_of (acquire env ws urlStr s1))) as [Hp _].
      rewrite Forall_forall in Hp. apply Hp in Hin. exact Hin.
  - destruct Hrun as [m Hrun]. rewrite Hrun in Hin. contradiction.
Qed.

(** Runs that are all rejected are failing strategies, in whatever
    state; so are runs that exit with status zero and leave nothing,
    where nothing is at the paths of the outputs. *)
Lemma rejected_runs_all_fail env :
  converters_fail env -> forall l s, all_fail env l s.
Proof.
  intros Hfail l. induction l as [|[[cmd args] output] l IH]; intros s;
    cbn [all_fail]; [exact I|].
  split; [left; apply Hfail | apply IH].
Qed.

Lemma rejected_clips_fail env files :
  converters_fail env ->
  (forall f, In f files -> classified env f = true -> extension env f = ".mp4") ->
  forall s, only_failing_clips env files s.
Proof.
  intros Hfail. induction files as [|f files IH]; intros Hall s;
    cbn [only_failing_clips]; [exact I|].
  destruct (classified env f) eqn:Hc.
  - split; [apply Hall; [left; reflexivity | exact Hc]|].
    split; [apply rejected_runs_all_fail; exact Hfail|].
    apply IH. intros g Hg. apply Hall. right. exact Hg.
  - apply IH. intros g Hg. apply Hall. right. exact Hg.
Qed.

Lemma silent_runs_all_fail env l :
  converters_write_nothing env ->
  forall s,
    Forall (fun strategy : Strategy => Fs.lookup (snd strategy) (tmp s) = None) l ->
    all_fail env l s.
Proof.
  intros Hnothing. induction l as [|[[cmd args] output] l IH]; intros s Habsent;
    cbn [all_fail]; [exact I|].
  inversion Habsent as [|? ? Hout Hrest]; subst. cbn [snd] in Hout.
  assert (Htmp : tmp (converted env cmd args output s) = tmp s).
  { unfold converted. rewrite Hnothing. reflexivity. }
  split.
  - right. rewrite Htmp. exact Hout.
  - apply IH. rewrite Htmp. exact Hrest.
Qed.

(** ** The loop goes on after a file that is not stored *)



(** ** A failed conversion drops a clip and keeps a gif *)

(** C5. A strategy of the converter fails when its program is rejected,
    and also when the program exits with status zero and nothing is at
    the path of its output once it has run.  When every strategy fails,
    in either way:
    - a file whose extension is [.mp4] is dropped: its turn ends with
      [continue], after the runs of its four programs and nothing else,
      and touches neither the rows, nor the uploads, nor the result;
    - a URL whose listing holds no classified file but such clips fails,
      with the message of the empty listing or of the listing without a
      valid file, and no asset is stored for it;
    - a file whose extension is [.gif], of at most 15 MiB, is stored as
      it is: its bytes are copied under a name that ends with [.gif], and
      the row has the mime type [image/gif] and the size of the file.
    Every strategy fails when every run is rejected, and when no run
    leaves an output and nothing is at the paths of the outputs. *)
Theorem failed_conversion_drops_mp4_keeps_gif env filePath s :
  (extension env filePath = ".mp4" ->
   all_fail env (strategies env filePath ".mp4" true) s ->
   exists s' evs,
     process_file env filePath s = (inr false, s', evs) /\
     evs = runs env (strategies env filePath ".mp4" true) s /\
     Forall converter_event evs /\
     gifs s' = gifs s /\ uploads s' = uploads s /\ result s' = result s) /\
  (forall urlStr dir files,
     In (Listing dir files) (events_of (process_url env urlStr s)) ->
     only_failing_clips env files
       (state_of
          (acquire env (workspace env (with_result s (new_result urlStr)))
             urlStr (in_workspace env (with_result s (new_result urlStr))))) ->
     value_of (process_url env urlStr s) =
       inr (failure urlStr
              match files with
              | [] => "No files downloaded by gallery-dl"
              | _ :: _ =>
                  "Downloaded files were not valid GIFs/WebPs or were too large."
              end) /\
     gifs (state_of (process_url env urlStr s)) = gifs s /\
     uploads (state_of (process_url env urlStr s)) = uploads s) /\
  (extension env filePath = ".gif" ->
   all_fail env (strategies env filePath ".gif" false) s ->
   forall name data,
     Fs.lookup filePath (tmp s) = Some (File name data) ->
     is_name name = true ->
     byteLength data <= 15728640 ->
     exists s' evs g,
       process_file env filePath s = (inr true, s', evs) /\
       gifs s' = gifs s ++ [g] /\
       uploads s' = uploads s ++ [(g_filename g, data)] /\
       g_mimeType g = Some "image/gif" /\
       Js.endsWith (g_filename g) ".gif" = true /\
       g_originalName g = Path.basename (str env filePath) /\
       g_sizeBytes g = byteLength data /\
       In (CopyFile filePath (g_filename g)) evs) /\
  (converters_fail env ->
   (forall l s', all_fail env l s') /\
   (forall files s',
      (forall f, In f files -> classified env f = true ->
                 extension env f = ".mp4") ->
      only_failing_clips env files s')) /\
  (converters_write_nothing env ->
   forall l s',
     Forall (fun strategy : Strategy =>
               Fs.lookup (snd strategy) (tmp s') = None) l ->
     all_fail env l s').
Proof.
  split; [|split; [|split; [|split]]].
  - intros Hext Hfail.
    rewrite (clip_is_dropped env filePath s Hext Hfail).
    destruct (after_all_untouched env (strategies env filePath ".mp4" true) s)
      as (G & U & R).
    do 2 eexists. split; [reflexivity|]. split; [reflexivity|].
    split; [apply runs_are_converter_events|]. auto.
  - intros urlStr dir files Hin Hall.
    apply (failing_clips_fail_the_url env urlStr s dir files Hin Hall).
  - intros Hext Hfail name data Hl Hname Hsize.
    pose proof (gif_is_kept env filePath s name data Hext Hfail Hl Hname Hsize)
      as Hrun.
    cbn zeta in Hrun. rewrite Hrun.
    destruct (after_all_untouched env (strategies env filePath ".gif" false) s)
      as (G & U & R).
    do 3 eexists. split; [reflexivity|].
    cbn [after_storing gifs uploads row g_filename g_mimeType g_originalName
         g_sizeBytes].
    rewrite G, U. repeat split.
    + unfold unique_name. apply endsWith_spec.
      exists (Js.string_of_Z
                (date_now env
                   (calls (after_all env (strategies env filePath ".gif" false)
                             s))) ++ "-"
                ++ nanoid env
                     (S (calls (after_all env
                                  (strategies env filePath ".gif" false) s)))
                     6)%string.
      rewrite !append_assoc. reflexivity.
    + apply in_or_app. right. right. left. reflexivity.
  - intros Hfail. split.
    + apply rejected_runs_all_fail. exact Hfail.
    + intros files s' Hall. apply rejected_clips_fail; assumption.
  - intros Hnothing l s'. apply silent_runs_all_fail. exact Hnothing.
Qed.

Lemma failed_conversion_drops_mp4_keeps_gif_witness :
  (exists s' evs,
     process_file Cases.silent_clip Sample.clip_path Sample.workshop =
     (inr false, s', evs) /\
     evs = runs Cases.silent_clip
             (strategies Cases.silent_clip Sample.clip_path ".mp4" true)
             Sample.workshop /\
     Forall converter_event evs /\
     gifs s' = gifs Sample.workshop /\ uploads s' = uploads Sample.workshop /\
     result s' = result Sample.workshop) /\
  (value_of (process_url Cases.silent_clip Sample.tenor Sample.start) =
     inr (failure Sample.tenor
            "Downloaded files were not valid GIFs/WebPs or were too large.") /\
   gifs (state_of (process_url Cases.silent_clip Sample.tenor Sample.start)) =
   gifs Sample.start /\
   uploads (state_of (process_url Cases.silent_clip Sample.tenor Sample.start)) =
   uploads Sample.start) /\
  (exists s' evs g,
     process_file Cases.silent_gif Sample.gif_path Sample.workshop =
     (inr true, s', evs) /\
     gifs s' = gifs Sample.workshop ++ [g] /\
     uploads s' = uploads Sample.workshop ++ [(g_filename g, Sample.animation)] /\
     g_mimeType g = Some "image/gif" /\
     Js.endsWith (g_filename g) ".gif" = true /\
     g_originalName g = Path.basename (str Cases.silent_gif Sample.gif_path) /\
     g_sizeBytes g = byteLength Sample.animation /\
     In (CopyFile Sample.gif_path (g_filename g)) evs) /\
  all_fail Sample.one_gif
    (strategies Sample.one_gif Sample.gif_path ".gif" false) Sample.workshop /\
  all_fail Cases.silent_gif
    (strategies Cases.silent_gif Sample.gif_path ".gif" false) Sample.workshop.
Proof.
  split; [|split; [|split; [|split]]].
  - apply (proj1 (failed_conversion_drops_mp4_keeps_gif Cases.silent_clip
                    Sample.clip_path Sample.workshop));
      [reflexivity | vm_compute; intuition].
  - apply (proj1 (proj2 (failed_conversion_drops_mp4_keeps_gif Cases.silent_clip
                           Sample.clip_path Sample.start))
             Sample.tenor Sample.workspace_name
             [[Sample.workspace_name; "a.mp4"]]).
    + vm_compute. auto.
    + vm_compute. intuition.
  - assert (Hfail : all_fail Cases.silent_gif
                      (strategies Cases.silent_gif Sample.gif_path ".gif" false)
                      Sample.workshop)
      by (vm_compute; intuition).
    apply (proj1 (proj2 (proj2
             (failed_conversion_drops_mp4_keeps_gif Cases.silent_gif
                Sample.gif_path Sample.workshop)))
             eq_refl Hfail "c.gif" Sample.animation);
      [reflexivity | reflexivity | discriminate].
  - apply (proj1 (proj2 (proj2 (proj2
             (failed_conversion_drops_mp4_keeps_gif Sample.one_gif
                Sample.gif_path Sample.workshop))))).
    intros n cmd args. reflexivity.
  - apply (proj2 (proj2 (proj2 (proj2
             (failed_conversion_drops_mp4_keeps_gif Cases.silent_gif
                Sample.gif_path Sample.workshop))))).
    + intros n cmd args. reflexivity.
    + repeat constructor.
Defined.

(* ================================================================== *)
(** * Properties of the login throttle *)
(* ================================================================== *)

Section LoginThrottle.

Local Open Scope Z_scope.

Import Login.

Lemma ip_eqb_spec (a b : Ip) : reflect (a = b) (ip_eqb a b).
Proof.
  destruct a as [x|], b as [y|]; cbn; try (constructor; congruence).
  destruct (String.eqb_spec x y); constructor; congruence.
Qed.

Lemma ip_eqb_refl (a : Ip) : ip_eqb a a = true.
Proof. destruct (ip_eqb_spec a a); congruence. Qed.

Lemma ceil_seconds_positive ms : 0 < ms -> 1 <= ceil_seconds ms.
Proof.
  intros H. unfold ceil_seconds.
  assert ((- ms) / 1000 < 0) by (apply Z.div_lt_upper_bound; lia).
  lia.
Qed.

Variable cfg : Settings.
Variable sign : string -> string.

(** X1. A client that a failed login has just locked out is answered 429
    until the lockout is over, whatever it sends, the right credentials
    included; the map of attempts is left as it is, and the seconds that
    [checkLoginRateLimit] reports are at least one. *)
Theorem locked_out_client_is_refused ip now m m1 :
  0 <= now ->
  0 < LOCKOUT_DURATION_MS cfg ->
  recordFailedLogin cfg ip now m = (true, m1) ->
  forall t, t < now + LOCKOUT_DURATION_MS cfg ->
    (exists seconds,
       checkLoginRateLimit ip t m1 = (NotAllowed seconds, m1) /\ 1 <= seconds) /\
    forall later body,
      login cfg sign ip t later body m1 =
      (mkAnswer 429 (Some "Blocked") None, m1).
Proof.
  intros Hnow Hlock Hrec t Ht.
  unfold recordFailedLogin in Hrec.
  destruct (_ >=? MAX_LOGIN_ATTEMPTS cfg); [|discriminate Hrec].
  inversion Hrec as [Hm1]. clear Hrec.
  match type of Hm1 with
  | set ip ?r m = m1 => remember r as record eqn:Hrecord
  end.
  assert (Hget : m1 ip = Some record).
  { rewrite <- Hm1. unfold set. rewrite ip_eqb_refl. reflexivity. }
  assert (Hcheck : checkLoginRateLimit ip t m1 =
                   (NotAllowed (ceil_seconds (now + LOCKOUT_DURATION_MS cfg - t)),
                    m1)).
  { unfold checkLoginRateLimit. rewrite Hget, Hrecord. cbn [lockoutUntil locked].
    replace (now + LOCKOUT_DURATION_MS cfg =? 0) with false
      by (symmetry; apply Z.eqb_neq; lia).
    replace (now + LOCKOUT_DURATION_MS cfg >? t) with true
      by (symmetry; apply Z.gtb_lt; lia).
    reflexivity. }
  rewrite Hm1. split.
  - eexists. split; [exact Hcheck|]. apply ceil_seconds_positive. lia.
  - intros later body. unfold login. rewrite Hcheck. reflexivity.
Qed.

Lemma failures_below_threshold ip times : forall m,
  lockoutUntil (current m ip) = None ->
  attempts (current m ip) + Z.of_nat (List.length times) < MAX_LOGIN_ATTEMPTS cfg ->
  fst (failures cfg ip times m) = repeat false (List.length times) /\
  current (snd (failures cfg ip times m)) ip =
  mkAttempts (attempts (current m ip) + Z.of_nat (List.length times)) None.
Proof.
  induction times as [|now times IH]; intros m Hfree Hbelow.
  - cbn [failures fst snd List.length repeat Z.of_nat]. rewrite Z.add_0_r.
    split; [reflexivity|].
    destruct (current m ip) as [a l]. cbn [attempts lockoutUntil] in *.
    subst l. reflexivity.
  - cbn [failures]. unfold recordFailedLogin. fold (current m ip).
    rewrite Hfree. cbn [expired lockoutUntil].
    cbn [List.length] in Hbelow. rewrite Nat2Z.inj_succ in Hbelow.
    replace (attempts (current m ip) + 1 >=? MAX_LOGIN_ATTEMPTS cfg) with false
      by (symmetry; rewrite Z.geb_leb; apply Z.leb_gt; lia).
    rewrite ?Hfree.
    set (m1 := set ip (mkAttempts (attempts (current m ip) + 1) None) m).
    assert (Hcur : current m1 ip = mkAttempts (attempts (current m ip) + 1) None).
    { unfold current, m1, set. rewrite ip_eqb_refl. reflexivity. }
    destruct (IH m1) as [Hb Hc].
    { rewrite Hcur. reflexivity. }
    { rewrite Hcur. cbn [attempts]. lia. }
    destruct (failures cfg ip times m1) as [others m2]. cbn [fst snd] in *.
    split.
    + cbn [List.length repeat]. congruence.
    + rewrite Hc, Hcur. cbn [attempts List.length]. f_equal. lia.
Qed.

(** X2. Failed logins are counted without regard to the time between
    them.  For a client without a record, the failures before the
    [MAX_LOGIN_ATTEMPTS]-th are not blocked, whenever they happen, and the
    [MAX_LOGIN_ATTEMPTS]-th is: it locks the client out for
    [LOCKOUT_DURATION_MS] from its own time. *)
Theorem threshold_failure_blocks ip times last m :
  m ip = None ->
  Z.of_nat (List.length times) + 1 = MAX_LOGIN_ATTEMPTS cfg ->
  fst (failures cfg ip (times ++ [last]) m) =
  repeat false (List.length times) ++ [true] /\
  snd (failures cfg ip (times ++ [last]) m) ip =
  Some (mkAttempts (MAX_LOGIN_ATTEMPTS cfg)
                   (Some (last + LOCKOUT_DURATION_MS cfg))).
Proof.
  intros Hnone Hmax.
  assert (Happ : forall l1 l2 m0,
             failures cfg ip (l1 ++ l2) m0 =
             (fst (failures cfg ip l1 m0)
                ++ fst (failures cfg ip l2 (snd (failures cfg ip l1 m0))),
              snd (failures cfg ip l2 (snd (failures cfg ip l1 m0))))).
  { induction l1 as [|x l1 IH]; intros l2 m0; cbn [failures app].
    - cbn [fst snd app]. destruct (failures cfg ip l2 m0). reflexivity.
    - destruct (recordFailedLogin cfg ip x m0) as [b m1]. rewrite IH.
      destruct (failures cfg ip l1 m1) as [bs m2]. cbn [fst snd app].
      destruct (failures cfg ip l2 m2). reflexivity. }
  rewrite Happ. cbn [fst snd].
  assert (Hfresh : current m ip = mkAttempts 0 None).
  { unfold current. rewrite Hnone. reflexivity. }
  destruct (failures_below_threshold ip times m) as [Hb Hc].
  { rewrite Hfresh. reflexivity. }
  { rewrite Hfresh. cbn [attempts]. lia. }
  rewrite Hfresh in Hc. cbn [attempts] in Hc.
  rewrite Hb. set (m1 := snd (failures cfg ip times m)) in *.
  cbn [failures]. unfold recordFailedLogin. fold (current m1 ip). rewrite Hc.
  cbn [expired lockoutUntil attempts].
  replace (0 + Z.of_nat (List.length times) + 1 >=? MAX_LOGIN_ATTEMPTS cfg)
    with true by (symmetry; rewrite Z.geb_leb; apply Z.leb_le; lia).
  cbn [fst snd]. split; [reflexivity|].
  unfold set. rewrite ip_eqb_refl. do 2 f_equal. lia.
Qed.

(** X3. Once the lockout is over the client starts afresh: the check
    lets it in and forgets its record, and a failed login at that time
    counts as its first one. *)
Theorem expired_lockout_starts_afresh ip count until now m :
  m ip = Some (mkAttempts count (Some until)) ->
  until <> 0 ->
  until <= now ->
  checkLoginRateLimit ip now m = (Allowed, delete ip m) /\
  delete ip m ip = None /\
  forall later, until <= later ->
    snd (recordFailedLogin cfg ip later m) ip =
    Some (mkAttempts 1 (if 1 >=? MAX_LOGIN_ATTEMPTS cfg
                        then Some (later + LOCKOUT_DURATION_MS cfg)
                        else None)).
Proof.
  intros Hrec Hne Hle.
  assert (Hexp : forall t, until <= t -> expired (Some until) t = true).
  { intros t Ht. cbn. apply andb_true_iff. split.
    - apply negb_true_iff, Z.eqb_neq. exact Hne.
    - apply Z.leb_le. exact Ht. }
  split; [|split].
  - unfold checkLoginRateLimit. rewrite Hrec. cbn [lockoutUntil].
    replace (locked (Some until) now) with false.
    + rewrite (Hexp now Hle). reflexivity.
    + symmetry. cbn. apply andb_false_iff. right.
      rewrite Z.gtb_ltb. apply Z.ltb_ge. exact Hle.
  - unfold delete. rewrite ip_eqb_refl. reflexivity.
  - intros later Hlater. unfold recordFailedLogin. rewrite Hrec.
    cbn [lockoutUntil]. rewrite (Hexp later Hlater).
    cbn [attempts lockoutUntil]. change (0 + 1) with 1.
    destruct (1 >=? MAX_LOGIN_ATTEMPTS cfg); cbn [snd]; unfold set;
      rewrite ip_eqb_refl; reflexivity.
Qed.

(** X4. A login touches the record of its own client only: the record
    of every other client is as before, however the login ends. *)
Theorem login_leaves_other_clients_alone ip other now later body m :
  other <> ip ->
  snd (login cfg sign ip now later body m) other = m other.
Proof.
  intros Hne.
  assert (Hkey : ip_eqb ip other = false).
  { destruct (ip_eqb_spec ip other); congruence. }
  assert (Hcheck : snd (checkLoginRateLimit ip now m) other = m other).
  { unfold checkLoginRateLimit. destruct (m ip) as [record|]; [|reflexivity].
    destruct (locked _ now); [reflexivity|].
    destruct (expired _ now); [|reflexivity].
    cbn [snd]. unfold delete. rewrite Hkey. reflexivity. }
  unfold login. destruct (checkLoginRateLimit ip now m) as [[|seconds] m1].
  2:{ exact Hcheck. }
  cbn [snd] in Hcheck.
  destruct (negb (truthy _) || negb (truthy _)); [exact Hcheck|].
  destruct (negb (credentialsAreValid cfg _ _)).
  - unfold recordFailedLogin.
    destruct (_ >=? MAX_LOGIN_ATTEMPTS cfg); cbn [snd]; unfold set;
      rewrite Hkey; exact Hcheck.
  - cbn [snd]. unfold recordSuccessfulLogin, delete. rewrite Hkey. exact Hcheck.
Qed.

(** X5. A client that is not locked out and sends the right credentials
    is answered 200 with the token for the administrator as its cookie,
    and its record is forgotten, so that its earlier failures no longer
    count. *)
Theorem right_credentials_clear_the_record ip now later m :
  ADMIN_USERNAME cfg <> EmptyString ->
  ADMIN_PASSWORD cfg <> EmptyString ->
  locked (lockoutUntil (current m ip)) now = false ->
  fst (login cfg sign ip now later
         (credentials (ADMIN_USERNAME cfg) (ADMIN_PASSWORD cfg)) m) =
  mkAnswer 200 None (Some (sign (ADMIN_USERNAME cfg))) /\
  snd (login cfg sign ip now later
         (credentials (ADMIN_USERNAME cfg) (ADMIN_PASSWORD cfg)) m) ip = None.
Proof.
  intros Hu Hp Hfree. unfold login.
  assert (Hcheck : exists m1, checkLoginRateLimit ip now m = (Allowed, m1)).
  { unfold checkLoginRateLimit. unfold current in Hfree.
    destruct (m ip) as [record|]; [|eauto].
    rewrite Hfree. destruct (expired _ now); eauto. }
  destruct Hcheck as [m1 ->].
  cbn [truthy credentials Js.property Js.get_field].
  change (String.eqb "username" "username") with true.
  change (String.eqb "username" "password") with false.
  change (String.eqb "password" "password") with true.
  cbn iota. cbn [truthy].
  apply String.eqb_neq in Hu, Hp. rewrite Hu, Hp. cbn [negb orb].
  unfold credentialsAreValid, is_string. rewrite !String.eqb_refl.
  cbn [andb negb fst snd]. split; [reflexivity|].
  unfold recordSuccessfulLogin, delete. rewrite ip_eqb_refl. reflexivity.
Qed.

(** X6. A login without a user name or without a password is answered
    400 and is not counted as a failed attempt: the map of attempts is the
    one the check left. *)
Theorem incomplete_login_is_not_counted ip now later body m :
  fst (checkLoginRateLimit ip now m) = Allowed ->
  truthy (Js.property "username" (if truthy body then body else Js.Obj [])) = false
  \/ truthy (Js.property "password" (if truthy body then body else Js.Obj [])) = false ->
  login cfg sign ip now later body m =
  (mkAnswer 400 (Some "Username and password are required.") None,
   snd (checkLoginRateLimit ip now m)).
Proof.
  intros Hallowed Hmissing. unfold login.
  destruct (checkLoginRateLimit ip now m) as [[|seconds] m1];
    [|discriminate Hallowed].
  cbn [snd].
  destruct Hmissing as [-> | ->]; cbn [negb orb]; [reflexivity|].
  rewrite orb_true_r. reflexivity.
Qed.

(** X7. A client that is not locked out and sends wrong credentials has
    the attempt counted; it is answered 401 while the count stays below
    [MAX_LOGIN_ATTEMPTS], and 429 with the attempt that reaches it. *)
Theorem wrong_credentials_are_counted ip now later username password m :
  fst (checkLoginRateLimit ip now m) = Allowed ->
  username <> EmptyString ->
  password <> EmptyString ->
  (username <> ADMIN_USERNAME cfg \/ password <> ADMIN_PASSWORD cfg) ->
  login cfg sign ip now later (credentials username password) m =
  (mkAnswer (if fst (recordFailedLogin cfg ip later
                       (snd (checkLoginRateLimit ip now m)))
             then 429 else 401)
            (Some (if fst (recordFailedLogin cfg ip later
                             (snd (checkLoginRateLimit ip now m)))
                   then "Blocked" else "Invalid credentials."))
            None,
   snd (recordFailedLogin cfg ip later (snd (checkLoginRateLimit ip now m)))).
Proof.
  intros Hallowed Hu Hp Hwrong. unfold login.
  destruct (checkLoginRateLimit ip now m) as [[|seconds] m1];
    [|discriminate Hallowed].
  cbn [snd truthy credentials Js.property Js.get_field].
  change (String.eqb "username" "username") with true.
  change (String.eqb "username" "password") with false.
  change (String.eqb "password" "password") with true.
  cbn iota. cbn [truthy].
  apply String.eqb_neq in Hu, Hp. rewrite Hu, Hp. cbn [negb orb].
  assert (Hinvalid : credentialsAreValid cfg (Js.Str username) (Js.Str password)
                     = false).
  { unfold credentialsAreValid, is_string. apply andb_false_iff.
    destruct Hwrong as [H | H]; [left | right]; apply String.eqb_neq; exact H. }
  rewrite Hinvalid. cbn [negb].
  destruct (recordFailedLogin cfg ip later m1) as [[|] m2]; reflexivity.
Qed.

End LoginThrottle.

(** ** The throttle on a client of the default configuration *)

Lemma locked_out_client_is_refused_witness :
  (exists seconds,
     Login.checkLoginRateLimit Cases.client 2000 Cases.locked_out
     = (Login.NotAllowed seconds, Cases.locked_out) /\ (1 <= seconds)%Z) /\
  Login.login Cases.config Cases.sign Cases.client 2000 2001
    (Login.credentials "admin" "change-me") Cases.locked_out
  = (Login.mkAnswer 429 (Some "Blocked") None, Cases.locked_out).
Proof.
  destruct (locked_out_client_is_refused Cases.config Cases.sign Cases.client
              1000%Z Cases.four_failures Cases.locked_out
              ltac:(vm_compute; discriminate) eq_refl eq_refl 2000%Z eq_refl)
    as [Hcheck Hlogin].
  split; [exact Hcheck|].
  exact (Hlogin 2001%Z (Login.credentials "admin" "change-me")).
Defined.

Lemma threshold_failure_blocks_witness :
  fst (Login.failures Cases.config Cases.client [10; 20; 30; 40; 50]%Z
         Login.empty)
  = [false; false; false; false; true] /\
  snd (Login.failures Cases.config Cases.client [10; 20; 30; 40; 50]%Z
         Login.empty) Cases.client
  = Some (Login.mkAttempts 5 (Some 300050%Z)).
Proof.
  exact (threshold_failure_blocks Cases.config Cases.client
           [10; 20; 30; 40]%Z 50%Z Login.empty eq_refl eq_refl).
Defined.

Lemma expired_lockout_starts_afresh_witness :
  Login.checkLoginRateLimit Cases.client 400000 Cases.locked_out
  = (Login.Allowed, Login.delete Cases.client Cases.locked_out) /\
  Login.delete Cases.client Cases.locked_out Cases.client = None /\
  snd (Login.recordFailedLogin Cases.config Cases.client 400500
         Cases.locked_out) Cases.client
  = Some (Login.mkAttempts 1 None).
Proof.
  destruct (expired_lockout_starts_afresh Cases.config Cases.client 5%Z
              301000%Z 400000%Z Cases.locked_out eq_refl
              ltac:(discriminate) ltac:(vm_compute; discriminate))
    as (Hcheck & Hgone & Hnext).
  split; [exact Hcheck|]. split; [exact Hgone|].
  exact (Hnext 400500%Z ltac:(vm_compute; discriminate)).
Defined.

Lemma login_leaves_other_clients_alone_witness :
  snd (Login.login Cases.config Cases.sign Cases.client 2000 2001
         (Login.credentials "admin" "guess") Cases.four_failures)
      Cases.visitor
  = Cases.four_failures Cases.visitor.
Proof.
  apply (login_leaves_other_clients_alone Cases.config Cases.sign
           Cases.client Cases.visitor).
  discriminate.
Defined.

Lemma right_credentials_clear_the_record_witness :
  fst (Login.login Cases.config Cases.sign Cases.client 2000 2001
         (Login.credentials "admin" "change-me") Cases.four_failures)
  = Login.mkAnswer 200 None (Some "token-for-admin") /\
  snd (Login.login Cases.config Cases.sign Cases.client 2000 2001
         (Login.credentials "admin" "change-me") Cases.four_failures)
      Cases.client
  = None.
Proof.
  apply (right_credentials_clear_the_record Cases.config Cases.sign
           Cases.client 2000%Z 2001%Z Cases.four_failures);
    [discriminate | discriminate | reflexivity].
Defined.

Lemma incomplete_login_is_not_counted_witness :
  Login.login Cases.config Cases.sign Cases.client 2000 2001
    (Js.Obj [("username", Js.Str "admin")]) Cases.four_failures
  = (Login.mkAnswer 400 (Some "Username and password are required.") None,
     Cases.four_failures).
Proof.
  apply (incomplete_login_is_not_counted Cases.config Cases.sign Cases.client
           2000%Z 2001%Z (Js.Obj [("username", Js.Str "admin")])
           Cases.four_failures);
    [reflexivity | right; reflexivity].
Defined.

Lemma wrong_credentials_are_counted_witness :
  Login.login Cases.config Cases.sign Cases.client 2000 2001
    (Login.credentials "admin" "guess") Cases.four_failures
  = (Login.mkAnswer 429 (Some "Blocked") None,
     Login.set Cases.client (Login.mkAttempts 5 (Some 302001%Z))
       Cases.four_failures).
Proof.
  apply (wrong_credentials_are_counted Cases.config Cases.sign Cases.client
           2000%Z 2001%Z "admin" "guess" Cases.four_failures);
    [reflexivity | discriminate | discriminate | right; discriminate].
Defined.

(* ================================================================== *)
(** * Properties of the base path *)
(* ================================================================== *)

Section BasePath.

Import Config.

Lemma drop_last_app (s : string) (c : ascii) :
  drop_last (s ++ String c EmptyString) = s.
Proof.
  induction s as [|a s IH]; [reflexivity|].
  cbn [append drop_last]. rewrite IH.
  destruct s; reflexivity.
Qed.

Lemma startsWith_slash (s : string) :
  Js.startsWith s "/" = true <-> exists rest, s = String "/" rest.
Proof.
  split.
  - destruct s as [|c s]; cbn [Js.startsWith]; [discriminate|].
    rewrite andb_true_iff. intros [Hc _].
    apply Ascii.eqb_eq in Hc. subst c. eexists. reflexivity.
  - intros [rest ->]. destruct rest; reflexivity.
Qed.

Lemma endsWith_two_slashes (s : string) :
  Js.startsWith s "/" = false ->
  Js.endsWith ("/" ++ s) "//" = true -> Js.endsWith s "//" = true.
Proof.
  intros Hstart Hend. apply endsWith_spec in Hend. destruct Hend as [p Hp].
  apply endsWith_spec. destruct p as [|c p].
  - cbn in Hp. injection Hp as Hs. subst s. discriminate Hstart.
  - cbn in Hp. injection Hp as _ Hs. exists p. assumption.
Qed.

(** X8.  The base path [normalizeBasePath] computes always starts with a
    slash.  It ends with one only when it is the root itself or when the
    configured value ended with two slashes, of which one is removed. And
    a configured value that starts with a slash and does not end with one
    is taken as it is. *)
Theorem base_path_is_rooted (input : option string) :
  Js.startsWith (normalizeBasePath input) "/" = true /\
  (Js.endsWith (normalizeBasePath input) "/" = true ->
     normalizeBasePath input = "/" \/
     exists s, input = Some s /\ Js.endsWith s "//" = true) /\
  (forall s, input = Some s -> Js.startsWith s "/" = true ->
     Js.endsWith s "/" = false -> normalizeBasePath input = s).
Proof.
  destruct input as [s|].
  2: { repeat split; [discriminate | intros ? [=]]. }
  destruct s as [|c0 s0].
  { repeat split; [discriminate | intros ? [= <-]; discriminate]. }
  unfold normalizeBasePath. cbv beta iota zeta.
  remember (String c0 s0) as s eqn:Hs. clear Hs c0 s0.
  set (rooted := if Js.startsWith s "/" then s else ("/" ++ s)%string).
  assert (Hrooted : exists rest, rooted = String "/" rest).
  { unfold rooted. destruct (Js.startsWith s "/") eqn:Hs.
    - apply startsWith_slash. assumption.
    - eexists. reflexivity. }
  assert (Hdouble : Js.endsWith rooted "//" = true -> Js.endsWith s "//" = true).
  { unfold rooted. destruct (Js.startsWith s "/") eqn:Hs; [tauto|].
    apply endsWith_two_slashes. assumption. }
  destruct Hrooted as [rest Hrest].
  split; [|split].
  - destruct ((1 <? String.length rooted)%nat && Js.endsWith rooted "/") eqn:Hcut.
    + apply andb_true_iff in Hcut. destruct Hcut as [Hlen Hend].
      apply endsWith_spec in Hend. destruct Hend as [p Hp].
      rewrite Hp. rewrite (drop_last_app p "/"%char).
      rewrite Hp in Hrest, Hlen.
      destruct p as [|c p].
      * cbn in Hlen. discriminate.
      * cbn in Hrest. injection Hrest as -> _. destruct p; reflexivity.
    + rewrite Hrest. destruct rest; reflexivity.
  - destruct ((1 <? String.length rooted)%nat && Js.endsWith rooted "/") eqn:Hcut.
    + apply andb_true_iff in Hcut. destruct Hcut as [Hlen Hend].
      apply endsWith_spec in Hend. destruct Hend as [p Hp].
      intros Hagain. rewrite Hp in Hagain.
      rewrite (drop_last_app p "/"%char) in Hagain. right. exists s. split; [reflexivity|].
      apply Hdouble. apply endsWith_spec in Hagain. destruct Hagain as [q Hq].
      apply endsWith_spec. exists q. rewrite Hp, Hq.
      rewrite append_assoc. reflexivity.
    + intros Hend. rewrite Hend, andb_true_r in Hcut.
      left. rewrite Hrest in Hcut |- *.
      destruct rest; [reflexivity|]. cbn in Hcut. discriminate.
  - intros s' [= <-] Hstart Hend. unfold rooted. rewrite Hstart, Hend.
    rewrite andb_false_r. reflexivity.
Qed.

Lemma endsWith_slash_appended (s : string) : Js.endsWith (s ++ "/") "/" = true.
Proof. apply endsWith_spec. exists s. reflexivity. Qed.

Lemma normalized_is_rooted (input : option string) :
  Js.startsWith (normalizeBasePath input) "/" = true.
Proof.
  destruct input as [[|c0 s0]|]; [reflexivity | | reflexivity].
  unfold normalizeBasePath. cbv beta iota zeta.
  remember (String c0 s0) as s eqn:Hs. clear Hs c0 s0.
  set (rooted := if Js.startsWith s "/" then s else ("/" ++ s)%string).
  assert (Hrooted : exists rest, rooted = String "/" rest).
  { unfold rooted. destruct (Js.startsWith s "/") eqn:Hs.
    - apply startsWith_slash. assumption.
    - eexists. reflexivity. }
  destruct Hrooted as [rest Hrest].
  destruct ((1 <? String.length rooted)%nat && Js.endsWith rooted "/") eqn:Hcut.
  - apply andb_true_iff in Hcut. destruct Hcut as [Hlen Hend].
    apply endsWith_spec in Hend. destruct Hend as [p Hp].
    rewrite Hp. rewrite (drop_last_app p "/"%char).
    rewrite Hp in Hrest, Hlen.
    destruct p as [|c p].
    + cbn in Hlen. discriminate.
    + cbn in Hrest. injection Hrest as -> _. destruct p; reflexivity.
  - rewrite Hrest. destruct rest; reflexivity.
Qed.

(** The prefix of the proxy is the configured value without its last
    slash. *)
Lemma proxy_prefix_cases (s : string) :
  s <> EmptyString ->
  (Js.endsWith s "/" = false /\
   Frontend.baseWithoutTrailingSlash (Some s) = s) \/
  (s = (Frontend.baseWithoutTrailingSlash (Some s) ++ "/")%string).
Proof.
  intros Hs. destruct s as [|c s0]; [contradiction Hs; reflexivity|].
  unfold Frontend.baseWithoutTrailingSlash, Frontend.normalizedBase.
  cbv zeta.
  change (Frontend.baseEnv (Some (String c s0))) with (String c s0).
  destruct (Js.endsWith (String c s0) "/") eqn:Hends.
  - right. rewrite Hends. apply endsWith_spec in Hends.
    destruct Hends as [p Hp]. rewrite Hp at 2.
    rewrite (drop_last_app p "/"%char). exact Hp.
  - left. split; [reflexivity|].
    rewrite endsWith_slash_appended.
    apply (drop_last_app (String c s0) "/"%char).
Qed.

Lemma proxy_prefix_not_rooted (s : string) :
  s <> EmptyString ->
  Js.startsWith s "/" = false ->
  Js.startsWith (Frontend.baseWithoutTrailingSlash (Some s)) "/" = false.
Proof.
  intros Hs Hstart.
  destruct (proxy_prefix_cases s Hs) as [[_ ->] | Hp]; [exact Hstart|].
  destruct (Js.startsWith (Frontend.baseWithoutTrailingSlash (Some s)) "/")
    eqn:Hprefix; [|reflexivity].
  apply startsWith_slash in Hprefix. destruct Hprefix as [rest Hrest].
  rewrite Hrest in Hp. rewrite Hp in Hstart. cbn [append] in Hstart.
  assert (Htrue : Js.startsWith (String "/" (rest ++ "/")) "/" = true)
    by (apply startsWith_slash; eexists; reflexivity).
  congruence.
Qed.

Lemma rooted_prefix_is_base_path (c : ascii) (rest : string) :
  normalizeBasePath (Some (String "/" (String c rest)))
  = Frontend.baseWithoutTrailingSlash (Some (String "/" (String c rest))).
Proof.
  set (s := String "/" (String c rest)).
  assert (Hs : s <> EmptyString) by discriminate.
  assert (Hnorm : normalizeBasePath (Some s)
                  = if Js.endsWith s "/" then drop_last s else s).
  { unfold normalizeBasePath, s. cbv beta iota zeta.
    replace (Js.startsWith (String "/" (String c rest)) "/") with true
      by reflexivity.
    cbn [String.length Nat.ltb Nat.leb andb]. reflexivity. }
  rewrite Hnorm.
  destruct (proxy_prefix_cases s Hs) as [[Hends ->] | Hp].
  - rewrite Hends. reflexivity.
  - remember (Frontend.baseWithoutTrailingSlash (Some s)) as p eqn:Heqp.
    clear Heqp Hnorm. rewrite Hp. rewrite endsWith_slash_appended.
    apply (drop_last_app p "/"%char).
Qed.

(** X21.  The development proxy and the server agree on the base path
    exactly when it is configured as the server expects it.  The prefix
    of the paths the proxy of [vite.config] forwards is the base path the
    server mounts its routes on if and only if the two are configured
    with the same value and that value is not set, is empty, or starts
    with a slash and is not the root alone.  For every other value, such
    as one without its leading slash, the two differ: the server adds the
    slash and the proxy does not.  In every case the [base] of
    [vite.config] is that prefix followed by a slash. *)
Theorem proxy_and_server_agree_on_base_path (value : option string) :
  (normalizeBasePath value = Frontend.baseWithoutTrailingSlash value <->
   (value = None \/ value = Some EmptyString \/
    exists s, value = Some s /\ Js.startsWith s "/" = true /\ s <> "/")) /\
  (Frontend.baseWithoutTrailingSlash value ++ "/")%string
    = Frontend.normalizedBase value.
Proof.
  split.
  - split.
    + intros Hsame. destruct value as [s|]; [|left; reflexivity].
      destruct s as [|c0 s0]; [right; left; reflexivity|].
      right. right. exists (String c0 s0). split; [reflexivity|].
      destruct (Js.startsWith (String c0 s0) "/") eqn:Hstart.
      * split; [reflexivity|]. intros Hroot. rewrite Hroot in Hsame.
        discriminate Hsame.
      * exfalso.
        pose proof (normalized_is_rooted (Some (String c0 s0))) as Hrooted.
        rewrite Hsame in Hrooted.
        rewrite proxy_prefix_not_rooted in Hrooted;
          [discriminate Hrooted | discriminate | exact Hstart].
    + intros [-> | [-> | (s & -> & Hstart & Hroot)]];
        [reflexivity | reflexivity |].
      apply startsWith_slash in Hstart. destruct Hstart as [rest ->].
      destruct rest as [|c rest]; [contradiction Hroot; reflexivity|].
      apply rooted_prefix_is_base_path.
  - unfold Frontend.baseWithoutTrailingSlash. cbv zeta.
    assert (Hnorm : exists p, Frontend.normalizedBase value = (p ++ "/")%string).
    { unfold Frontend.normalizedBase.
      destruct (Js.endsWith (Frontend.baseEnv value) "/") eqn:Hends.
      - apply endsWith_spec in Hends. exact Hends.
      - eexists. reflexivity. }
    destruct Hnorm as [p Hp]. rewrite Hp.
    rewrite endsWith_slash_appended, (drop_last_app p "/"%char). reflexivity.
Qed.

Lemma proxy_and_server_agree_on_base_path_witness :
  normalizeBasePath (Some "/gifs/")
  = Frontend.baseWithoutTrailingSlash (Some "/gifs/") /\
  normalizeBasePath (Some "gifs")
  <> Frontend.baseWithoutTrailingSlash (Some "gifs").
Proof.
  split.
  - apply (proj2 (proj1 (proxy_and_server_agree_on_base_path (Some "/gifs/")))).
    right. right. exists "/gifs/". repeat split. discriminate.
  - intros Hsame.
    apply (proj1 (proj1 (proxy_and_server_agree_on_base_path (Some "gifs"))))
      in Hsame.
    destruct Hsame as [Hnone | [Hempty | (s & Hs & Hstart & _)]];
      [discriminate Hnone | discriminate Hempty |].
    injection Hs as <-. discriminate Hstart.
Defined.

End BasePath.

(* ================================================================== *)
(** * Properties of the upload names and of the share links *)
(* ================================================================== *)

Section ShareLinks.

Import Share.

Lemma allowed_extension_cases (ext : string) :
  allowed_extension ext = true -> ext = ".gif" \/ ext = ".webp".
Proof.
  unfold allowed_extension, ALLOWED_EXTENSIONS. cbn [existsb].
  rewrite !orb_true_iff, !String.eqb_eq. intuition discriminate.
Qed.

Lemma findGifBySlug_slug (slug : string) (rows : list Gif) (gif : Gif) :
  findGifBySlug slug rows = Some gif -> g_slug gif = slug /\ In gif rows.
Proof.
  unfold findGifBySlug. intros Hfind. apply find_some in Hfind.
  destruct Hfind as [Hin Heq]. apply String.eqb_eq in Heq. tauto.
Qed.

(** X9.  The extension of the name an accepted upload is stored under is
    [.gif] or [.webp]: the extension of the original name, in lower case,
    when that is one of the two, and otherwise the one that goes with the
    declared type of the file. *)
Theorem upload_extension_is_allowed (originalname : option string)
  (mimetype : string) :
  fileFilter mimetype = true ->
  allowed_extension (resolveFileExtension originalname mimetype) = true /\
  (allowed_extension (Js.toLowerCase (Path.extname (or_empty originalname)))
     = true ->
   resolveFileExtension originalname mimetype
     = Js.toLowerCase (Path.extname (or_empty originalname))) /\
  (allowed_extension (Js.toLowerCase (Path.extname (or_empty originalname)))
     = false ->
   mime_of (resolveFileExtension originalname mimetype) EXTENSION_MIME_MAP
     = Some mimetype).
Proof.
  intros Hfilter. unfold resolveFileExtension.
  destruct (allowed_extension
              (Js.toLowerCase (Path.extname (or_empty originalname)))) eqn:Hext.
  - split; [exact Hext|]. split; [reflexivity | discriminate].
  - unfold fileFilter, ALLOWED_MIME_TYPES in Hfilter. cbn [existsb] in Hfilter.
    rewrite !orb_true_iff, !String.eqb_eq in Hfilter.
    destruct Hfilter as [-> | [-> | Hnone]]; [| |discriminate Hnone];
      (split; [reflexivity|]; split; [discriminate | reflexivity]).
Qed.

(** The extension a share link shows is the stored one when that is
    allowed, and [gif] otherwise. *)
Lemma extensionFromFilename_cases (filename : string) :
  (allowed_extension (Js.toLowerCase (Path.extname filename)) = true /\
   ("." ++ extensionFromFilename (Some filename))%string
     = Js.toLowerCase (Path.extname filename)) \/
  (allowed_extension (Js.toLowerCase (Path.extname filename)) = false /\
   extensionFromFilename (Some filename) = "gif").
Proof.
  unfold extensionFromFilename. cbn [or_empty].
  destruct (allowed_extension (Js.toLowerCase (Path.extname filename)))
    eqn:Hext; [left | right; tauto].
  split; [reflexivity|].
  apply allowed_extension_cases in Hext. destruct Hext as [-> | ->]; reflexivity.
Qed.

Lemma toLowerCase_idempotent (s : string) :
  Js.toLowerCase (Js.toLowerCase s) = Js.toLowerCase s.
Proof.
  induction s as [|c s IH]; [reflexivity|].
  cbn [Js.toLowerCase]. rewrite IH. f_equal.
  unfold Js.lower_ascii at 1.
  destruct ((65 <=? nat_of_ascii (Js.lower_ascii c))%nat
            && (nat_of_ascii (Js.lower_ascii c) <=? 90)%nat) eqn:Hup;
    [|reflexivity].
  exfalso. apply andb_true_iff in Hup. destruct Hup as [Hlo Hhi].
  apply Nat.leb_le in Hlo. apply Nat.leb_le in Hhi.
  unfold Js.lower_ascii in Hlo, Hhi.
  destruct ((65 <=? nat_of_ascii c)%nat && (nat_of_ascii c <=? 90)%nat) eqn:Hc.
  - apply andb_true_iff in Hc. destruct Hc as [Hc1 Hc2].
    apply Nat.leb_le in Hc1. apply Nat.leb_le in Hc2.
    rewrite nat_ascii_embedding in Hhi by lia. lia.
  - apply andb_false_iff in Hc.
    destruct Hc as [Hc | Hc]; apply Nat.leb_gt in Hc; lia.
Qed.

Variable base_path : string.
Variable rows : list Gif.
Variable existsSync : string -> bool.
Variable req : Request.

(** The request for the extension [extensionFromFilename] gives is served
    the file when the stored extension is empty or allowed. *)
Lemma own_share_link_served_when_allowed (slug : string) (gif : Gif) :
  findGifBySlug slug rows = Some gif ->
  existsSync (g_filename gif) = true ->
  Js.toLowerCase (Path.extname (g_filename gif)) = EmptyString \/
  allowed_extension (Js.toLowerCase (Path.extname (g_filename gif))) = true ->
  serveSharedGif base_path rows existsSync req slug
    (Some (extensionFromFilename (Some (g_filename gif))))
  = SendFile (g_filename gif)
      (mimeType_of gif (Js.toLowerCase (Path.extname (g_filename gif)))).
Proof.
  intros Hfind Hexists Hstored.
  set (stored := Js.toLowerCase (Path.extname (g_filename gif))) in *.
  unfold serveSharedGif. rewrite Hfind, Hexists. cbn [negb].
  fold stored.
  assert (Hshown : exists c rest,
            extensionFromFilename (Some (g_filename gif)) = String c rest).
  { destruct (extensionFromFilename_cases (g_filename gif)) as [[Ha He] | [_ ->]].
    - apply allowed_extension_cases in Ha.
      unfold extensionFromFilename. cbn [or_empty].
      destruct Ha as [-> | ->]; cbn; eauto.
    - eauto. }
  destruct Hshown as [c [rest Hshown]]. rewrite Hshown.
  rewrite <- Hshown.
  destruct Hstored as [Hempty | Hallowed].
  - rewrite Hempty. reflexivity.
  - destruct (extensionFromFilename_cases (g_filename gif))
      as [[_ He] | [Hno _]].
    2: { fold stored in Hno. congruence. }
    fold stored in He.
    assert (Hlow : Js.toLowerCase (extensionFromFilename (Some (g_filename gif)))
                   = extensionFromFilename (Some (g_filename gif))).
    { assert (H : Js.toLowerCase
                    ("." ++ extensionFromFilename (Some (g_filename gif)))
                  = ("." ++ extensionFromFilename (Some (g_filename gif)))%string).
      { rewrite He. apply toLowerCase_idempotent. }
      cbn in H. injection H as H. exact H. }
    rewrite Hlow, He, String.eqb_refl. cbn [negb andb].
    rewrite andb_false_r. reflexivity.
Qed.

(** The link made for a file whose stored extension is allowed ends with
    the slug and that extension. *)
Lemma share_link_ends_with_extension (slug filename : string) :
  allowed_extension (Js.toLowerCase (Path.extname filename)) = true ->
  Js.endsWith (buildShareUrl base_path req slug (Some filename))
    ("/share/" ++ slug ++ Js.toLowerCase (Path.extname filename)) = true.
Proof.
  intros Hallowed. unfold buildShareUrl.
  destruct (extensionFromFilename_cases filename) as [[_ He] | [Hno _]].
  2: { congruence. }
  apply endsWith_spec. rewrite <- He.
  set (extension := extensionFromFilename (Some filename)).
  set (scheme := match forwarded_proto req with
                 | Some (String _ _ as forwardedProto) =>
                     before_comma forwardedProto
                 | _ => protocol req
                 end).
  exists (scheme ++ "://" ++ shown (host req) ++ base_path)%string.
  rewrite !append_assoc. reflexivity.
Qed.

(** X10.  The link [buildShareUrl] makes for a stored file is served
    without a redirect as soon as the stored extension is empty or
    allowed; with any other stored extension the answer to that link is a
    redirect to the same link. *)
Theorem own_share_link_is_served (slug : string) (gif : Gif) :
  findGifBySlug slug rows = Some gif ->
  existsSync (g_filename gif) = true ->
  let stored := Js.toLowerCase (Path.extname (g_filename gif)) in
  let answer :=
    serveSharedGif base_path rows existsSync req slug
      (Some (extensionFromFilename (Some (g_filename gif)))) in
  (stored = EmptyString \/ allowed_extension stored = true ->
     answer = SendFile (g_filename gif) (mimeType_of gif stored)) /\
  (stored <> EmptyString -> allowed_extension stored = false ->
     answer = Redirect 301
                (buildShareUrl base_path req slug (Some (g_filename gif)))).
Proof.
  intros Hfind Hexists stored answer.
  destruct (findGifBySlug_slug _ _ _ Hfind) as [Hslug _].
  split.
  - apply own_share_link_served_when_allowed; assumption.
  - intros Hnonempty Hno.
    unfold answer, serveSharedGif. rewrite Hfind, Hexists. cbn [negb].
    fold stored.
    destruct (extensionFromFilename_cases (g_filename gif))
      as [[Hyes _] | [_ He]].
    { fold stored in Hyes. congruence. }
    rewrite He.
    change ("." ++ Js.toLowerCase "gif")%string with ".gif".
    assert (Hne : String.eqb stored EmptyString = false).
    { apply String.eqb_neq. assumption. }
    assert (Hgif : String.eqb ".gif" stored = false).
    { apply String.eqb_neq. intros Heq. rewrite <- Heq in Hno. discriminate. }
    rewrite Hne, Hgif. cbn [negb andb]. rewrite Hslug. reflexivity.
Qed.

(** X11.  A request for a stored file under another extension than the
    stored one, which is allowed, is answered by a permanent redirect to
    the link [buildShareUrl] makes, and that link ends with the slug and
    the stored extension: the request that follows the redirect is served
    the file. *)
Theorem other_extension_is_redirected (slug : string) (gif : Gif)
  (c : ascii) (param : string) :
  findGifBySlug slug rows = Some gif ->
  existsSync (g_filename gif) = true ->
  let stored := Js.toLowerCase (Path.extname (g_filename gif)) in
  allowed_extension stored = true ->
  ("." ++ Js.toLowerCase (String c param))%string <> stored ->
  let location := buildShareUrl base_path req slug (Some (g_filename gif)) in
  serveSharedGif base_path rows existsSync req slug (Some (String c param))
    = Redirect 301 location /\
  Js.endsWith location ("/share/" ++ slug ++ stored) = true /\
  serveSharedGif base_path rows existsSync req slug
    (Some (extensionFromFilename (Some (g_filename gif))))
  = SendFile (g_filename gif) (mimeType_of gif stored).
Proof.
  intros Hfind Hexists stored Hallowed Hother location.
  destruct (findGifBySlug_slug _ _ _ Hfind) as [Hslug _].
  split; [|split].
  - unfold serveSharedGif. rewrite Hfind, Hexists. cbn [negb]. fold stored.
    assert (Hne : String.eqb stored EmptyString = false).
    { apply String.eqb_neq. intros Heq. rewrite Heq in Hallowed. discriminate. }
    assert (Hneq : String.eqb ("." ++ Js.toLowerCase (String c param)) stored
                   = false).
    { apply String.eqb_neq. assumption. }
    rewrite Hne, Hneq. cbn [negb andb]. rewrite Hslug. reflexivity.
  - apply share_link_ends_with_extension. exact Hallowed.
  - apply own_share_link_served_when_allowed; [assumption | assumption |].
    right. assumption.
Qed.

(** X19.  The link without an extension, [/share/:slug], is answered by a
    permanent redirect to the link [buildShareUrl] makes for the file;
    when the stored extension is allowed, that link ends with the slug
    and the stored extension and the request that follows the redirect
    is served the file.  An unknown slug is answered [GIF not found.] by
    both routes. *)
Theorem plain_share_link_is_redirected (slug : string) :
  (forall gif,
     findGifBySlug slug rows = Some gif ->
     existsSync (g_filename gif) = true ->
     let stored := Js.toLowerCase (Path.extname (g_filename gif)) in
     allowed_extension stored = true ->
     let location := buildShareUrl base_path req slug (Some (g_filename gif)) in
     shareBySlug base_path rows req slug = Redirect 301 location /\
     Js.endsWith location ("/share/" ++ slug ++ stored) = true /\
     serveSharedGif base_path rows existsSync req slug
       (Some (extensionFromFilename (Some (g_filename gif))))
     = SendFile (g_filename gif) (mimeType_of gif stored)) /\
  (findGifBySlug slug rows = None ->
   shareBySlug base_path rows req slug = NotFound "GIF not found." /\
   forall ext,
     serveSharedGif base_path rows existsSync req slug ext
     = NotFound "GIF not found.").
Proof.
  split.
  - intros gif Hfind Hexists stored Hallowed location.
    destruct (findGifBySlug_slug _ _ _ Hfind) as [Hslug _].
    split; [|split].
    + unfold shareBySlug. rewrite Hfind, Hslug. reflexivity.
    + apply share_link_ends_with_extension. exact Hallowed.
    + apply own_share_link_served_when_allowed; [assumption | assumption |].
      right. assumption.
  - intros Hnone. unfold shareBySlug, serveSharedGif. rewrite Hnone.
    split; [reflexivity | intros ext; reflexivity].
Qed.

End ShareLinks.

(* ================================================================== *)
(** * Properties of the deletion *)
(* ================================================================== *)

Section Deleting.

Import Share.

Lemma find_after_delete (slug : string) (rows : list Gif) :
  findGifBySlug slug (snd (deleteGifBySlug slug rows)) = None.
Proof.
  unfold findGifBySlug, deleteGifBySlug. cbn [snd].
  induction rows as [|g rows IH]; [reflexivity|].
  cbn [filter]. destruct (String.eqb (g_slug g) slug) eqn:Hg; cbn [negb].
  - exact IH.
  - cbn [find]. rewrite Hg. exact IH.
Qed.

Lemma find_other_after_delete (slug other : string) (rows : list Gif) :
  other <> slug ->
  findGifBySlug other (snd (deleteGifBySlug slug rows))
  = findGifBySlug other rows.
Proof.
  intros Hne. unfold findGifBySlug, deleteGifBySlug. cbn [snd].
  induction rows as [|g rows IH]; [reflexivity|].
  cbn [filter find]. destruct (String.eqb_spec (g_slug g) slug) as [Hg | Hg];
    cbn [negb].
  - destruct (String.eqb_spec (g_slug g) other) as [Ho | Ho];
      [congruence | exact IH].
  - cbn [find]. destruct (String.eqb (g_slug g) other); [reflexivity | exact IH].
Qed.

Lemma found_is_deleted (slug : string) (rows : list Gif) (gif : Gif) :
  findGifBySlug slug rows = Some gif ->
  fst (deleteGifBySlug slug rows) = true.
Proof.
  intros Hfind. unfold deleteGifBySlug. cbn [fst].
  apply existsb_exists. exists gif.
  unfold findGifBySlug in Hfind. apply find_some in Hfind. tauto.
Qed.

Lemma exists_after_unlink (name other : string) (files : list (string * blob)) :
  existsSync (unlink name files) other
  = negb (String.eqb other name) && existsSync files other.
Proof.
  unfold existsSync, unlink.
  induction files as [|[n data] files IH]; cbn [filter existsb fst].
  - rewrite andb_false_r. reflexivity.
  - destruct (String.eqb_spec n name) as [-> | Hn]; cbn [negb existsb fst].
    + rewrite IH. destruct (String.eqb_spec name other) as [-> | Ho].
      * rewrite String.eqb_refl. reflexivity.
      * cbn [orb]. reflexivity.
    + rewrite IH. destruct (String.eqb_spec n other) as [-> | Ho].
      * apply String.eqb_neq in Hn. rewrite Hn. reflexivity.
      * cbn [orb]. reflexivity.
Qed.

(** X22.  The deletion of a gif that is in the table answers with a
    success and removes the row, whether the removal of the file works
    or not: the slug is no longer found, so that the share routes answer
    [GIF not found.] and a second deletion is answered the same.  When
    [unlink] is fulfilled no file of that name is left in the uploads;
    when it is rejected the rejection is ignored, the uploads are as
    before and the answer is the same success.  The rows of the other
    slugs and the files of the other names are as before. *)
Theorem deleted_gif_is_gone (unlink_rejected : bool) (slug : string)
  (gif : Gif) (rows : list Gif) (files : list (string * blob)) :
  findGifBySlug slug rows = Some gif ->
  let run := delete_gif unlink_rejected slug rows files in
  let rows' := snd (fst run) in
  let files' := snd run in
  fst (fst run) = Gone /\
  findGifBySlug slug rows' = None /\
  (unlink_rejected = false -> existsSync files' (g_filename gif) = false) /\
  (unlink_rejected = true -> files' = files) /\
  (forall other, other <> slug ->
     findGifBySlug other rows' = findGifBySlug other rows) /\
  (forall name, name <> g_filename gif ->
     existsSync files' name = existsSync files name) /\
  (forall base_path req,
     shareBySlug base_path rows' req slug = NotFound "GIF not found." /\
     forall ext,
       serveSharedGif base_path rows' (existsSync files') req slug ext
       = NotFound "GIF not found.") /\
  (forall again,
     delete_gif again slug rows' files'
     = (Unknown "GIF not found.", rows', files')).
Proof.
  intros Hfind run rows' files'.
  assert (Hrun : run = (Gone, snd (deleteGifBySlug slug rows),
                        if unlink_rejected then files
                        else unlink (g_filename gif) files)).
  { unfold run, delete_gif. rewrite Hfind.
    pose proof (found_is_deleted slug rows gif Hfind) as Hdeleted.
    destruct (deleteGifBySlug slug rows) as [deleted others].
    cbn [fst snd] in *. rewrite Hdeleted. reflexivity. }
  unfold rows', files'. rewrite Hrun. cbn [fst snd].
  pose proof (find_after_delete slug rows) as Hgone.
  split; [reflexivity|]. split; [exact Hgone|].
  split; [|split; [|split; [|split; [|split]]]].
  - intros ->. rewrite exists_after_unlink, String.eqb_refl. reflexivity.
  - intros ->. reflexivity.
  - intros other Hne. apply find_other_after_delete. exact Hne.
  - intros name Hne. destruct unlink_rejected; [reflexivity|].
    rewrite exists_after_unlink.
    apply String.eqb_neq in Hne. rewrite Hne. reflexivity.
  - intros base_path req. split.
    + unfold shareBySlug. rewrite Hgone. reflexivity.
    + intros ext. unfold serveSharedGif. rewrite Hgone. reflexivity.
  - intros again. unfold delete_gif. rewrite Hgone. reflexivity.
Qed.

End Deleting.

(** ** The links of a stored picture *)

Lemma upload_extension_is_allowed_witness :
  Share.resolveFileExtension (Some "Cat.GIF") "image/webp" = ".gif" /\
  mime_of (Share.resolveFileExtension (Some "photo") "image/webp")
          EXTENSION_MIME_MAP
  = Some "image/webp".
Proof.
  split.
  - apply (proj1 (proj2 (upload_extension_is_allowed (Some "Cat.GIF")
                           "image/webp" eq_refl))).
    reflexivity.
  - apply (proj2 (proj2 (upload_extension_is_allowed (Some "photo")
                           "image/webp" eq_refl))).
    reflexivity.
Defined.

Lemma own_share_link_is_served_witness :
  Share.serveSharedGif "/gifselector" Cases.table Cases.on_disk Cases.request
    "abcdefghij" (Some "webp")
  = Share.SendFile "1700000000002-dddddd.webp" "image/webp".
Proof.
  apply (proj1 (own_share_link_is_served "/gifselector" Cases.table
                  Cases.on_disk Cases.request "abcdefghij" Cases.picture_row
                  eq_refl eq_refl)).
  right. reflexivity.
Defined.

Lemma other_extension_is_redirected_witness :
  Share.serveSharedGif "/gifselector" Cases.table Cases.on_disk Cases.request
    "abcdefghij" (Some "GIF")
  = Share.Redirect 301 "https://gifs.example/gifselector/share/abcdefghij.webp" /\
  Share.serveSharedGif "/gifselector" Cases.table Cases.on_disk Cases.request
    "abcdefghij" (Some "webp")
  = Share.SendFile "1700000000002-dddddd.webp" "image/webp".
Proof.
  destruct (other_extension_is_redirected "/gifselector" Cases.table
              Cases.on_disk Cases.request "abcdefghij" Cases.picture_row
              "G"%char "IF" eq_refl eq_refl eq_refl ltac:(discriminate))
    as (Hredirect & _ & Hserved).
  split; [exact Hredirect | exact Hserved].
Defined.

Lemma plain_share_link_is_redirected_witness :
  Share.shareBySlug "/gifselector" Cases.table Cases.request "abcdefghij"
  = Share.Redirect 301 "https://gifs.example/gifselector/share/abcdefghij.webp" /\
  Share.shareBySlug "/gifselector" Cases.table Cases.request "zzzzzzzzzz"
  = Share.NotFound "GIF not found.".
Proof.
  split.
  - apply (proj1 (plain_share_link_is_redirected "/gifselector" Cases.table
                    Cases.on_disk Cases.request "abcdefghij")
             Cases.picture_row eq_refl eq_refl eq_refl).
  - apply (proj2 (plain_share_link_is_redirected "/gifselector" Cases.table
                    Cases.on_disk Cases.request "zzzzzzzzzz") eq_refl).
Defined.

Lemma deleted_gif_is_gone_witness :
  Share.delete_gif false "abcdefghij" Cases.table
    [("1700000000002-dddddd.webp", Sample.picture)]
  = (Share.Gone, [], []) /\
  Share.delete_gif true "abcdefghij" Cases.table
    [("1700000000002-dddddd.webp", Sample.picture)]
  = (Share.Gone, [], [("1700000000002-dddddd.webp", Sample.picture)]) /\
  Share.serveSharedGif "/gifselector" []
    (Share.existsSync [("1700000000002-dddddd.webp", Sample.picture)])
    Cases.request "abcdefghij" (Some "webp")
  = Share.NotFound "GIF not found.".
Proof.
  destruct (deleted_gif_is_gone true "abcdefghij" Cases.picture_row Cases.table
              [("1700000000002-dddddd.webp", Sample.picture)] eq_refl)
    as (_ & _ & _ & _ & _ & _ & Hshare & _).
  split; [reflexivity|]. split; [reflexivity|].
  exact (proj2 (Hshare "/gifselector" Cases.request) (Some "webp")).
Defined.

(* ================================================================== *)
(** * The assets a batch adds *)
(* ================================================================== *)

(** ** The rows of the [gifs] table, stage by stage *)

Section Yields.

Context {A B : Type}.

Lemma yields_ret (Q : A -> Prop) (a : A) : Q a -> yields Q (ret a).
Proof. intros H s b Hv. inversion Hv; subst. exact H. Qed.

Lemma yields_bind (Q : B -> Prop) (m : M A) (k : A -> M B) :
  (forall a, yields Q (k a)) -> yields Q (bind m k).
Proof.
  intros Hk s b. unfold bind.
  destruct (m s) as [[[e | a] s1] ev1]; [discriminate|].
  pose proof (Hk a s1 b) as H.
  destruct (k a s1) as [[v s2] ev2]. exact H.
Qed.

Lemma yields_try_catch (Q : A -> Prop) (m : M A) (handler : string -> M A) :
  yields Q m -> (forall e, yields Q (handler e)) -> yields Q (try_catch m handler).
Proof.
  intros Hm Hh s a. unfold try_catch. pose proof (Hm s a) as H1.
  destruct (m s) as [[[e | a1] s1] ev1]; [|exact H1].
  pose proof (Hh e s1 a) as H2.
  destruct (handler e s1) as [[v s2] ev2]. exact H2.
Qed.

End Yields.

(** The file the converter hands on is the original one, a [.webp] or a
    [.gif]. *)
Lemma convert_yields env filePath ext (isMp4 : bool) original :
  image_candidate original ->
  yields image_candidate (convert env filePath ext isMp4 original).
Proof.
  intros Horiginal. unfold convert.
  apply yields_bind. intros direct.
  apply yields_bind. intros conversionSuccess.
  destruct conversionSuccess.
  - apply yields_ret. right. right. split; reflexivity.
  - destruct isMp4.
    + apply yields_try_catch.
      * apply yields_bind. intros _. apply yields_bind. intros _.
        apply yields_ret. right. left. split; reflexivity.
      * intros _. apply yields_ret. exact Horiginal.
    + apply yields_ret. exact Horiginal.
Qed.

(** The file the loop starts from, when it is not skipped. *)
Lemma original_candidate (filePath : path) ext :
  negb (allowed_extension ext) && negb (String.eqb ext ".mp4") = false ->
  image_candidate
    (filePath, ext,
     if String.eqb ext ".mp4" then Some "video/mp4"
     else mime_of ext EXTENSION_MIME_MAP).
Proof.
  intros Hskip. unfold image_candidate. cbn [fst snd].
  destruct (String.eqb ext ".mp4") eqn:Hmp4.
  - left. apply String.eqb_eq. exact Hmp4.
  - rewrite andb_true_r in Hskip. apply negb_false_iff in Hskip.
    apply allowed_extension_cases in Hskip.
    destruct Hskip as [-> | ->]; [right; left | right; right]; split; reflexivity.
Qed.

Section Adds.

Variable env : Env.
Variable P : Gif -> Prop.

Lemma adds_unchanged {A} (m : M A) :
  (forall s, gifs (state_of (m s)) = gifs s) -> adds P m.
Proof.
  intros H s. exists []. rewrite app_nil_r. split; [apply H | constructor].
Qed.

Lemma adds_quiet {A} K (m : M A) : quiet K m -> adds P m.
Proof. intros H. apply adds_unchanged. intros s. apply (H s). Qed.

Lemma adds_ret {A} (a : A) : adds P (ret a).
Proof. apply adds_unchanged. reflexivity. Qed.

Lemma adds_throw {A} message : adds P (@throw A message).
Proof. apply adds_unchanged. reflexivity. Qed.

Lemma adds_bind_yields {A B} (Q : A -> Prop) (m : M A) (k : A -> M B) :
  yields Q m -> adds P m -> (forall a, Q a -> adds P (k a)) ->
  adds P (bind m k).
Proof.
  intros Hy Hm Hk s. unfold bind.
  destruct (Hm s) as (rows1 & G1 & F1). pose proof (Hy s) as Hv.
  destruct (m s) as [[[e | a] s1] ev1]; cbn [state_of value_of fst snd] in *.
  - exists rows1. auto.
  - destruct (Hk a (Hv a eq_refl) s1) as (rows2 & G2 & F2).
    destruct (k a s1) as [[v s2] ev2]; cbn [state_of fst snd] in *.
    exists (rows1 ++ rows2). rewrite G2, G1, app_assoc.
    split; [reflexivity | apply Forall_app; auto].
Qed.

Lemma adds_bind {A B} (m : M A) (k : A -> M B) :
  adds P m -> (forall a, adds P (k a)) -> adds P (bind m k).
Proof.
  intros Hm Hk. apply adds_bind_yields with (Q := fun _ => True); auto.
  intros s a _. exact I.
Qed.

Lemma adds_try_catch {A} (m : M A) (handler : string -> M A) :
  adds P m -> (forall e, adds P (handler e)) -> adds P (try_catch m handler).
Proof.
  intros Hm Hh s. unfold try_catch.
  destruct (Hm s) as (rows1 & G1 & F1).
  destruct (m s) as [[[e | a] s1] ev1]; cbn [state_of fst snd] in *.
  - destruct (Hh e s1) as (rows2 & G2 & F2).
    destruct (handler e s1) as [[v s2] ev2]; cbn [state_of fst snd] in *.
    exists (rows1 ++ rows2). rewrite G2, G1, app_assoc.
    split; [reflexivity | apply Forall_app; auto].
  - exists rows1. auto.
Qed.

Lemma adds_try_finally {A} (m : M A) (cleanup : M unit) :
  adds P m -> adds P cleanup -> adds P (try_finally m cleanup).
Proof.
  intros Hm Hc s. unfold try_finally.
  destruct (Hm s) as (rows1 & G1 & F1).
  destruct (m s) as [[v s1] ev1]; cbn [state_of fst snd] in *.
  destruct (Hc s1) as (rows2 & G2 & F2).
  destruct (cleanup s1) as [[[e | u] s2] ev2]; cbn [state_of fst snd] in *;
    exists (rows1 ++ rows2); rewrite G2, G1, app_assoc;
    (split; [reflexivity | apply Forall_app; auto]).
Qed.

(** The row [persist] adds for a candidate is the only place where the
    table grows. *)
Hypothesis row_is_P :
  forall s filePath ext mime size,
    image_candidate (filePath, ext, mime) -> String.eqb ext ".mp4" = false ->
    P (row env s filePath ext mime size).

Lemma persist_adds filePath final :
  image_candidate final -> adds P (persist env filePath final).
Proof.
  destruct final as [[p ext] mime].
  intros Hfinal s.
  destruct (String.eqb ext ".mp4") eqn:Hext.
  { rewrite persist_mp4 by assumption. exists []. rewrite app_nil_r.
    split; [reflexivity | constructor]. }
  destruct (Fs.lookup p (tmp s)) as [[name data | name children] |] eqn:L.
  - destruct (Z_lt_le_dec MAX_DOWNLOAD_SIZE (byteLength data)) as [Hsize | Hsize].
    + erewrite persist_too_large by eassumption.
      exists []. rewrite app_nil_r. split; [reflexivity | constructor].
    + erewrite persist_stores by eassumption.
      eexists [_]. split; [reflexivity|]. constructor; [|constructor].
      apply row_is_P; [|exact Hext].
      unfold image_candidate in *. cbn [fst snd] in *. exact Hfinal.
  - destruct (persist_directory env filePath p ext mime s Hext _ _ L) as [m ->].
    exists []. rewrite app_nil_r. split; [reflexivity | constructor].
  - destruct (persist_missing env filePath p ext mime s Hext L) as [m ->].
    exists []. rewrite app_nil_r. split; [reflexivity | constructor].
Qed.

Lemma process_file_adds filePath : adds P (process_file env filePath).
Proof.
  unfold process_file.
  set (ext := Js.toLowerCase (Path.extname (str env filePath))).
  destruct (negb (allowed_extension ext) && negb (String.eqb ext ".mp4"))
    eqn:Hskip; [apply adds_ret|].
  pose proof (original_candidate filePath ext Hskip) as Horiginal.
  apply adds_bind_yields with (Q := image_candidate).
  - destruct (String.eqb ext ".gif" || String.eqb ext ".mp4").
    + apply convert_yields. exact Horiginal.
    + apply yields_ret. exact Horiginal.
  - destruct (String.eqb ext ".gif" || String.eqb ext ".mp4").
    + eapply adds_quiet. apply quiet_convert.
    + apply adds_ret.
  - intros final Hfinal. apply persist_adds. exact Hfinal.
Qed.

Lemma process_files_adds files :
  forall foundValid, adds P (process_files env files foundValid).
Proof.
  induction files as [|f files IH]; intros foundValid; cbn [process_files].
  - apply adds_ret.
  - destruct foundValid; [apply adds_ret|].
    apply adds_bind; [apply process_file_adds | intros found; apply IH].
Qed.

Lemma import_into_adds dir urlStr : adds P (import_into env dir urlStr).
Proof.
  unfold import_into.
  apply adds_bind; [eapply adds_quiet; apply quiet_acquire | intros _].
  apply adds_bind.
  { apply adds_unchanged. intros s. unfold findFiles.
    destruct (Fs.find dir (tmp s)) as [[? ? | ? ?] |]; reflexivity. }
  intros files. destruct (List.length files =? 0)%nat; [apply adds_throw|].
  apply adds_bind; [apply process_files_adds | intros found].
  destruct (negb found && (0 <? List.length files)%nat);
    [apply adds_throw | apply adds_ret].
Qed.

Lemma import_url_adds urlStr : adds P (import_url env urlStr).
Proof.
  unfold import_url.
  apply adds_bind.
  { destruct (new_URL env urlStr); [apply adds_ret | apply adds_throw]. }
  intros url. destruct (negb (isAllowed env url)); [apply adds_throw|].
  apply adds_bind; [apply adds_unchanged; reflexivity | intros id].
  apply adds_bind.
  { apply adds_unchanged. intros s. unfold mkdir.
    destruct (Fs.find _ (tmp s)); reflexivity. }
  intros _. apply adds_try_finally; [apply import_into_adds|].
  apply adds_try_catch; [|intros _; apply adds_ret].
  apply adds_unchanged. intros s. unfold rm.
  destruct (rm_fails env (calls s)); reflexivity.
Qed.

Lemma process_url_adds urlStr : adds P (process_url env urlStr).
Proof.
  unfold process_url.
  apply adds_bind; [apply adds_unchanged; reflexivity | intros _].
  apply adds_bind; [|intros _; apply adds_unchanged; reflexivity].
  apply adds_try_catch; [apply import_url_adds|].
  intros message. apply adds_unchanged. reflexivity.
Qed.

Lemma process_urls_adds urls :
  forall results, adds P (process_urls env urls results).
Proof.
  induction urls as [|urlStr urls IH]; intros results; cbn [process_urls].
  - apply adds_ret.
  - apply adds_bind; [apply process_url_adds | intros r; apply IH].
Qed.

Lemma import_handler_adds body : adds P (import_handler env body).
Proof.
  unfold import_handler.
  apply adds_bind.
  { unfold body_urls. destruct body; apply adds_throw || apply adds_ret. }
  intros urls. destruct urls; try apply adds_ret.
  apply adds_bind; [apply process_urls_adds|].
  intros results. apply adds_ret.
Qed.

End Adds.

(** ** Only pictures are recorded *)

Lemma row_is_image env s filePath ext mime size :
  image_candidate (filePath, ext, mime) -> String.eqb ext ".mp4" = false ->
  image_asset (row env s filePath ext mime size).
Proof.
  unfold image_candidate, image_asset, row, unique_name.
  cbn [fst snd g_mimeType g_filename].
  intros [-> | [[-> ->] | [-> ->]]] Hext; [discriminate Hext | |].
  - left. split; [reflexivity|]. apply endsWith_spec.
    eexists. rewrite <- !append_assoc. reflexivity.
  - right. split; [reflexivity|]. apply endsWith_spec.
    eexists. rewrite <- !append_assoc. reflexivity.
Qed.

(** X12.  Whatever the body of the request and whatever the programs and
    the servers answer, the handler removes no row of the [gifs] table,
    and every row it adds is that of a picture: its type is [image/gif]
    and the name of its file ends with [.gif], or its type is
    [image/webp] and the name ends with [.webp].  A clip is never
    recorded. *)
Theorem only_images_are_recorded env body s :
  exists rows,
    gifs (state_of (import_handler env body s)) = gifs s ++ rows /\
    Forall image_asset rows.
Proof.
  apply (import_handler_adds env image_asset (row_is_image env)).
Qed.

(** ** One asset for each success *)






(** ** Files that need no conversion, and conversions that work *)

(** X14.  A file whose extension is [.webp] is never handed to a
    converter, and its turn leaves the temporary directory as it is.
    When the file is there and within the cap, its own bytes are copied
    to the uploads, and the row has the type [image/webp]. *)
Theorem webp_passes_through env filePath s :
  extension env filePath = ".webp" ->
  Forall not_converter (events_of (process_file env filePath s)) /\
  tmp (state_of (process_file env filePath s)) = tmp s /\
  forall name data,
    Fs.lookup filePath (tmp s) = Some (File name data) ->
    byteLength data <= MAX_DOWNLOAD_SIZE ->
    let g := row env s filePath ".webp" (Some "image/webp") (byteLength data) in
    process_file env filePath s =
    (inr true, after_storing s (g_filename g) data g,
     [Stat filePath (byteLength data); CopyFile filePath (g_filename g);
      AddGif g]).
Proof.
  intros Hext.
  assert (Hrun : process_file env filePath s =
                 persist env filePath (filePath, ".webp", Some "image/webp") s).
  { unfold process_file. fold (extension env filePath). rewrite Hext.
    cbn [allowed_extension ALLOWED_EXTENSIONS existsb String.eqb Ascii.eqb
         Bool.eqb negb andb orb mime_of EXTENSION_MIME_MAP].
    unfold bind, ret.
    destruct (persist env filePath (filePath, ".webp", Some "image/webp") s)
      as [[v s1] ev1]. reflexivity. }
  rewrite Hrun.
  assert (Hnot : String.eqb ".webp" ".mp4" = false) by reflexivity.
  destruct (Fs.lookup filePath (tmp s)) as [[name data | name children] |] eqn:L.
  - destruct (Z_lt_le_dec MAX_DOWNLOAD_SIZE (byteLength data)) as [Hsize | Hsize].
    + rewrite (persist_too_large env filePath filePath ".webp" _ s Hnot name data
                 L Hsize).
      split; [repeat constructor; intros []|]. split; [reflexivity|].
      intros name' data' [= <- <-] Hcap. lia.
    + rewrite (persist_stores env filePath filePath ".webp" _ s Hnot name data
                 L Hsize).
      split; [repeat constructor; intros []|]. split; [reflexivity|].
      intros name' data' [= <- <-] _. reflexivity.
  - destruct (persist_directory env filePath filePath ".webp"
                (Some "image/webp") s Hnot _ _ L) as [m ->].
    split; [repeat constructor; intros []|]. split; [reflexivity|].
    intros name' data' [=].
  - destruct (persist_missing env filePath filePath ".webp"
                (Some "image/webp") s Hnot L) as [m ->].
    split; [constructor|]. split; [reflexivity|].
    intros name' data' [=].
Qed.

Lemma webp_passes_through_witness :
  Forall not_converter
    (events_of (process_file Sample.two_files Sample.picture_path
                  Sample.workshop)) /\
  tmp (state_of (process_file Sample.two_files Sample.picture_path
                   Sample.workshop)) = tmp Sample.workshop /\
  process_file Sample.two_files Sample.picture_path Sample.workshop =
  (inr true,
   after_storing Sample.workshop "1700000000002-dddddd.webp" Sample.picture
     (mkGif "eeeeeeeeee" "1700000000002-dddddd.webp" "b.webp"
            (Some "image/webp") 7),
   [Stat Sample.picture_path 7;
    CopyFile Sample.picture_path "1700000000002-dddddd.webp";
    AddGif (mkGif "eeeeeeeeee" "1700000000002-dddddd.webp" "b.webp"
                  (Some "image/webp") 7)]).
Proof.
  destruct (webp_passes_through Sample.two_files Sample.picture_path
              Sample.workshop eq_refl) as (Hev & Htmp & Hrun).
  split; [exact Hev|]. split; [exact Htmp|].
  apply (Hrun "b.webp" Sample.picture); [reflexivity | discriminate].
Defined.

Lemma find_put_found name data entries entries' :
  Fs.put name data entries = Some entries' ->
  Fs.find name entries' = Some (File name data).
Proof.
  revert entries'. induction entries as [|x entries IH]; intros entries' Hput.
  - inversion Hput; subst. cbn [Fs.find node_name].
    rewrite String.eqb_refl. reflexivity.
  - cbn [Fs.put] in Hput. destruct (String.eqb (node_name x) name) eqn:Hx.
    + destruct x; [|discriminate Hput]. inversion Hput; subst.
      cbn [Fs.find node_name]. rewrite String.eqb_refl. reflexivity.
    + destruct (Fs.put name data entries) as [rest|]; [|discriminate Hput].
      inversion Hput; subst. cbn [Fs.find]. rewrite Hx. apply IH. reflexivity.
Qed.

(** After a write the file is at its path, with the bytes written. *)
Lemma lookup_write_same q data : forall entries entries',
  Fs.write q data entries = Some entries' ->
  Fs.lookup q entries' = Some (File (last q EmptyString) data).
Proof.
  induction q as [|n q IH]; intros entries entries' Hw; [discriminate Hw|].
  cbn [Fs.write] in Hw. cbn [Fs.lookup].
  destruct q as [|n' q].
  - cbn [last]. eapply find_put_found; eassumption.
  - destruct (find_in_dir_same _ _ _ _ Hw) as (x & ch & ch' & Hf & Hch & Hf').
    rewrite Hf'.
    change (last (n :: n' :: q) EmptyString) with (last (n' :: q) EmptyString).
    apply (IH _ _ Hch).
Qed.

Lemma execFile_succeeds env cmd args output data t s :
  converter env (calls s) cmd args = mkConversion true (Some data) ->
  Fs.write output data (tmp s) = Some t ->
  execFile env cmd args output s =
  (inr tt, called (with_tmp s t),
   [RunConverter cmd args (mkConversion true (Some data))]).
Proof.
  intros Hc Hw. unfold execFile. rewrite Hc. cbn [cv_ok cv_output].
  rewrite Hw. reflexivity.
Qed.

Lemma access_written env output data t s :
  Fs.write output data (tmp s) = Some t ->
  access env output (called (with_tmp s t)) = (inr tt, called (with_tmp s t), []).
Proof.
  intros Hw. unfold access. cbn [tmp called with_tmp with_calls].
  rewrite (lookup_write_same _ _ _ _ Hw). reflexivity.
Qed.

Lemma attempt_succeeds env cmd args output data t s :
  converter env (calls s) cmd args = mkConversion true (Some data) ->
  Fs.write output data (tmp s) = Some t ->
  attempt env cmd args output s =
  (inr true, called (with_tmp s t),
   [RunConverter cmd args (mkConversion true (Some data))]).
Proof.
  intros Hc Hw. unfold attempt, bind.
  rewrite (execFile_succeeds _ _ _ _ _ _ _ Hc Hw).
  rewrite (access_written _ _ _ _ _ Hw). reflexivity.
Qed.

Lemma attempt_rejected env cmd args output s :
  cv_ok (converter env (calls s) cmd args) = false ->
  attempt env cmd args output s =
  (inl ("Command failed: " ++ cmd)%string, converted env cmd args output s,
   [RunConverter cmd args (converter env (calls s) cmd args)]).
Proof.
  intros Hc. unfold attempt, bind, execFile. rewrite Hc. reflexivity.
Qed.

(** When the first strategy works the candidate is its output. *)
Lemma convert_first env filePath ext (isMp4 : bool) original s data t :
  let webpPath := rename filePath (replace_ext ext ".webp") in
  let cmd := if isMp4 then "ffmpeg" else "magick" in
  let args := if isMp4
              then ffmpeg_webp_args (str env filePath) (str env webpPath)
              else magick_args (str env filePath) (str env webpPath) in
  converter env (calls s) cmd args = mkConversion true (Some data) ->
  Fs.write webpPath data (tmp s) = Some t ->
  convert env filePath ext isMp4 original s =
  (inr (webpPath, ".webp", Some "image/webp"), called (with_tmp s t),
   [RunConverter cmd args (mkConversion true (Some data))]).
Proof.
  intros webpPath cmd args Hc Hw. unfold convert. fold webpPath.
  destruct isMp4; subst cmd args; cbv iota in Hc |- *;
    unfold bind, try_catch; cbn [ret negb].
  - rewrite (attempt_succeeds _ _ _ _ _ _ _ Hc Hw). reflexivity.
  - rewrite (attempt_succeeds _ _ _ _ _ _ _ Hc Hw). reflexivity.
Qed.

(** X15.  When the first strategy of the converter works for a [.gif] or
    a [.mp4] file ([magick] for the one, [ffmpeg] for the other) no other
    program is run: the output of the program is stored, under a name
    that ends with [.webp] and with the type [image/webp], and the row
    keeps the name of the original file. *)
Theorem first_strategy_output_is_stored env filePath s data t :
  let ext := extension env filePath in
  let webpPath := rename filePath (replace_ext ext ".webp") in
  let run := first_strategy env filePath in
  ext = ".gif" \/ ext = ".mp4" ->
  converter env (calls s) (fst run) (snd run) = mkConversion true (Some data) ->
  Fs.write webpPath data (tmp s) = Some t ->
  byteLength data <= MAX_DOWNLOAD_SIZE ->
  let s1 := called (with_tmp s t) in
  let g := row env s1 filePath ".webp" (Some "image/webp") (byteLength data) in
  process_file env filePath s =
  (inr true, after_storing s1 (g_filename g) data g,
   [RunConverter (fst run) (snd run) (mkConversion true (Some data));
    Stat webpPath (byteLength data); CopyFile webpPath (g_filename g);
    AddGif g]) /\
  g_originalName g = Path.basename (str env filePath) /\
  Js.endsWith (g_filename g) ".webp" = true.
Proof.
  intros ext webpPath run Hext Hc Hw Hsize s1 g.
  assert (Hl : Fs.lookup webpPath (tmp s1)
               = Some (File (last webpPath EmptyString) data)).
  { apply (lookup_write_same _ _ _ _ Hw). }
  assert (Hnot : String.eqb ".webp" ".mp4" = false) by reflexivity.
  pose proof (persist_stores env filePath webpPath ".webp" (Some "image/webp")
                s1 Hnot _ data Hl Hsize) as Hp.
  cbn zeta in Hp. fold g in Hp.
  split; [|split].
  - unfold process_file. fold (extension env filePath).
    unfold run, first_strategy in *. subst webpPath. subst ext.
    destruct Hext as [Hext | Hext]; rewrite Hext in *;
      cbn [allowed_extension ALLOWED_EXTENSIONS existsb String.eqb Ascii.eqb
           Bool.eqb negb andb orb fst snd] in *.
    + unfold bind at 1.
      rewrite (convert_first env filePath ".gif" false _ s data t Hc Hw).
      fold s1. rewrite Hp. reflexivity.
    + unfold bind at 1.
      rewrite (convert_first env filePath ".mp4" true _ s data t Hc Hw).
      fold s1. rewrite Hp. reflexivity.
  - reflexivity.
  - unfold g, row, unique_name. cbn [g_filename]. apply endsWith_spec.
    eexists. rewrite <- !append_assoc. reflexivity.
Qed.

Lemma first_strategy_output_is_stored_witness :
  process_file Cases.working Sample.gif_path Sample.workshop =
  (inr true,
   after_storing (called (with_tmp Sample.workshop Cases.after_magick))
     "1700000000003-eeeeee.webp" Cases.webp_bytes
     (mkGif "ffffffffff" "1700000000003-eeeeee.webp" "c.gif"
            (Some "image/webp") 5),
   [RunConverter "magick"
      ["/tmp/ws/c.gif"; "-coalesce"; "-quality"; "80"; "/tmp/ws/c.webp"]
      (mkConversion true (Some Cases.webp_bytes));
    Stat ["ws"; "c.webp"] 5;
    CopyFile ["ws"; "c.webp"] "1700000000003-eeeeee.webp";
    AddGif (mkGif "ffffffffff" "1700000000003-eeeeee.webp" "c.gif"
                  (Some "image/webp") 5)]).
Proof.
  apply (first_strategy_output_is_stored Cases.working Sample.gif_path
           Sample.workshop Cases.webp_bytes Cases.after_magick);
    [left; reflexivity | reflexivity | reflexivity | discriminate].
Defined.

(** X16.  A clip for which the three conversions to [.webp] are rejected
    and the conversion of [ffmpeg] to [.gif] works is stored as a gif:
    the four programs are run in the order [ffmpeg], [magick], [convert],
    [ffmpeg], the output of the last one is copied under a name that ends
    with [.gif], and the row has the type [image/gif]. *)
Theorem clip_is_stored_as_gif env filePath s data t :
  let webpPath := rename filePath (replace_ext ".mp4" ".webp") in
  let gifPath := rename filePath (replace_ext ".mp4" ".gif") in
  let direct := ffmpeg_webp_args (str env filePath) (str env webpPath) in
  let coalesce := magick_args (str env filePath) (str env webpPath) in
  let legacy := ffmpeg_gif_args (str env filePath) (str env gifPath) in
  let s1 := converted env "ffmpeg" direct webpPath s in
  let s2 := converted env "magick" coalesce webpPath s1 in
  let s3 := converted env "convert" coalesce webpPath s2 in
  extension env filePath = ".mp4" ->
  cv_ok (converter env (calls s) "ffmpeg" direct) = false ->
  cv_ok (converter env (calls s1) "magick" coalesce) = false ->
  cv_ok (converter env (calls s2) "convert" coalesce) = false ->
  converter env (calls s3) "ffmpeg" legacy = mkConversion true (Some data) ->
  Fs.write gifPath data (tmp s3) = Some t ->
  byteLength data <= MAX_DOWNLOAD_SIZE ->
  let s4 := called (with_tmp s3 t) in
  let g := row env s4 filePath ".gif" (Some "image/gif") (byteLength data) in
  process_file env filePath s =
  (inr true, after_storing s4 (g_filename g) data g,
   [RunConverter "ffmpeg" direct (converter env (calls s) "ffmpeg" direct);
    RunConverter "magick" coalesce (converter env (calls s1) "magick" coalesce);
    RunConverter "convert" coalesce
      (converter env (calls s2) "convert" coalesce);
    RunConverter "ffmpeg" legacy (mkConversion true (Some data));
    Stat gifPath (byteLength data); CopyFile gifPath (g_filename g);
    AddGif g]) /\
  Js.endsWith (g_filename g) ".gif" = true.
Proof.
  intros webpPath gifPath direct coalesce legacy s1 s2 s3
         Hext H1 H2 H3 H4 Hw Hsize s4 g.
  assert (Hl : Fs.lookup gifPath (tmp s4)
               = Some (File (last gifPath EmptyString) data)).
  { apply (lookup_write_same _ _ _ _ Hw). }
  assert (Hnot : String.eqb ".gif" ".mp4" = false) by reflexivity.
  pose proof (persist_stores env filePath gifPath ".gif" (Some "image/gif")
                s4 Hnot _ data Hl Hsize) as Hp.
  cbn zeta in Hp. fold g in Hp.
  split.
  - unfold process_file. fold (extension env filePath). rewrite Hext.
    cbn [allowed_extension ALLOWED_EXTENSIONS existsb String.eqb Ascii.eqb
         Bool.eqb negb andb orb].
    unfold convert. fold webpPath gifPath direct coalesce legacy.
    unfold bind at 1. unfold bind at 1. unfold try_catch at 1.
    rewrite (attempt_rejected env "ffmpeg" direct webpPath s H1).
    fold s1. cbn [ret negb].
    unfold bind at 1. unfold try_catch at 1.
    rewrite (attempt_rejected env "magick" coalesce webpPath s1 H2).
    fold s2. unfold try_catch at 1.
    rewrite (attempt_rejected env "convert" coalesce webpPath s2 H3).
    fold s3. cbn [ret].
    unfold try_catch, bind.
    rewrite (execFile_succeeds _ _ _ _ _ _ _ H4 Hw).
    rewrite (access_written _ _ _ _ _ Hw). fold s4. cbn [ret].
    rewrite Hp. reflexivity.
  - unfold g, row, unique_name. cbn [g_filename]. apply endsWith_spec.
    eexists. rewrite <- !append_assoc. reflexivity.
Qed.

Lemma clip_is_stored_as_gif_witness :
  value_of (process_file Cases.legacy Sample.clip_path Sample.workshop)
  = inr true /\
  uploads (state_of (process_file Cases.legacy Sample.clip_path
                       Sample.workshop))
  = [("1700000000006-hhhhhh.gif", Cases.gif_bytes)] /\
  gifs (state_of (process_file Cases.legacy Sample.clip_path Sample.workshop))
  = [mkGif "iiiiiiiiii" "1700000000006-hhhhhh.gif" "a.mp4"
           (Some "image/gif") 6].
Proof.
  destruct (clip_is_stored_as_gif Cases.legacy Sample.clip_path
              Sample.workshop Cases.gif_bytes Cases.after_ffmpeg
              eq_refl eq_refl eq_refl eq_refl eq_refl eq_refl
              ltac:(discriminate)) as [Hrun _].
  rewrite Hrun. repeat split.
Defined.

(** ** The fallback and the listing *)

Lemma or_else_absent a b : absent a -> or_else a b = b.
Proof. intros [-> | ->]; reflexivity. Qed.

Lemma or_else_present found b :
  found <> EmptyString -> or_else (Some found) b = Some found.
Proof. intros H. destruct found; [contradiction | reflexivity]. Qed.

(** The content the fallback takes is that of the first property of its
    list that has one. *)
Lemma first_present env html before prop after found :
  meta_properties = before ++ prop :: after ->
  Forall (fun p => absent (extractMeta env html p)) before ->
  extractMeta env html prop = Some found ->
  found <> EmptyString ->
  or_else (extractMeta env html "og:video")
    (or_else (extractMeta env html "og:video:url")
       (or_else (extractMeta env html "og:image")
          (extractMeta env html "twitter:image"))) = Some found.
Proof.
  intros Hsplit Hbefore Hfound Hne. unfold meta_properties in Hsplit.
  destruct before as [|b1 [|b2 [|b3 [|b4 before]]]]; cbn [app] in Hsplit;
    inversion Hsplit; subst;
    repeat match goal with
           | H : Forall _ (_ :: _) |- _ => inversion H; subst; clear H
           end.
  - rewrite Hfound. apply or_else_present. exact Hne.
  - rewrite or_else_absent by assumption.
    rewrite Hfound. apply or_else_present. exact Hne.
  - rewrite !or_else_absent by assumption.
    rewrite Hfound. apply or_else_present. exact Hne.
  - rewrite !or_else_absent by assumption. exact Hfound.
  - destruct before; discriminate.
Qed.

(** X17.  When the page of the fallback is fetched, the media the
    fallback downloads is named by the first of [og:video],
    [og:video:url], [og:image] and [twitter:image] that has a content in
    the page, whatever the later ones hold: it is fetched from that
    content with [&amp;] unescaped, as the second and last fetch.  When
    none of the four has a content, the fallback fails with [No media
    found via metadata fallback] after the fetch of the page alone. *)
Theorem fallback_takes_first_meta env dir urlStr s pageResp html :
  fetch env (calls s) urlStr page_agent = Responded pageResp ->
  ok pageResp = true ->
  text pageResp = inr html ->
  (forall before prop after found,
     meta_properties = before ++ prop :: after ->
     Forall (fun p => absent (extractMeta env html p)) before ->
     extractMeta env html prop = Some found ->
     found <> EmptyString ->
     exists rest,
       events_of (fallback env dir urlStr s) =
       Fetch urlStr page_agent (Responded pageResp)
         :: Fetch (Js.Str (Js.replace_amp found)) media_agent
              (fetch env (S (calls s)) (Js.Str (Js.replace_amp found))
                 media_agent)
         :: rest /\
       Forall (fun e => ~ fetch_event e) rest) /\
  (Forall (fun p => absent (extractMeta env html p)) meta_properties ->
   fallback env dir urlStr s =
   (inl "No media found via metadata fallback", called s,
    [Fetch urlStr page_agent (Responded pageResp)])).
Proof.
  intros Hfetch Hok Htext. split.
  - intros before prop after found Hsplit Hbefore Hfound Hne.
    pose proof (first_present env html before prop after found
                  Hsplit Hbefore Hfound Hne) as Hchain.
    unfold fallback, bind, call_fetch, await.
    rewrite Hfetch, Hok, Htext. cbn [negb]. rewrite Hchain.
    destruct found as [|c found]; [contradiction|].
    cbn [calls called with_calls].
    set (mediaUrl := Js.replace_amp (String c found)).
    destruct (fetch env (S (calls s)) (Js.Str mediaUrl) media_agent)
      as [m | mediaResp].
    { eexists. split; [reflexivity | constructor]. }
    destruct (ok mediaResp); cbn [negb].
    2:{ eexists. split; [reflexivity | constructor]. }
    destruct (declares_too_large env mediaResp).
    { eexists. split; [reflexivity | constructor]. }
    destruct (arrayBuffer mediaResp) as [m | buffer].
    { eexists. split; [reflexivity | constructor]. }
    destruct (byteLength buffer >? MAX_DOWNLOAD_SIZE).
    { eexists. split; [reflexivity | constructor]. }
    destruct (new_URL env (Js.Str mediaUrl)) as [parsed|].
    2:{ eexists. split; [reflexivity | constructor]. }
    unfold writeFile. cbn [tmp called with_calls].
    destruct (Fs.write _ buffer (tmp s)).
    + eexists. split; [reflexivity|]. constructor; [intros [] | constructor].
    + eexists. split; [reflexivity | constructor].
  - intros Hnone. unfold meta_properties in Hnone.
    repeat match goal with
           | H : Forall _ (_ :: _) |- _ => inversion H; subst; clear H
           end.
    unfold fallback, bind, call_fetch, await.
    rewrite Hfetch, Hok, Htext. cbn [negb].
    rewrite !or_else_absent by assumption.
    match goal with
    | H : absent (extractMeta env html "twitter:image") |- _ =>
        destruct H as [-> | ->]
    end; reflexivity.
Qed.

Lemma fallback_takes_first_meta_witness :
  exists rest,
    events_of (fallback Sample.heavy_fallback "ws" Sample.tenor Sample.start)
    = Fetch Sample.tenor page_agent (Responded Cases.page_response)
        :: Fetch (Js.Str Sample.media_url) media_agent
             (Responded Sample.heavy_response)
        :: rest /\
    Forall (fun e => ~ fetch_event e) rest.
Proof.
  apply (proj1 (fallback_takes_first_meta Sample.heavy_fallback "ws"
                  Sample.tenor Sample.start Cases.page_response Sample.page
                  eq_refl eq_refl eq_refl)
           [] "og:video" ["og:video:url"; "og:image"; "twitter:image"]
           Sample.media_url eq_refl (Forall_nil _) eq_refl).
  discriminate.
Defined.

Lemma unclassified_files_are_skipped env files :
  (forall f, In f files -> classified env f = false) ->
  forall s, process_files env files false s = (inr false, s, []).
Proof.
  induction files as [|f files IH]; intros Hall s; [reflexivity|].
  cbn [process_files]. unfold bind.
  rewrite (unclassified_is_skipped env f s (Hall f (or_introl eq_refl))).
  rewrite (IH (fun g Hg => Hall g (or_intror Hg)) s). reflexivity.
Qed.

Lemma acquire_not_processing e : acquire_event e -> not_processing e.
Proof. unfold not_processing. destruct e; cbn; tauto. Qed.

(** X18.  A URL whose workspace is listed with no file of the extensions
    [.gif], [.webp] and [.mp4] fails, with [No files downloaded by
    gallery-dl] when the listing is empty and with [Downloaded files were
    not valid GIFs/WebPs or were too large.] when it is not.  No file is
    looked at any further: no converter is run, nothing is measured or
    copied, and no asset is stored. *)
Theorem unclassified_files_fail_the_url env urlStr s dir files :
  In (Listing dir files) (events_of (process_url env urlStr s)) ->
  (forall f, In f files -> classified env f = false) ->
  value_of (process_url env urlStr s) =
    inr (failure urlStr
           match files with
           | [] => no_files_message
           | _ :: _ => none_valid_message
           end) /\
  Forall not_processing (events_of (process_url env urlStr s)) /\
  gifs (state_of (process_url env urlStr s)) = gifs s /\
  uploads (state_of (process_url env urlStr s)) = uploads s.
Proof.
  intros Hin Hall.
  destruct (url_stages env urlStr s) as [[Hev _] | (_ & Hev & Hval & G & U)].
  { rewrite Hev in Hin. contradiction. }
  set (s0 := with_result s (new_result urlStr)) in *.
  set (ws := workspace env s0) in *.
  set (s1 := in_workspace env s0) in *.
  rewrite Hev in Hin |- *. rewrite Hval, G, U. clear Hev Hval G U.
  destruct Hin as [Hin | Hin]; [discriminate Hin|].
  apply in_app_or in Hin. destruct Hin as [Hin | [Hin | []]]; [|discriminate Hin].
  pose proof (import_into_run env ws urlStr s1) as Hrun. cbn zeta in Hrun.
  pose proof (quiet_acquire env ws urlStr s1) as (Fa & Ga & Ua & Ra).
  pose proof (acquire_not_listing env ws urlStr s1 dir files) as Hacq.
  assert (Fa' : Forall not_processing (events_of (acquire env ws urlStr s1))).
  { eapply Forall_impl; [|exact Fa]. apply acquire_not_processing. }
  destruct (value_of (acquire env ws urlStr s1)) as [m | []].
  { rewrite Hrun in Hin. contradiction. }
  destruct (listing ws (tmp (state_of (acquire env ws urlStr s1))))
    as [[|f fs]|].
  - rewrite Hrun in Hin |- *.
    cbn [events_of value_of state_of fst snd] in Hin |- *.
    apply in_app_or in Hin. destruct Hin as [Hin | [Hin | []]];
      [contradiction|].
    inversion Hin; subst.
    rewrite Ga, Ua, Ra. repeat split.
    constructor; [intros [] |]. apply Forall_app. split.
    + apply Forall_app. split; [exact Fa' | repeat constructor; intros []].
    + repeat constructor. intros [].
  - rewrite Hrun in Hin |- *.
    cbn [events_of value_of state_of fst snd] in Hin |- *.
    apply in_app_or in Hin. destruct Hin as [Hin | [Hin | Hin]];
      [contradiction | |].
    + inversion Hin; subst.
      rewrite (unclassified_files_are_skipped env _ Hall).
      cbn [events_of value_of state_of fst snd loop_value].
      rewrite Ga, Ua, Ra. repeat split.
      constructor; [intros [] |]. apply Forall_app. split.
      * apply Forall_app. split; [exact Fa' | repeat constructor; intros []].
      * repeat constructor. intros [].
    + exfalso.
      destruct (process_files_outcome env (f :: fs)
                  (state_of (acquire env ws urlStr s1))) as [Hp _].
      rewrite Forall_forall in Hp. apply Hp in Hin. exact Hin.
  - destruct Hrun as [m Hrun]. rewrite Hrun in Hin. contradiction.
Qed.

Lemma unclassified_files_fail_the_url_witness :
  value_of (process_url Cases.notes Sample.tenor Sample.start)
  = inr (failure Sample.tenor none_valid_message) /\
  Forall not_processing
    (events_of (process_url Cases.notes Sample.tenor Sample.start)) /\
  gifs (state_of (process_url Cases.notes Sample.tenor Sample.start))
  = gifs Sample.start /\
  uploads (state_of (process_url Cases.notes Sample.tenor Sample.start))
  = uploads Sample.start.
Proof.
  apply (unclassified_files_fail_the_url Cases.notes Sample.tenor Sample.start
           Sample.workspace_name [[Sample.workspace_name; "notes.txt"]]).
  - vm_compute. auto.
  - intros f [<- | []]. reflexivity.
Defined.

(** ** The stored name reads back its extension *)

Lemma endsWith_slash_rev (x : string) :
  Js.endsWith x "/" = true <-> exists l, rev (Path.chars x) = Path.slash :: l.
Proof.
  rewrite endsWith_spec. split.
  - intros [p ->]. rewrite chars_app, rev_app_distr. eexists. reflexivity.
  - intros [l Hl]. exists (Path.of_chars (rev l)).
    apply (f_equal (@rev ascii)) in Hl. rewrite rev_involutive in Hl.
    rewrite <- (of_chars_chars x), Hl. cbn [rev]. apply of_chars_app.
Qed.

(** [path.extname] of a name made of a stem that does not end with a
    slash and of an allowed extension is that extension. *)
Lemma extname_of_stem (stem : string) (c : ascii) (R : list ascii) (ext : string) :
  rev (Path.chars stem) = c :: R ->
  c <> Path.slash ->
  ext = ".gif" \/ ext = ".webp" ->
  Path.extname (stem ++ ext) = ext.
Proof.
  intros Hstem Hc Hext.
  assert (Hcs : Ascii.eqb c Path.slash = false) by (apply Ascii.eqb_neq; exact Hc).
  unfold Path.extname, Path.last_portion_rev.
  rewrite chars_app, rev_app_distr, Hstem.
  destruct Hext as [-> | ->]; cbn; rewrite Hcs; cbn;
    destruct (Path.until_slash R); reflexivity.
Qed.

Lemma extname_of_unique_name env s ext :
  (forall n, Js.endsWith (nanoid env n 6) "/" = false) ->
  ext = ".gif" \/ ext = ".webp" ->
  Path.extname (unique_name env s ext) = ext.
Proof.
  intros Hid Hext. unfold unique_name.
  set (ts := Js.string_of_Z (date_now env (calls s))).
  set (id := nanoid env (S (calls s)) 6).
  replace (ts ++ "-" ++ id ++ ext)%string with ((ts ++ "-" ++ id) ++ ext)%string
    by (rewrite !append_assoc; reflexivity).
  destruct (rev (Path.chars id)) as [|c R] eqn:Hrev.
  - eapply extname_of_stem with (c := "-"%char);
      [|discriminate | exact Hext].
    rewrite !chars_app, !rev_app_distr, Hrev. reflexivity.
  - eapply extname_of_stem with (c := c); [| |exact Hext].
    + rewrite !chars_app, !rev_app_distr, Hrev. reflexivity.
    + intros ->. specialize (Hid (S (calls s))). fold id in Hid.
      assert (Hends : Js.endsWith id "/" = true).
      { apply endsWith_slash_rev. exists R. exact Hrev. }
      congruence.
Qed.

Lemma row_is_readable env :
  (forall n, Js.endsWith (nanoid env n 6) "/" = false) ->
  forall s filePath ext mime size,
    image_candidate (filePath, ext, mime) -> String.eqb ext ".mp4" = false ->
    readable_asset (row env s filePath ext mime size).
Proof.
  intros Hid s filePath ext mime size.
  unfold image_candidate, readable_asset, row.
  cbn [fst snd g_mimeType g_filename].
  intros [-> | [[-> ->] | [-> ->]]] Hext; [discriminate Hext | |];
    rewrite (extname_of_unique_name env s _ Hid) by tauto;
    split; reflexivity.
Qed.

(** X20.  Provided [nanoid] gives no identifier that ends with a slash,
    every row the import handler adds can be served under its own link:
    the name of its file reads back the extension of its type, so that
    the request for the link [buildShareUrl] makes, once the row is the
    one of its slug and the file is in the uploads, is answered with the
    file and the type of the row, without a redirect. *)
Theorem imported_assets_are_served env body s base_path existsSync req :
  (forall n, Js.endsWith (nanoid env n 6) "/" = false) ->
  exists rows,
    gifs (state_of (import_handler env body s)) = gifs s ++ rows /\
    forall g, In g rows ->
      readable_asset g /\
      (Share.findGifBySlug (g_slug g)
         (gifs (state_of (import_handler env body s))) = Some g ->
       existsSync (g_filename g) = true ->
       exists mimeType,
         g_mimeType g = Some mimeType /\
         Share.serveSharedGif base_path
           (gifs (state_of (import_handler env body s))) existsSync req
           (g_slug g) (Some (Share.extensionFromFilename (Some (g_filename g))))
         = Share.SendFile (g_filename g) mimeType).
Proof.
  intros Hid.
  destruct (import_handler_adds env readable_asset (row_is_readable env Hid)
              body s) as (rows & Hrows & Hall).
  exists rows. split; [exact Hrows|].
  intros g Hin. rewrite Forall_forall in Hall. specialize (Hall g Hin).
  split; [exact Hall|].
  intros Hfind Hexists. destruct Hall as [Hallowed Hmime].
  rewrite (own_share_link_served_when_allowed base_path _ existsSync req
             _ g Hfind Hexists (or_intror Hallowed)).
  unfold Share.mimeType_of. rewrite Hmime.
  apply allowed_extension_cases in Hallowed.
  destruct Hallowed as [He | He]; rewrite He in Hmime; cbn in Hmime;
    rewrite <- Hmime; cbn; eexists; split; reflexivity.
Qed.

Lemma sample_nanoid_no_slash n size :
  Js.endsWith (Sample.nanoid n size) "/" = false.
Proof.
  unfold Sample.nanoid.
  assert (Hc : ascii_of_nat (97 + n mod 26) <> "/"%char).
  { intros H. apply (f_equal nat_of_ascii) in H.
    assert (Hlt : (n mod 26 < 26)%nat) by (apply Nat.mod_upper_bound; discriminate).
    rewrite nat_ascii_embedding in H by lia. cbn in H. lia. }
  generalize dependent (ascii_of_nat (97 + n mod 26)). intros c Hc.
  induction size as [|size IH]; [reflexivity|].
  cbn [Sample.letters Js.endsWith]. rewrite IH, orb_false_r.
  destruct size; cbn [Sample.letters String.eqb].
  - destruct (Ascii.eqb_spec c "/"%char); [contradiction | reflexivity].
  - destruct (Ascii.eqb c "/"%char); reflexivity.
Defined.

Lemma imported_assets_are_served_witness :
  readable_asset Cases.imported_row /\
  Share.serveSharedGif "/gifselector"
    (gifs (state_of (import_handler Sample.two_files Sample.two_urls
                       Sample.start)))
    Cases.imported Cases.request "iiiiiiiiii" (Some "webp")
  = Share.SendFile "1700000000006-hhhhhh.webp" "image/webp".
Proof.
  destruct (imported_assets_are_served Sample.two_files Sample.two_urls
              Sample.start "/gifselector" Cases.imported Cases.request
              (fun n => sample_nanoid_no_slash n 6))
    as (rows & Hrows & Hall).
  assert (Hin : In Cases.imported_row rows).
  { change (gifs Sample.start ++ rows) with rows in Hrows.
    rewrite <- Hrows. vm_compute. left. reflexivity. }
  destruct (Hall Cases.imported_row Hin) as [Hreadable Hserved].
  split; [exact Hreadable|].
  destruct Hserved as (mimeType & Hmime & Hrun);
    [vm_compute; reflexivity | reflexivity |].
  inversion Hmime; subst mimeType. exact Hrun.
Defined.

(* ================================================================== *)
(** * The temporary directory *)
(* ================================================================== *)

(** ** Everything happens inside the workspace *)

Lemma remove_in_dir dir f entries entries' :
  Fs.in_dir dir f entries = Some entries' ->
  Fs.remove dir entries' = Fs.remove dir entries.
Proof.
  revert entries'. induction entries as [|e entries IH]; intros entries' Hin;
    [discriminate Hin|].
  cbn [Fs.in_dir] in Hin. unfold Fs.remove in *. cbn [filter].
  destruct (String.eqb (node_name e) dir) eqn:He.
  - destruct e as [n d | n children]; [discriminate Hin|].
    destruct (f children) as [children'|]; [|discriminate Hin].
    inversion Hin; subst. cbn [filter node_name negb].
    rewrite String.eqb_refl. reflexivity.
  - destruct (Fs.in_dir dir f entries) as [rest|]; [|discriminate Hin].
    inversion Hin; subst. cbn [filter]. rewrite He. cbn [negb].
    f_equal. apply IH. reflexivity.
Qed.

Lemma remove_write dir p data entries entries' :
  inside dir p ->
  Fs.write p data entries = Some entries' ->
  Fs.remove dir entries' = Fs.remove dir entries.
Proof.
  destruct p as [|d [|n q]]; cbn [inside]; try contradiction.
  intros -> Hw. cbn [Fs.write] in Hw. eapply remove_in_dir. exact Hw.
Qed.

Lemma remove_absent dir entries :
  Fs.find dir entries = None -> Fs.remove dir entries = entries.
Proof.
  unfold Fs.remove. induction entries as [|e entries IH]; [reflexivity|].
  cbn [Fs.find filter]. destruct (String.eqb (node_name e) dir); [discriminate|].
  intros H. cbn [negb]. f_equal. apply IH. exact H.
Qed.

Lemma remove_made dir entries :
  Fs.remove dir (entries ++ [Dir dir []]) = Fs.remove dir entries.
Proof.
  unfold Fs.remove. rewrite filter_app. cbn [filter node_name].
  rewrite String.eqb_refl. cbn [negb]. apply app_nil_r.
Qed.

Lemma remove_idempotent dir entries :
  Fs.remove dir (Fs.remove dir entries) = Fs.remove dir entries.
Proof.
  unfold Fs.remove. induction entries as [|e entries IH]; [reflexivity|].
  cbn [filter]. destruct (negb (String.eqb (node_name e) dir)) eqn:He.
  - cbn [filter]. rewrite He. f_equal. exact IH.
  - exact IH.
Qed.

Lemma rename_inside dir p f : inside dir p -> inside dir (rename p f).
Proof.
  destruct p as [|d [|n q]]; cbn [inside]; try contradiction.
  intros ->. unfold rename, join.
  change (removelast (dir :: n :: q)) with (dir :: removelast (n :: q)).
  cbn [app]. destruct (removelast (n :: q)); reflexivity.
Qed.

Lemma findFiles_entry_inside dir :
  forall e prefix p,
    inside dir (prefix ++ [node_name e]) ->
    In p (findFiles_entry prefix e) -> inside dir p.
Proof.
  fix IH 1. intros [name data | name children] prefix p Hprefix Hin.
  - cbn [findFiles_entry] in Hin. destruct Hin as [<- | []]. exact Hprefix.
  - cbn [findFiles_entry node_name] in Hin, Hprefix.
    apply in_flat_map in Hin. destruct Hin as (child & Hchild & Hp).
    revert child Hchild Hp.
    induction children as [|c children IHc]; intros child Hchild Hp;
      [contradiction|].
    destruct Hchild as [<- | Hchild].
    + apply (IH c (join prefix name) p); [|exact Hp].
      unfold join. destruct (prefix ++ [name]) as [|d [|n q]] eqn:Hpre;
        cbn [inside] in Hprefix |- *; try contradiction.
      cbn [app]. exact Hprefix.
    + apply (IHc child Hchild Hp).
Qed.

Section Confined.

Variable env : Env.
Variable dir : string.

Lemma confined_unchanged {A} (m : M A) :
  (forall s, tmp (state_of (m s)) = tmp s) -> confined dir m.
Proof. intros H s. rewrite H. reflexivity. Qed.

Lemma confined_ret {A} (a : A) : confined dir (ret a).
Proof. apply confined_unchanged. reflexivity. Qed.

Lemma confined_throw {A} message : confined dir (@throw A message).
Proof. apply confined_unchanged. reflexivity. Qed.

Lemma confined_bind_yields {A B} (Q : A -> Prop) (m : M A) (k : A -> M B) :
  yields Q m -> confined dir m -> (forall a, Q a -> confined dir (k a)) ->
  confined dir (bind m k).
Proof.
  intros Hy Hm Hk s. unfold bind.
  pose proof (Hm s) as H1. pose proof (Hy s) as Hv.
  destruct (m s) as [[[e | a] s1] ev1]; cbn [state_of value_of fst snd] in *;
    [exact H1|].
  pose proof (Hk a (Hv a eq_refl) s1) as H2.
  destruct (k a s1) as [[v s2] ev2]; cbn [state_of fst snd] in *.
  congruence.
Qed.

Lemma confined_bind {A B} (m : M A) (k : A -> M B) :
  confined dir m -> (forall a, confined dir (k a)) -> confined dir (bind m k).
Proof.
  intros Hm Hk. apply confined_bind_yields with (Q := fun _ => True); auto.
  intros s a _. exact I.
Qed.

Lemma confined_try_catch {A} (m : M A) (handler : string -> M A) :
  confined dir m -> (forall e, confined dir (handler e)) ->
  confined dir (try_catch m handler).
Proof.
  intros Hm Hh s. unfold try_catch. pose proof (Hm s) as H1.
  destruct (m s) as [[[e | a] s1] ev1]; cbn [state_of fst snd] in *;
    [|exact H1].
  pose proof (Hh e s1) as H2.
  destruct (handler e s1) as [[v s2] ev2]; cbn [state_of fst snd] in *.
  congruence.
Qed.

Lemma confined_execFile cmd args output :
  inside dir output -> confined dir (execFile env cmd args output).
Proof.
  intros Hout s. unfold execFile. cbn [state_of fst snd tmp called with_calls with_tmp].
  destruct (cv_output _) as [data|]; [|reflexivity].
  destruct (Fs.write output data (tmp s)) as [t|] eqn:Hw; [|reflexivity].
  eapply remove_write; eassumption.
Qed.

Lemma confined_access p : confined dir (access env p).
Proof.
  apply confined_unchanged. intros s. unfold access.
  destruct (Fs.lookup p (tmp s)); reflexivity.
Qed.

Lemma confined_attempt cmd args output :
  inside dir output -> confined dir (attempt env cmd args output).
Proof.
  intros Hout. unfold attempt.
  apply confined_bind; [apply confined_execFile; exact Hout | intros _].
  apply confined_bind; [apply confined_access | intros _; apply confined_ret].
Qed.

Lemma confined_convert filePath ext (isMp4 : bool) original :
  inside dir filePath -> confined dir (convert env filePath ext isMp4 original).
Proof.
  intros Hin. unfold convert.
  pose proof (rename_inside dir filePath (replace_ext ext ".webp") Hin) as Hwebp.
  pose proof (rename_inside dir filePath (replace_ext ext ".gif") Hin) as Hgif.
  apply confined_bind.
  { destruct isMp4; [|apply confined_ret].
    apply confined_try_catch; [apply confined_attempt; exact Hwebp|].
    intros _. apply confined_ret. }
  intros direct. apply confined_bind.
  { destruct (negb direct); [|apply confined_ret].
    apply confined_try_catch; [apply confined_attempt; exact Hwebp|].
    intros _. apply confined_try_catch; [apply confined_attempt; exact Hwebp|].
    intros _. apply confined_ret. }
  intros conversionSuccess. destruct conversionSuccess; [apply confined_ret|].
  destruct isMp4; [|apply confined_ret].
  apply confined_try_catch; [|intros _; apply confined_ret].
  apply confined_bind; [apply confined_execFile; exact Hgif | intros _].
  apply confined_bind; [apply confined_access | intros _; apply confined_ret].
Qed.

Lemma confined_persist filePath final : confined dir (persist env filePath final).
Proof.
  destruct final as [[p ext] mime]. intros s.
  destruct (String.eqb ext ".mp4") eqn:Hext.
  { rewrite persist_mp4 by assumption. reflexivity. }
  destruct (Fs.lookup p (tmp s)) as [[name data | name children] |] eqn:L.
  - destruct (Z_lt_le_dec MAX_DOWNLOAD_SIZE (byteLength data)) as [Hsize | Hsize].
    + erewrite persist_too_large by eassumption. reflexivity.
    + erewrite persist_stores by eassumption. reflexivity.
  - destruct (persist_directory env filePath p ext mime s Hext _ _ L) as [m ->].
    reflexivity.
  - destruct (persist_missing env filePath p ext mime s Hext L) as [m ->].
    reflexivity.
Qed.

Lemma confined_process_file filePath :
  inside dir filePath -> confined dir (process_file env filePath).
Proof.
  intros Hin. unfold process_file.
  destruct (negb _ && negb _); [apply confined_ret|].
  apply confined_bind; [|intros final; apply confined_persist].
  destruct (_ || _); [apply confined_convert; exact Hin | apply confined_ret].
Qed.

Lemma confined_process_files files :
  Forall (inside dir) files ->
  forall foundValid, confined dir (process_files env files foundValid).
Proof.
  induction 1 as [|f files Hf _ IH]; intros foundValid; cbn [process_files].
  - apply confined_ret.
  - destruct foundValid; [apply confined_ret|].
    apply confined_bind; [apply confined_process_file; exact Hf | intros found].
    apply IH.
Qed.

Lemma confined_gallery_dl urlStr : confined dir (execFile_gallery_dl env dir urlStr).
Proof.
  intros s. unfold execFile_gallery_dl.
  cbn [state_of fst snd tmp called with_calls with_tmp].
  destruct (Fs.in_dir dir _ (tmp s)) as [t|] eqn:Hin; [|reflexivity].
  eapply remove_in_dir. exact Hin.
Qed.

Lemma confined_fetch target agent : confined dir (call_fetch env target agent).
Proof. apply confined_unchanged. reflexivity. Qed.

Lemma confined_writeFile p data :
  inside dir p -> confined dir (writeFile env p data).
Proof.
  intros Hp s. unfold writeFile.
  destruct (Fs.write p data (tmp s)) as [t|] eqn:Hw; [|reflexivity].
  cbn [state_of fst snd tmp with_tmp]. eapply remove_write; eassumption.
Qed.

Lemma confined_fallback urlStr : confined dir (fallback env dir urlStr).
Proof.
  unfold fallback.
  apply confined_bind; [apply confined_fetch | intros pageResp].
  destruct (negb (ok pageResp)); [apply confined_throw|].
  apply confined_bind; [apply confined_unchanged; reflexivity | intros html].
  destruct (or_else _ _) as [[|c found]|]; try apply confined_throw.
  apply confined_bind; [apply confined_fetch | intros mediaResp].
  destruct (negb (ok mediaResp)); [apply confined_throw|].
  destruct (declares_too_large env mediaResp); [apply confined_throw|].
  apply confined_bind; [apply confined_unchanged; reflexivity | intros buffer].
  destruct (byteLength buffer >? MAX_DOWNLOAD_SIZE); [apply confined_throw|].
  destruct (new_URL env _) as [parsed|]; [|apply confined_throw].
  apply confined_writeFile. reflexivity.
Qed.

Lemma confined_acquire urlStr : confined dir (acquire env dir urlStr).
Proof.
  unfold acquire. apply confined_try_catch; [apply confined_gallery_dl|].
  intros _. apply confined_fallback.
Qed.

Lemma findFiles_inside : yields (Forall (inside dir)) (findFiles env dir).
Proof.
  intros s files. unfold findFiles.
  destruct (Fs.find dir (tmp s)) as [[name data | name children] |];
    cbn [value_of fst]; try discriminate.
  intros [= <-]. apply Forall_forall. intros p Hp.
  apply in_flat_map in Hp. destruct Hp as (child & _ & Hp).
  eapply findFiles_entry_inside; [|exact Hp]. reflexivity.
Qed.

Lemma confined_findFiles : confined dir (findFiles env dir).
Proof.
  apply confined_unchanged. intros s. unfold findFiles.
  destruct (Fs.find dir (tmp s)) as [[? ? | ? ?] |]; reflexivity.
Qed.

Lemma confined_import_into urlStr : confined dir (import_into env dir urlStr).
Proof.
  unfold import_into.
  apply confined_bind; [apply confined_acquire | intros _].
  apply confined_bind_yields with (Q := Forall (inside dir));
    [apply findFiles_inside | apply confined_findFiles |].
  intros files Hfiles. destruct (List.length files =? 0)%nat;
    [apply confined_throw|].
  apply confined_bind; [apply confined_process_files; exact Hfiles | intros found].
  destruct (negb found && (0 <? List.length files)%nat);
    [apply confined_throw | apply confined_ret].
Qed.

End Confined.

(** X23.  The run of a URL leaves no trace in the temporary directory.
    Whatever the programs and the servers do, every entry of
    [os.tmpdir()] other than the workspace of the URL is as before, in
    its place; and when the surroundings do not reject the removal of
    the workspace, the temporary directory is exactly as it was before
    the URL. *)
Theorem url_leaves_no_trace env urlStr s :
  let run := process_url env urlStr s in
  let s0 := with_result s (new_result urlStr) in
  let dir := workspace env s0 in
  let inner := import_into env dir urlStr (in_workspace env s0) in
  Fs.remove dir (tmp (state_of run)) = Fs.remove dir (tmp s) /\
  (rm_fails env (calls (state_of inner)) = false ->
   tmp (state_of run) = tmp s).
Proof.
  cbn zeta. rewrite process_url_run.
  set (s0 := with_result s (new_result urlStr)).
  pose proof (import_url_run env urlStr s0) as H. cbn zeta in H.
  cbn [state_of events_of fst snd tmp with_result].
  destruct (new_URL env urlStr) as [url|].
  2:{ rewrite H. split; reflexivity. }
  destruct (isAllowed env url).
  2:{ rewrite H. split; reflexivity. }
  destruct (Fs.find (workspace env s0) (tmp s0)) eqn:Hfresh.
  { rewrite H. split; reflexivity. }
  rewrite H. cbn [state_of events_of fst snd].
  set (dir := workspace env s0) in *.
  set (inner := import_into env dir urlStr (in_workspace env s0)).
  assert (Hinner : Fs.remove dir (tmp (state_of inner)) = Fs.remove dir (tmp s)).
  { unfold inner. rewrite (confined_import_into env dir urlStr).
    cbn [in_workspace tmp with_tmp called with_calls].
    apply (remove_made dir (tmp s0)). }
  assert (Hclean : Fs.remove dir (tmp (cleaned env dir (state_of inner)))
                   = Fs.remove dir (tmp s)).
  { unfold cleaned. destruct (rm_fails env (calls (state_of inner)));
      cbn [tmp called with_calls with_tmp]; [exact Hinner|].
    rewrite remove_idempotent. exact Hinner. }
  split; [exact Hclean|].
  intros Hok. unfold cleaned. rewrite Hok.
  cbn [tmp called with_calls with_tmp]. rewrite Hinner.
  apply remove_absent. exact Hfresh.
Qed.

Lemma url_leaves_no_trace_witness :
  tmp (state_of (process_url Sample.two_files Sample.tenor Sample.workshop))
  = tmp Sample.workshop.
Proof.
  apply (proj2 (url_leaves_no_trace Sample.two_files Sample.tenor
                  Sample.workshop)).
  reflexivity.
Defined.
